(** * ICPC coach agent: gym-simulation resolver, history trimmer, agent loop

    A shallow embedding of [src/agent.ts]: [getGymSimulations],
    [trimHistory], [streamEventsWithRetry] and [streamAgent].

    Conventions.
    - JavaScript numbers that the Codeforces API delivers as integers
      (ids, ranks, timestamps in seconds, point totals) are [Z].
    - Strings are [string]; handles are ASCII, so the byte order used here
      for the default [Array.prototype.sort] is the code-unit order.
    - An optional field ([x?: T], or a value guarded in the source by [?.]
      or [??]) is an [option].
    - A call that can reject (a [cf.*] request, a model-provider stream,
      a built-in raising [RangeError]/[TypeError]) returns a [Result].
    - The remote services are oracles: a record of functions giving the
      outcome of each call the code makes. *)

From Stdlib Require Import ZArith Ascii List Bool Lia Sorted Permutation.
From stdpp Require Import base option list gmap strings pretty sorting.

Local Open Scope string_scope.
Local Open Scope list_scope.
Local Open Scope Z_scope.

(** ** Errors and fallible computations *)

(** What the code inspects of a thrown value: [err.status], [err.message]. *)
Record JsError := mkError {
  status : option Z;
  message : option string;
}.

Definition RangeError (msg : string) : JsError := mkError None (Some msg).
Definition TypeError (msg : string) : JsError := mkError None (Some msg).

Inductive Result (A : Type) : Type :=
| Ok (a : A)
| Throw (e : JsError).
Arguments Ok {A} a.
Arguments Throw {A} e.

Definition bindR {A B} (r : Result A) (k : A -> Result B) : Result B :=
  match r with
  | Ok a => k a
  | Throw e => Throw e
  end.

Notation "'let*' x ':=' r 'in' k" := (bindR r (fun x => k))
  (at level 10, x name, r at level 100, k at level 200).

(** [xs.map(f)] where [f] may throw: the first exception aborts the map. *)
Fixpoint mapR {A B} (f : A -> Result B) (l : list A) : Result (list B) :=
  match l with
  | [] => Ok []
  | x :: l' => let* y := f x in let* ys := mapR f l' in Ok (y :: ys)
  end.

(** ** JavaScript built-ins used by the code *)

Module JS.

(** [`${n}`] for an integer. *)
Definition num (n : Z) : string := pretty n.

(** [s.includes(needle)]. *)
Fixpoint includes (needle s : string) : bool :=
  String.prefix needle s ||
  match s with
  | EmptyString => false
  | String _ s' => includes needle s'
  end.

(** [xs.slice(0, end)]: a negative [end] counts from the end of the array. *)
Definition slice0 {A} (l : list A) (end_ : Z) : list A :=
  let len := Z.of_nat (length l) in
  let k := if end_ <? 0 then Z.max (len + end_) 0 else Z.min end_ len in
  take (Z.to_nat k) l.

(** [xs.slice(-n)] for a positive literal [n]: the last [n] elements. *)
Definition sliceLast {A} (n : nat) (l : list A) : list A :=
  drop (length l - n)%nat l.

(** [xs.sort(cmp)] is a stable sort (ES2019): [before x y] says that [cmp x y <= 0],
    i.e. [x] need not move behind [y]. *)
Fixpoint insertBy {A} (before : A -> A -> bool) (x : A) (l : list A) : list A :=
  match l with
  | [] => [x]
  | y :: l' => if before x y then x :: l else y :: insertBy before x l'
  end.

Definition sortBy {A} (before : A -> A -> bool) (l : list A) : list A :=
  foldr (insertBy before) [] l.

(** [xs.sort()] on strings: ascending code-unit order. *)
Definition sortStrings (l : list string) : list string := sortBy String.leb l.

(** [xs.find(p)]. *)
Fixpoint find {A} (p : A -> bool) (l : list A) : option A :=
  match l with
  | [] => None
  | x :: l' => if p x then Some x else find p l'
  end.

(** [a ?? b] on an optional value. *)
Definition orElse {A} (a b : option A) : option A :=
  match a with
  | Some _ => a
  | None => b
  end.

(** [s.repeat(n)]; a negative count raises [RangeError], whose message
    names the count. *)
Fixpoint repeatN (s : string) (n : nat) : string :=
  match n with
  | O => EmptyString
  | S n' => s +:+ repeatN s n'
  end.

Definition repeat (s : string) (n : Z) : Result string :=
  if n <? 0 then Throw (RangeError ("Invalid count value: " +:+ num n))
  else Ok (repeatN s (Z.to_nat n)).

(** [Math.round(a / b)] for integers [a] and [b > 0]: halves round up. *)
Definition roundDiv (a b : Z) : Z := (2 * a + b) / (2 * b).

(** [String(n).padStart(w, "0")] for [n >= 0]. *)
Definition pad0 (w : nat) (n : Z) : string :=
  let s := num n in
  repeatN "0" (w - String.length s) +:+ s.

(** Days since 1970-01-01 to (year, month, day) in the proleptic Gregorian
    calendar, as [Date] does. *)
Definition civilFromDays (days : Z) : Z * Z * Z :=
  let z := days + 719468 in
  let era := z / 146097 in
  let doe := z - era * 146097 in
  let yoe := (doe - doe / 1460 + doe / 36524 - doe / 146096) / 365 in
  let doy := doe - (365 * yoe + yoe / 4 - yoe / 100) in
  let mp := (5 * doy + 2) / 153 in
  let d := doy - (153 * mp + 2) / 5 + 1 in
  let m := if mp <? 10 then mp + 3 else mp - 9 in
  let y := yoe + era * 400 in
  (if m <=? 2 then y + 1 else y, m, d).

Definition isoYear (y : Z) : string :=
  if (0 <=? y) && (y <=? 9999) then pad0 4 y
  else (if y <? 0 then "-" else "+") +:+ pad0 6 (Z.abs y).

(** [new Date(ms).toISOString()]; a time value beyond ±8.64e15 ms is an
    invalid date and raises [RangeError]. *)
Definition toISOString (ms : Z) : Result string :=
  if Z.abs ms <=? 8640000000000000 then
    let '(y, m, d) := civilFromDays (ms / 86400000) in
    let r := ms mod 86400000 in
    Ok (isoYear y +:+ "-" +:+ pad0 2 m +:+ "-" +:+ pad0 2 d +:+ "T" +:+
        pad0 2 (r / 3600000) +:+ ":" +:+ pad0 2 (r mod 3600000 / 60000) +:+ ":" +:+
        pad0 2 (r mod 60000 / 1000) +:+ "." +:+ pad0 3 (r mod 1000) +:+ "Z")
  else Throw (RangeError "Invalid time value").

(** [s.replace(c, d)] for one-character strings: first occurrence only. *)
Fixpoint replaceFirst (c d : ascii) (s : string) : string :=
  match s with
  | EmptyString => EmptyString
  | String a s' => if Ascii.eqb a c then String d s' else String a (replaceFirst c d s')
  end.

End JS.

(** [Map<string, V>]: iteration follows insertion order, which matters for
    the stable sort of [sessions.values()]. *)
Module JSMap.
Section JSMap.
Context {V : Type}.

Definition t := list (string * V).

Definition empty : t := [].

Definition has (key : string) (m : t) : bool :=
  existsb (fun kv => String.eqb (fst kv) key) m.

Definition get (key : string) (m : t) : option V :=
  snd <$> JS.find (fun kv => String.eqb (fst kv) key) m.

(** An existing key keeps its position; a new key goes last. *)
Fixpoint set (key : string) (v : V) (m : t) : t :=
  match m with
  | [] => [(key, v)]
  | kv :: m' => if String.eqb (fst kv) key then (key, v) :: m' else kv :: set key v m'
  end.

Definition size (m : t) : Z := Z.of_nat (length m).

Definition keys (m : t) : list string := map fst m.

Definition values (m : t) : list V := map snd m.
End JSMap.
Arguments t : clear implicits.
End JSMap.

(** ** Codeforces API objects ([src/types.ts]) *)

Inductive ParticipantType :=
| CONTESTANT | PRACTICE | VIRTUAL | MANAGER | OUT_OF_COMPETITION.

Definition isVIRTUAL (p : ParticipantType) : bool :=
  match p with
  | VIRTUAL => true
  | _ => false
  end.

Module CFMember.
Record t := mk { handle : string }.
End CFMember.
Abbreviation CFMember := CFMember.t.

Module CFParty.
Record t := mk {
  members : option (list CFMember);
  participantType : ParticipantType;
  teamName : option string;
  startTimeSeconds : option Z;
}.
End CFParty.
Abbreviation CFParty := CFParty.t.

Module CFContest.
Record t := mk {
  id : Z;
  name : string;
  durationSeconds : Z;
  difficulty : option Z;
}.
End CFContest.
Abbreviation CFContest := CFContest.t.

Module CFProblem.
Record t := mk { index : string }.
End CFProblem.
Abbreviation CFProblem := CFProblem.t.

Module CFProblemResult.
Record t := mk { points : option Z }.
End CFProblemResult.
Abbreviation CFProblemResult := CFProblemResult.t.

Module CFRanklistRow.
Record t := mk {
  party : option CFParty;
  rank : Z;
  problemResults : option (list CFProblemResult);
}.
End CFRanklistRow.
Abbreviation CFRanklistRow := CFRanklistRow.t.

Module CFStandingsResponse.
Record t := mk {
  problems : option (list CFProblem);
  rows : option (list CFRanklistRow);
}.
End CFStandingsResponse.
Abbreviation CFStandingsResponse := CFStandingsResponse.t.

Module CFSubmission.
Record t := mk {
  contestId : option Z;
  creationTimeSeconds : Z;
  author : option CFParty;
}.
End CFSubmission.
Abbreviation CFSubmission := CFSubmission.t.

(** The data client [cf] ([src/codeforces.ts]) as an oracle.  Every request
    either resolves or rejects.  [getContestStandings] additionally receives
    the number of standings requests already made, so that the remote answer
    may differ from one call to the next. *)
Record CFApi := {
  getUserSubmissions : string -> Z -> Z -> Result (list CFSubmission);
  getContestList : bool -> Result (list CFContest);
  getContestStandings :
    nat -> Z -> Z -> Z -> list string -> bool -> Result CFStandingsResponse;
}.

(** ** Resolver records *)

Module SimSession.
Record t := mk {
  contestId : Z;
  startTimeSeconds : Z;
  teamName : option string;
  members : list string;
}.
End SimSession.
Abbreviation SimSession := SimSession.t.

Module StandingsEntry.
Record t := mk {
  rank : Z;
  total : option Z;
  solved : Z;
  totalProblems : Z;
}.
End StandingsEntry.
Abbreviation StandingsEntry := StandingsEntry.t.

Module GymResult.
Record t := mk {
  name : string;
  link : string;
  difficulty : option string;
  durationHours : option Z;
  simulatedAt : string;
  teamName : option string;
  members : list string;
  rank : option string;
  solved : option string;
}.
End GymResult.
Abbreviation GymResult := GymResult.t.

Module GymSimulationsResult.
Record t := mk {
  handle : string;
  gyms : list GymResult;
}.
End GymSimulationsResult.
Abbreviation GymSimulationsResult := GymSimulationsResult.t.

(** ** The gym-simulation resolver: [getGymSimulations] *)

Module Resolver.

Definition pageSize : Z := 100.
Definition maxPages : nat := 20.
Definition CAP : Z := 3000.

(** *** Stage A: which submissions count *)

(** [(s.contestId ?? 0) > 100000] *)
Definition isGym (s : CFSubmission) : bool :=
  default 0 (CFSubmission.contestId s) >? 100000.

(** [s.author?.participantType === 'VIRTUAL'] *)
Definition isVirtual (s : CFSubmission) : bool :=
  match CFSubmission.author s with
  | Some a => isVIRTUAL (CFParty.participantType a)
  | None => false
  end.

(** *** Stage B: one session per key *)

(** [s.author?.startTimeSeconds ?? s.creationTimeSeconds] *)
Definition startTime (s : CFSubmission) : Z :=
  default (CFSubmission.creationTimeSeconds s)
          (CFSubmission.author s ≫= CFParty.startTimeSeconds).

(** [`${contestId}_${startTime}`] *)
Definition sessionKey (contestId startTime : Z) : string :=
  JS.num contestId +:+ "_" +:+ JS.num startTime.

(** The session literal stored for a submission.  It is only built for a
    submission that passed [isGym], whose [contestId] is therefore defined. *)
Definition sessionOf (s : CFSubmission) : SimSession :=
  {| SimSession.contestId := default 0 (CFSubmission.contestId s);
     SimSession.startTimeSeconds := startTime s;
     SimSession.teamName := CFSubmission.author s ≫= CFParty.teamName;
     SimSession.members :=
       JS.sortStrings
         (map CFMember.handle
              (default [] (CFSubmission.author s ≫= CFParty.members))) |}.

(** The body of [for (const s of subs)]. *)
Definition scanSubmission (sessions : JSMap.t SimSession) (s : CFSubmission)
  : JSMap.t SimSession :=
  if negb (isGym s) || negb (isVirtual s) then sessions
  else
    let key := sessionKey (default 0 (CFSubmission.contestId s)) (startTime s) in
    if negb (JSMap.has key sessions) then JSMap.set key (sessionOf s) sessions
    else sessions.

(** The paging loop, [pages] iterations left. *)
Fixpoint scanPages (cf : CFApi) (handle : string) (limit : Z)
    (pages : nat) (from : Z) (sessions : JSMap.t SimSession)
  : Result (JSMap.t SimSession) :=
  match pages with
  | O => Ok sessions
  | S pages' =>
      let* subs := getUserSubmissions cf handle pageSize from in
      if (length subs =? 0)%nat then Ok sessions
      else
        let sessions := foldl scanSubmission sessions subs in
        if Z.of_nat (length subs) <? pageSize then Ok sessions
        else if JSMap.size sessions >=? limit * 3 then Ok sessions
        else scanPages cf handle limit pages' (from + pageSize) sessions
  end.

(** *** Stage C: newest first, first [limit] *)

(** [(a, b) => b.startTimeSeconds - a.startTimeSeconds] is [<= 0]. *)
Definition newerFirst (a b : SimSession) : bool :=
  SimSession.startTimeSeconds b - SimSession.startTimeSeconds a <=? 0.

Definition selectTop (sessions : JSMap.t SimSession) (limit : Z) : list SimSession :=
  JS.slice0 (JS.sortBy newerFirst (JSMap.values sessions)) limit.

(** *** Stage D: contest metadata *)

Definition buildGymMap (topIds : gset Z) (gymList : list CFContest) : gmap Z CFContest :=
  foldl (fun (gymMap : gmap Z CFContest) g =>
           if bool_decide (CFContest.id g ∈ topIds)
           then <[CFContest.id g := g]> gymMap else gymMap)
        ∅ gymList.

(** *** Stage E: standings *)

(** [r.party?.members?.some(m => sim.members.includes(m.handle))] *)
Definition byMember (sim : SimSession) (r : CFRanklistRow) : bool :=
  match CFRanklistRow.party r ≫= CFParty.members with
  | Some ms =>
      existsb (fun m => bool_decide (CFMember.handle m ∈ SimSession.members sim)) ms
  | None => false
  end.

(** [r.party?.startTimeSeconds === sim.startTimeSeconds] *)
Definition sameStart (sim : SimSession) (r : CFRanklistRow) : bool :=
  match CFRanklistRow.party r ≫= CFParty.startTimeSeconds with
  | Some t => t =? SimSession.startTimeSeconds sim
  | None => false
  end.

Definition findTeamRow (sim : SimSession) (rows : list CFRanklistRow)
  : option CFRanklistRow :=
  JS.orElse (JS.find (fun r => sameStart sim r && byMember sim r) rows)
            (JS.find (byMember sim) rows).

Definition countSolved (teamRow : CFRanklistRow) : Z :=
  Z.of_nat (length (List.filter
    (fun p => default 0 (CFProblemResult.points p) >? 0)
    (default [] (CFRanklistRow.problemResults teamRow)))).

Definition entryOf (data : CFStandingsResponse) (rows : list CFRanklistRow)
    (teamRow : CFRanklistRow) : StandingsEntry :=
  let solved := countSolved teamRow in
  let lastRank := default (Z.of_nat (length rows)) (CFRanklistRow.rank <$> last rows) in
  let total := if Z.of_nat (length rows) <? CAP then Some lastRank else None in
  {| StandingsEntry.rank := CFRanklistRow.rank teamRow;
     StandingsEntry.total := total;
     StandingsEntry.solved := solved;
     StandingsEntry.totalProblems :=
       Z.of_nat (length (default [] (CFStandingsResponse.problems data))) |}.

(** The body of [for (const sim of top)] with its [try]/[catch]: [call] is
    the number of standings requests made so far. *)
Definition resolveStandings (cf : CFApi) (call : nat) (sim : SimSession)
    (standingsCache : gmap string StandingsEntry) : gmap string StandingsEntry :=
  match getContestStandings cf call (SimSession.contestId sim) 1 CAP [] true with
  | Ok data =>
      let rows := default [] (CFStandingsResponse.rows data) in
      match findTeamRow sim rows with
      | Some teamRow =>
          <[sessionKey (SimSession.contestId sim) (SimSession.startTimeSeconds sim)
            := entryOf data rows teamRow]> standingsCache
      | None => standingsCache
      end
  | Throw _ => standingsCache
  end.

Fixpoint resolveAll (cf : CFApi) (call : nat) (top : list SimSession)
    (standingsCache : gmap string StandingsEntry) : gmap string StandingsEntry :=
  match top with
  | [] => standingsCache
  | sim :: top' => resolveAll cf (S call) top' (resolveStandings cf call sim standingsCache)
  end.

(** *** Stage F: shaping *)

(** [diff ? '★'.repeat(diff) + '☆'.repeat(5 - diff) : null] *)
Definition stars (diff : option Z) : Result (option string) :=
  match diff with
  | None => Ok None
  | Some d =>
      if d =? 0 then Ok None
      else
        let* filled := JS.repeat "★" d in
        let* hollow := JS.repeat "☆" (5 - d) in
        Ok (Some (filled +:+ hollow))
  end.

(** [gym?.durationSeconds ? Math.round(gym.durationSeconds / 3600) : null] *)
Definition hours (gym : option CFContest) : option Z :=
  match gym with
  | Some g =>
      if CFContest.durationSeconds g =? 0 then None
      else Some (JS.roundDiv (CFContest.durationSeconds g) 3600)
  | None => None
  end.

(** [new Date(t * 1000).toISOString().slice(0, 16).replace('T', ' ') + ' UTC'] *)
Definition formatSimulatedAt (t : Z) : Result string :=
  let* iso := JS.toISOString (t * 1000) in
  Ok (JS.replaceFirst "T" " " (String.substring 0 16 iso) +:+ " UTC").

(** The callback of [top.map(sim => ...)]. *)
Definition shape (handle : string) (gymMap : gmap Z CFContest)
    (standingsCache : gmap string StandingsEntry) (sim : SimSession)
  : Result GymResult :=
  let st := standingsCache !!
    sessionKey (SimSession.contestId sim) (SimSession.startTimeSeconds sim) in
  let rankStr := (fun e => JS.num (StandingsEntry.rank e)) <$> st in
  let gym := gymMap !! SimSession.contestId sim in
  let diff := gym ≫= CFContest.difficulty in
  let* difficulty := stars diff in
  let* simulatedAt := formatSimulatedAt (SimSession.startTimeSeconds sim) in
  Ok {| GymResult.name :=
          default ("Gym #" +:+ JS.num (SimSession.contestId sim)) (CFContest.name <$> gym);
        GymResult.link :=
          "https://codeforces.com/gym/" +:+ JS.num (SimSession.contestId sim) +:+ "/standings";
        GymResult.difficulty := difficulty;
        GymResult.durationHours := hours gym;
        GymResult.simulatedAt := simulatedAt;
        GymResult.teamName := SimSession.teamName sim;
        GymResult.members :=
          if (length (SimSession.members sim) =? 0)%nat then [handle]
          else SimSession.members sim;
        GymResult.rank := rankStr;
        GymResult.solved :=
          (fun e => JS.num (StandingsEntry.solved e) +:+ "/" +:+
                    JS.num (StandingsEntry.totalProblems e)) <$> st |}.

(** *** The whole request; [limit] is [None] when the caller omits it. *)
Definition getGymSimulations (cf : CFApi) (handle : string) (limit : option Z)
  : Result GymSimulationsResult :=
  let limit := default 10 limit in
  let* sessions := scanPages cf handle limit maxPages 1 JSMap.empty in
  if JSMap.size sessions =? 0
  then Ok {| GymSimulationsResult.handle := handle; GymSimulationsResult.gyms := [] |}
  else
    let top := selectTop sessions limit in
    let topIds : gset Z := list_to_set (map SimSession.contestId top) in
    let* gymList := getContestList cf true in
    let gymMap := buildGymMap topIds gymList in
    let standingsCache := resolveAll cf 0 top ∅ in
    let* gyms := mapR (shape handle gymMap standingsCache) top in
    Ok {| GymSimulationsResult.handle := handle; GymSimulationsResult.gyms := gyms |}.

End Resolver.

(** ** The fixtures of the test suite ([tests/fixtures/cf-responses.js]) *)

Module Fixtures.

Definition T1 : Z := 1771797960.
Definition T2 : Z := T1 - 7 * 24 * 3600.

Definition team : option (list CFMember) :=
  Some [CFMember.mk "automac"; CFMember.mk "elpepe123"; CFMember.mk "juancs"].

Definition sub (contestId creation : Z) (pt : ParticipantType) (start : Z)
    (teamName : option string) (members : option (list CFMember)) : CFSubmission :=
  CFSubmission.mk (Some contestId) creation
    (Some (CFParty.mk members pt teamName (Some start))).

Definition SUBS_ONE_SIM : list CFSubmission :=
  [ sub 105789 (T1 + 100) VIRTUAL T1 (Some "Que bendición") team;
    sub 105789 (T1 + 200) VIRTUAL T1 (Some "Que bendición") team;
    sub 105789 (T1 + 9999) PRACTICE (T1 + 9999) None (Some [CFMember.mk "automac"]);
    sub 2172 (T1 + 1000) VIRTUAL (T1 + 1000) None (Some [CFMember.mk "automac"]) ].

Definition SUBS_TWO_SIMS : list CFSubmission :=
  [ sub 105789 (T1 + 100) VIRTUAL T1 (Some "Que bendición") team;
    sub 106193 (T2 + 100) VIRTUAL T2 (Some "Que bendición") team ].

Definition GYM_LIST : list CFContest :=
  [ CFContest.mk 105789 "The 2025 ICPC Latin America Championship" 18000 (Some 3);
    CFContest.mk 106193 "2025-2026 ICPC NERC (NEERC), Northern Subregionals" 18000 (Some 2) ].

Definition twelve : option (list CFProblem) :=
  Some (map (fun _ => CFProblem.mk "A") (seq 0 12)).

Definition solvedFirst (k : nat) : option (list CFProblemResult) :=
  Some (map (fun i => CFProblemResult.mk (Some (if (i <? k)%nat then 1 else 0))) (seq 0 12)).

Definition row (rank start : Z) (handles : list string)
    (results : option (list CFProblemResult)) : CFRanklistRow :=
  CFRanklistRow.mk
    (Some (CFParty.mk (Some (map CFMember.mk handles)) VIRTUAL None (Some start)))
    rank results.

Definition STANDINGS_105789 : CFStandingsResponse :=
  CFStandingsResponse.mk twelve
    (Some [ row 120 T1 ["user_x"; "user_y"] (solvedFirst 7);
            row 177 T1 ["automac"; "elpepe123"; "juancs"] (solvedFirst 6);
            row 350 (T1 - 999) ["last_team"] (Some []) ]).

Definition STANDINGS_106193 : CFStandingsResponse :=
  CFStandingsResponse.mk twelve
    (Some [ row 183 T2 ["automac"; "elpepe123"; "juancs"] (solvedFirst 6);
            row 400 (T2 - 100) ["other"] (Some []) ]).

(** [mockResolvedValue]: every call resolves to the same value. *)
Definition mock (subs : list CFSubmission) (gymList : list CFContest)
    (standings : nat -> Result CFStandingsResponse) : CFApi :=
  {| getUserSubmissions := fun _ _ _ => Ok subs;
     getContestList := fun _ => Ok gymList;
     getContestStandings := fun call _ _ _ _ _ => standings call |}.

Definition happyPath : CFApi :=
  mock SUBS_ONE_SIM GYM_LIST (fun _ => Ok STANDINGS_105789).

End Fixtures.

(** ** Conversation history: [trimHistory] *)

Inductive Role := user | assistant.

Definition Role_eqb (a b : Role) : bool :=
  match a, b with
  | user, user | assistant, assistant => true
  | _, _ => false
  end.

Module ConversationMessage.
Record t := mk { role : Role; content : string }.
End ConversationMessage.
Abbreviation ConversationMessage := ConversationMessage.t.

(** Messages are objects: the array holds references, and [!==] in
    [trimHistory] compares references.  [ref] is the address of a message
    object and the heap maps addresses to the objects. *)
Definition ref := nat.
Definition Heap := ref -> ConversationMessage.

Module History.

Definition MAX_HISTORY_TURNS : nat := 4.

(** The [for (let i = 0; i < msgs.length - 1; i += 2)] loop: it looks at
    [msgs[i]] and [msgs[i + 1]] for even [i] while both exist. *)
Fixpoint pairsOf (heap : Heap) (msgs : list ref) : list (ref * ref) :=
  match msgs with
  | u :: a :: rest =>
      (if Role_eqb (ConversationMessage.role (heap u)) user
          && Role_eqb (ConversationMessage.role (heap a)) assistant
       then [(u, a)] else [])
      ++ pairsOf heap rest
  | _ => []
  end.

(** [pairs.flat()] *)
Definition flat (pairs : list (ref * ref)) : list ref :=
  concat (map (fun p => [fst p; snd p]) pairs).

(** An element of the result is [None] when it is [undefined], which is
    what [msgs[msgs.length - 1]] is for an empty array. *)
Definition trimHistory (heap : Heap) (msgs : list ref) : list (option ref) :=
  let pairs := pairsOf heap msgs in
  let lastMsg := last msgs in
  let recentPairs := JS.sliceLast MAX_HISTORY_TURNS pairs in
  let trimmed := map Some (flat recentPairs) in
  if (length trimmed =? 0)%nat || negb (bool_decide (last trimmed = Some lastMsg))
  then trimmed ++ [lastMsg]
  else trimmed.

End History.

(** ** The agent loop: [streamAgent] and its [streamEventsWithRetry] *)

Module Agent.

(** [SSEEvent] of [src/types.ts]. *)
Inductive SSEEvent :=
| text (content : string)
| tool_call (name : string)
| tool_result (name : string) (success : bool) (error : option string)
| retrying (waitSeconds : Z)
| done
| error (message : option string).

(** What a run does to the outside, in order: a [res.write] of one event,
    a [setTimeout] wait, a [console.error]. *)
Inductive Effect :=
| Write (event : SSEEvent)
| Sleep (milliseconds : Z)
| ConsoleError (e : JsError).

(** The raw stream events the loop distinguishes. *)
Inductive ContentBlock :=
| tool_use (id name : string)
| other_block.

Inductive Delta :=
| text_delta (text : string)
| input_json_delta (partial_json : string)
| other_delta.

Inductive RawEvent :=
| content_block_start (content_block : ContentBlock)
| content_block_delta (delta : Delta)
| content_block_stop
| message_delta (stop_reason : option string)
| other_event.

(** A tool input: [{}] or the value parsed from a JSON text. *)
Inductive Json :=
| emptyObject
| parsed (source : string).

Module ToolUse.
Record t := mk { id : string; name : string; input : Json }.
End ToolUse.
Abbreviation ToolUse := ToolUse.t.

Module ToolResultBlock.
Record t := mk { tool_use_id : string; content : string; is_error : bool }.
End ToolResultBlock.
Abbreviation ToolResultBlock := ToolResultBlock.t.

Inductive MessageContent :=
| plain (s : string)
| blocks (assistantContent : string)
| toolResults (results : list ToolResultBlock).

Module MessageParam.
Record t := mk { role : Role; content : MessageContent }.
End MessageParam.
Abbreviation MessageParam := MessageParam.t.

Module Params.
Record t := mk { model : string; max_tokens : Z; messages : list MessageParam }.
End Params.
Abbreviation Params := Params.t.

(** One [client.messages.stream(params)] iterated to its end: the events it
    delivers, then either normal completion or a thrown error. *)
Record Attempt := {
  events : list RawEvent;
  failure : option JsError;
}.

(** Everything outside the loop.  Streams are numbered in the order in which
    they are opened; tool executions likewise. *)
Record World := {
  stream : nat -> Params -> Attempt;
  finalMessage : nat -> Result string;
  JSON_valid : string -> bool;
  runTool : nat -> string -> Json -> Result string;
}.

Definition toolNames : list string :=
  [ "get_user_info"; "get_user_rating"; "get_user_submissions"; "get_contest_list";
    "get_contest_standings"; "get_contest_status"; "get_contest_rating_changes";
    "get_problems"; "get_recent_actions"; "get_rated_list"; "get_gym_simulations" ].

(** [executeTool] seen from the loop: the [switch] on the tool name; the
    data requests behind a known name are part of the [World]. *)
Definition executeTool (w : World) (n : nat) (name : string) (input : Json)
  : Result string :=
  if bool_decide (name ∈ toolNames) then runTool w n name input
  else Throw (mkError None (Some ("Unknown tool: " +:+ name))).

(** *** [streamEventsWithRetry] *)

(** [e?.status === 429 || e?.message?.includes('rate_limit')] *)
Definition is429 (e : JsError) : bool :=
  match status e with
  | Some s => s =? 429
  | None => false
  end
  || match message e with
     | Some m => JS.includes "rate_limit" m
     | None => false
     end.

(** [Math.min(60, 15 * (attempt + 1))] *)
Definition waitSecondsFor (attempt : nat) : Z :=
  Z.min 60 (15 * (Z.of_nat attempt + 1)).

(** What the generator does, in order: hand an event to its consumer, or
    act on the outside itself. *)
Inductive GenStep :=
| Yield (event : RawEvent) (stream : nat)
| Emit (e : Effect).

Record GenRun := {
  steps : list GenStep;
  outcome : Result unit;
  opened : nat;
}.

(** The [for (let attempt = 0; attempt <= maxRetries; attempt++)] loop with
    [remaining] iterations to go; [opened] counts the streams opened. *)
Fixpoint retryLoop (open : nat -> Attempt) (maxRetries : nat)
    (remaining attempt call : nat) : GenRun :=
  match remaining with
  | O => {| steps := []; outcome := Ok tt; opened := O |}
  | S remaining' =>
      let a := open call in
      let yielded := map (fun e => Yield e call) (events a) in
      match failure a with
      | None => {| steps := yielded; outcome := Ok tt; opened := 1 |}
      | Some err =>
          if is429 err && (attempt <? maxRetries)%nat then
            let waitSeconds := waitSecondsFor attempt in
            let rest := retryLoop open maxRetries remaining' (S attempt) (S call) in
            {| steps := yielded
                        ++ [Emit (Write (retrying waitSeconds));
                            Emit (Sleep (waitSeconds * 1000))]
                        ++ steps rest;
               outcome := outcome rest;
               opened := S (opened rest) |}
          else {| steps := yielded; outcome := Throw err; opened := 1 |}
      end
  end.

(** [open call] is the stream opened by the [call]-th use of
    [client.messages.stream]; [first] is the number of streams opened before. *)
Definition streamEventsWithRetry (open : nat -> Attempt) (first : nat)
    (maxRetries : option nat) : GenRun :=
  let maxRetries := default 3%nat maxRetries in
  retryLoop open maxRetries (S maxRetries) 0 first.

(** *** One turn of the [while (continueLoop)] loop *)

Record TurnState := {
  toolUseBlocks : list ToolUse;
  currentToolUse : option ToolUse;
  inputJsonBuffer : string;
  stopReason : option string;
  lastStream : option nat;
}.

Definition turnStart : TurnState :=
  {| toolUseBlocks := []; currentToolUse := None; inputJsonBuffer := EmptyString;
     stopReason := None; lastStream := None |}.

(** [inputJsonBuffer ? JSON.parse(inputJsonBuffer) : {}], and [{}] when
    [JSON.parse] throws. *)
Definition parseInput (w : World) (inputJsonBuffer : string) : Json :=
  if String.eqb inputJsonBuffer EmptyString then emptyObject
  else if JSON_valid w inputJsonBuffer then parsed inputJsonBuffer
  else emptyObject.

(** The body of [for await (const { event, stream } of ...)]: the new
    state and what it writes. *)
Definition onYield (w : World) (ts : TurnState) (event : RawEvent) (stream : nat)
  : TurnState * list Effect :=
  let blocks := toolUseBlocks ts in
  let cur := currentToolUse ts in
  let buf := inputJsonBuffer ts in
  let stop := stopReason ts in
  let lastStream := Some stream in
  match event with
  | content_block_start (tool_use id name) =>
      ({| toolUseBlocks := blocks;
          currentToolUse := Some (ToolUse.mk id name emptyObject);
          inputJsonBuffer := EmptyString; stopReason := stop; lastStream := lastStream |},
       [Write (tool_call name)])
  | content_block_delta (text_delta content) =>
      ({| toolUseBlocks := blocks; currentToolUse := cur; inputJsonBuffer := buf;
          stopReason := stop; lastStream := lastStream |},
       [Write (text content)])
  | content_block_delta (input_json_delta partial_json) =>
      ({| toolUseBlocks := blocks; currentToolUse := cur;
          inputJsonBuffer := buf +:+ partial_json;
          stopReason := stop; lastStream := lastStream |}, [])
  | content_block_stop =>
      match cur with
      | Some c =>
          ({| toolUseBlocks :=
                blocks ++ [ToolUse.mk (ToolUse.id c) (ToolUse.name c) (parseInput w buf)];
              currentToolUse := None; inputJsonBuffer := EmptyString;
              stopReason := stop; lastStream := lastStream |}, [])
      | None =>
          ({| toolUseBlocks := blocks; currentToolUse := cur; inputJsonBuffer := buf;
              stopReason := stop; lastStream := lastStream |}, [])
      end
  | message_delta stop_reason =>
      ({| toolUseBlocks := blocks; currentToolUse := cur; inputJsonBuffer := buf;
          stopReason := stop_reason; lastStream := lastStream |}, [])
  | content_block_start other_block
  | content_block_delta other_delta
  | other_event =>
      ({| toolUseBlocks := blocks; currentToolUse := cur; inputJsonBuffer := buf;
          stopReason := stop; lastStream := lastStream |}, [])
  end.

(** The consumer driving the generator: yielded events go through the loop
    body, the generator's own effects happen in between. *)
Fixpoint consume (w : World) (ts : TurnState) (steps : list GenStep)
  : TurnState * list Effect :=
  match steps with
  | [] => (ts, [])
  | Yield event stream :: steps' =>
      let '(ts1, out) := onYield w ts event stream in
      let '(ts2, out') := consume w ts1 steps' in
      (ts2, out ++ out')
  | Emit e :: steps' =>
      let '(ts2, out') := consume w ts steps' in
      (ts2, e :: out')
  end.

(** [for (const tool of toolUseBlocks)] with its [try]/[catch]; [n] tools
    have been executed before. *)
Fixpoint runTools (w : World) (n : nat) (tools : list ToolUse)
  : list Effect * list ToolResultBlock :=
  match tools with
  | [] => ([], [])
  | tool :: tools' =>
      let '(out, results) := runTools w (S n) tools' in
      match executeTool w n (ToolUse.name tool) (ToolUse.input tool) with
      | Ok result =>
          (Write (tool_result (ToolUse.name tool) true None) :: out,
           ToolResultBlock.mk (ToolUse.id tool) result false :: results)
      | Throw e =>
          (Write (tool_result (ToolUse.name tool) false (message e)) :: out,
           ToolResultBlock.mk (ToolUse.id tool)
             ("Error: " +:+ default "undefined" (message e)) true :: results)
      end
  end.

Record AgentState := {
  anthropicMessages : list MessageParam;
  streamsOpened : nat;
  toolsRun : nat;
  trace : list Effect;
}.

(** One iteration of the [while]: the state after it, and either the new
    value of [continueLoop] or the exception that left the iteration. *)
Definition turn (w : World) (model : string) (st : AgentState)
  : AgentState * Result bool :=
  let params := Params.mk model 4096 (anthropicMessages st) in
  let run := streamEventsWithRetry (fun call => stream w call params)
                                   (streamsOpened st) None in
  let '(ts, out) := consume w turnStart (steps run) in
  let failed e :=
    ({| anthropicMessages := anthropicMessages st;
        streamsOpened := (streamsOpened st + opened run)%nat;
        toolsRun := toolsRun st;
        trace := trace st ++ out |}, Throw e) in
  match outcome run with
  | Throw e => failed e
  | Ok _ =>
      match lastStream ts with
      | None => failed (TypeError "Cannot read properties of null (reading 'finalMessage')")
      | Some s =>
          match finalMessage w s with
          | Throw e => failed e
          | Ok content =>
              let messages :=
                anthropicMessages st ++ [MessageParam.mk assistant (blocks content)] in
              if bool_decide (stopReason ts = Some "tool_use")
                 && (0 <? length (toolUseBlocks ts))%nat
              then
                let '(out', results) := runTools w (toolsRun st) (toolUseBlocks ts) in
                ({| anthropicMessages :=
                      messages ++ [MessageParam.mk user (toolResults results)];
                    streamsOpened := (streamsOpened st + opened run)%nat;
                    toolsRun := (toolsRun st + length (toolUseBlocks ts))%nat;
                    trace := trace st ++ out ++ out' |}, Ok true)
              else
                ({| anthropicMessages := messages;
                    streamsOpened := (streamsOpened st + opened run)%nat;
                    toolsRun := toolsRun st;
                    trace := trace st ++ out |}, Ok false)
          end
      end
  end.

(** [while (continueLoop)], at most [fuel] iterations: [None] when the
    loop is still running after them. *)
Fixpoint agentLoop (w : World) (model : string) (fuel : nat) (st : AgentState)
  : option (AgentState * Result unit) :=
  match fuel with
  | O => None
  | S fuel' =>
      match turn w model st with
      | (st', Throw e) => Some (st', Throw e)
      | (st', Ok true) => agentLoop w model fuel' st'
      | (st', Ok false) => Some (st', Ok tt)
      end
  end.

(** [trimHistory(messages).map(m => ({ role: m.role, content: m.content }))]:
    reading a property of [undefined] throws. *)
Definition toAnthropic (heap : Heap) (m : option ref) : Result MessageParam :=
  match m with
  | Some r =>
      Ok (MessageParam.mk (ConversationMessage.role (heap r))
                          (plain (ConversationMessage.content (heap r))))
  | None => Throw (TypeError "Cannot read properties of undefined (reading 'role')")
  end.

(** [streamAgent(messages, res, model)]: everything done to the outside, in
    order, and whether the returned promise resolves ([Ok]) or rejects.
    [None] when the [while] loop needs more than [fuel] iterations. *)
Definition streamAgent (w : World) (heap : Heap) (messages : list ref)
    (model : option string) (fuel : nat) : option (list Effect * Result unit) :=
  let model := default "claude-haiku-4-5-20251001" model in
  match mapR (toAnthropic heap) (History.trimHistory heap messages) with
  | Throw e => Some ([], Throw e)
  | Ok anthropicMessages =>
      match agentLoop w model fuel
              {| anthropicMessages := anthropicMessages; streamsOpened := 0;
                 toolsRun := 0; trace := [] |} with
      | None => None
      | Some (st, Ok _) => Some (trace st ++ [Write done], Ok tt)
      | Some (st, Throw e) =>
          Some (trace st ++ [ConsoleError e; Write (error (message e)); Write done], Ok tt)
      end
  end.

(** The events written to [res], in order. *)
Definition written (t : list Effect) : list SSEEvent :=
  omap (fun e => match e with Write ev => Some ev | _ => None end) t.

Definition isDone (e : SSEEvent) : bool :=
  match e with
  | done => true
  | _ => false
  end.

End Agent.

(** ** Predicates used to state the properties *)

(** No character of [s] is the separator ["_"] of a session key. *)
Fixpoint sepFree (s : string) : Prop :=
  match s with
  | EmptyString => True
  | String c s' => c <> "_"%char /\ sepFree s'
  end.

(** A submission the scan does not skip. *)
Definition candidate (s : CFSubmission) : bool :=
  Resolver.isGym s && Resolver.isVirtual s.

(** The key the scan computes for a submission, and the key of a session. *)
Definition keyOf (s : CFSubmission) : string :=
  Resolver.sessionKey (default 0 (CFSubmission.contestId s)) (Resolver.startTime s).

Definition keyOfSession (sim : SimSession) : string :=
  Resolver.sessionKey (SimSession.contestId sim) (SimSession.startTimeSeconds sim).

(** Every entry of the map sits under the key of its own session. *)
Definition keyed (sessions : JSMap.t SimSession) : Prop :=
  Forall (fun kv => fst kv = keyOfSession (snd kv)) sessions.

(** A gym contest entered as a full virtual simulation. *)
Definition gymVirtual (s : CFSubmission) : Prop :=
  (exists c, CFSubmission.contestId s = Some c /\ 100000 < c) /\
  (exists a, CFSubmission.author s = Some a /\ CFParty.participantType a = VIRTUAL).

(** The identity [(contestId, startTimeSeconds)] of a submission's session
    and of a stored session. *)
Definition idOf (s : CFSubmission) : Z * Z :=
  (default 0 (CFSubmission.contestId s), Resolver.startTime s).

Definition idOfSession (sim : SimSession) : Z * Z :=
  (SimSession.contestId sim, SimSession.startTimeSeconds sim).

Definition sameId (id : Z * Z) (s : CFSubmission) : bool :=
  candidate s && bool_decide (idOf s = id).

(** The two keys of the standings match, in the words of the specification:
    the row's party started when the session did, and some handle of the
    row's party is a member of the session. *)
Definition startsWith (sim : SimSession) (r : CFRanklistRow) : Prop :=
  exists p, CFRanklistRow.party r = Some p /\
            CFParty.startTimeSeconds p = Some (SimSession.startTimeSeconds sim).

Definition sharesMember (sim : SimSession) (r : CFRanklistRow) : Prop :=
  exists p ms m, CFRanklistRow.party r = Some p /\ CFParty.members p = Some ms /\
                 m ∈ ms /\ CFMember.handle m ∈ SimSession.members sim.

(** [r] is the first element of [l] that satisfies [P]. *)
Definition firstSuch {A} (P : A -> Prop) (l : list A) (r : A) : Prop :=
  exists pre post, l = pre ++ r :: post /\ P r /\ Forall (fun x => ~ P x) pre.

(** What one iteration of the standings loop finds for a session: the entry
    it would cache, if any. *)
Definition standingsFor (cf : CFApi) (call : nat) (sim : SimSession)
  : option StandingsEntry :=
  match getContestStandings cf call (SimSession.contestId sim) 1 Resolver.CAP [] true with
  | Ok data =>
      let rows := default [] (CFStandingsResponse.rows data) in
      Resolver.entryOf data rows <$> Resolver.findTeamRow sim rows
  | Throw _ => None
  end.

(** The [rank] and [solved] strings of a result, from a cache entry. *)
Definition rankOf (st : option StandingsEntry) : option string :=
  (fun e => JS.num (StandingsEntry.rank e)) <$> st.

Definition solvedOf (st : option StandingsEntry) : option string :=
  (fun e => JS.num (StandingsEntry.solved e) +:+ "/" +:+
            JS.num (StandingsEntry.totalProblems e)) <$> st.

(** A result with its [rank] and [solved] replaced. *)
Definition withStandings (st : option StandingsEntry) (g : GymResult) : GymResult :=
  {| GymResult.name := GymResult.name g;
     GymResult.link := GymResult.link g;
     GymResult.difficulty := GymResult.difficulty g;
     GymResult.durationHours := GymResult.durationHours g;
     GymResult.simulatedAt := GymResult.simulatedAt g;
     GymResult.teamName := GymResult.teamName g;
     GymResult.members := GymResult.members g;
     GymResult.rank := rankOf st;
     GymResult.solved := solvedOf st |}.

(** The catalogue carries difficulties on the documented scale, and the
    sessions carry times a [Date] can hold: what shaping needs in order not
    to raise [RangeError]. *)
Definition catalogOk (gymList : list CFContest) : Prop :=
  Forall (fun g => match CFContest.difficulty g with
                   | Some d => 0 <= d <= 5
                   | None => True
                   end) gymList.

Definition timesOk (top : list SimSession) : Prop :=
  Forall (fun sim => Z.abs (SimSession.startTimeSeconds sim * 1000) <= 8640000000000000) top.

(** The oracle [cf] with its standings request number [i] rejecting. *)
Definition failingAt (cf : CFApi) (i : nat) (e : JsError) : CFApi :=
  {| getUserSubmissions := getUserSubmissions cf;
     getContestList := getContestList cf;
     getContestStandings := fun call contestId from count handles showUnofficial =>
       if (call =? i)%nat then Throw e
       else getContestStandings cf call contestId from count handles showUnofficial |}.

(** Further fixtures: the session map that the happy-path scan builds, the
    two-session run of the test suite, and two sessions of different gyms
    started in the same second. *)
Module Runs.
Import Fixtures.

Definition ourSession (contestId start : Z) : SimSession :=
  {| SimSession.contestId := contestId;
     SimSession.startTimeSeconds := start;
     SimSession.teamName := Some "Que bendición";
     SimSession.members := ["automac"; "elpepe123"; "juancs"] |}.

Definition oneSession : JSMap.t SimSession :=
  [("105789_1771797960", ourSession 105789 T1)].

Definition twoSessions : JSMap.t SimSession :=
  [("105789_1771797960", ourSession 105789 T1);
   ("106193_1771193160", ourSession 106193 T2)].

Definition twoSims : CFApi :=
  mock SUBS_TWO_SIMS GYM_LIST
    (fun call => Ok (if (call =? 0)%nat then STANDINGS_105789 else STANDINGS_106193)).

Definition SUBS_TIED : list CFSubmission :=
  [ sub 105789 (T1 + 100) VIRTUAL T1 (Some "Que bendición") team;
    sub 106193 (T1 + 50) VIRTUAL T1 (Some "Que bendición") team ].

Definition tiedSessions : JSMap.t SimSession :=
  [("105789_1771797960", ourSession 105789 T1);
   ("106193_1771797960", ourSession 106193 T1)].

Definition tied : CFApi :=
  mock SUBS_TIED GYM_LIST (fun _ => Throw (mkError None (Some "CF API error"))).
End Runs.

(** A session without member handles, as in the test of the [members]
    fallback. *)
Module Solo.
Import Fixtures.

Definition SUBS_SOLO : list CFSubmission :=
  [ CFSubmission.mk (Some 105789) T1 (Some (CFParty.mk (Some []) VIRTUAL None (Some T1))) ].

Definition solo : CFApi := mock SUBS_SOLO GYM_LIST (fun _ => Ok STANDINGS_105789).
End Solo.

(** A conversation of five answered turns and a sixth question: message
    [r] is the user's when [r] is even. *)
Module Chat.
Definition heap : Heap := fun r =>
  if Nat.even r then ConversationMessage.mk user "question"
  else ConversationMessage.mk assistant "answer".

Definition messages : list ref := seq 0 11.
End Chat.

(** What attempt number [k] of a run of [n] attempts contributes to the
    generator's steps, when the run starts at loop index [attempt] with
    stream number [call]: the attempt's events, then the retry notice and
    the wait unless it is the last attempt. *)
Definition attemptSteps (open : nat -> Agent.Attempt) (call attempt n k : nat)
  : list Agent.GenStep :=
  map (fun e => Agent.Yield e (call + k)%nat) (Agent.events (open (call + k)%nat))
  ++ (if (S k <? n)%nat
      then [Agent.Emit (Agent.Write (Agent.retrying (Agent.waitSecondsFor (attempt + k))));
            Agent.Emit (Agent.Sleep (Agent.waitSecondsFor (attempt + k) * 1000))]
      else []).

(** An effect other than writing one of the two closing events. *)
Definition nonTerminal (e : Agent.Effect) : Prop :=
  match e with
  | Agent.Write Agent.done | Agent.Write (Agent.error _) => False
  | _ => True
  end.

Definition quietStep (s : Agent.GenStep) : Prop :=
  match s with
  | Agent.Emit e => nonTerminal e
  | Agent.Yield _ _ => True
  end.

(** Model-provider scripts: a stream that answers with one text fragment,
    and one that fails with a rate-limit error. *)
Module Talk.
Import Agent.

Definition rateLimited : JsError := mkError (Some 429) (Some "rate_limit_error").

Definition answer : Attempt :=
  {| events := [content_block_delta (text_delta "hi"); message_delta (Some "end_turn")];
     failure := None |}.

Definition busy : Attempt := {| events := []; failure := Some rateLimited |}.

Definition world (open : nat -> Attempt) : World :=
  {| stream := fun call _ => open call;
     finalMessage := fun _ => Ok "hi";
     JSON_valid := fun _ => true;
     runTool := fun _ _ _ => Ok "{}" |}.

Definition busyTwice (call : nat) : Attempt :=
  if (call <? 2)%nat then busy else answer.
End Talk.

(** The results of a request that returned; none when it did not. *)
Definition gymsOf (r : Result GymSimulationsResult) : list GymResult :=
  match r with
  | Ok res => GymSimulationsResult.gyms res
  | Throw _ => []
  end.

(** ** Further fixtures *)

(** A client whose submission pages are always full of upsolving records,
    and a client that answers like the happy path for the first twenty pages
    and fails afterwards. *)
Module Pages.
Import Fixtures.

Definition upsolving : CFSubmission :=
  sub 105789 (T1 + 9999) PRACTICE (T1 + 9999) None (Some [CFMember.mk "automac"]).

Definition fullPage : list CFSubmission := replicate 100 upsolving.

Definition endless : CFApi :=
  mock fullPage GYM_LIST (fun _ => Ok STANDINGS_105789).

Definition failsLate : CFApi :=
  {| getUserSubmissions := fun _ _ from =>
       if from <? 2000 then Ok SUBS_ONE_SIM
       else Throw (mkError None (Some "Codeforces API error: Call limit exceeded"));
     getContestList := fun _ => Ok GYM_LIST;
     getContestStandings := fun _ _ _ _ _ _ => Ok STANDINGS_105789 |}.

Definition failsOnSecondPage : CFApi :=
  {| getUserSubmissions := fun _ _ from =>
       if from =? 1 then Ok fullPage
       else Throw (mkError None (Some "Codeforces API error: Call limit exceeded"));
     getContestList := fun _ => Ok GYM_LIST;
     getContestStandings := fun _ _ _ _ _ _ => Ok STANDINGS_105789 |}.

Definition noCatalogue : CFApi :=
  {| getUserSubmissions := fun _ _ _ => Ok SUBS_ONE_SIM;
     getContestList := fun _ =>
       Throw (mkError None (Some "Codeforces API error: Call limit exceeded"));
     getContestStandings := fun _ _ _ _ _ _ => Ok STANDINGS_105789 |}.
End Pages.

(** The last entry of the catalogue with a given contest id. *)
Definition lastEntry (contestId : Z) (gymList : list CFContest) : option CFContest :=
  last (List.filter (fun g => CFContest.id g =? contestId) gymList).

(** A catalogue that lists gym 105789 with a difficulty off the scale. *)
Module OffScale.
Import Fixtures.

Definition catalogue : list CFContest := [CFContest.mk 105789 "Test Gym" 18000 (Some 6)].

Definition client : CFApi := mock SUBS_ONE_SIM catalogue (fun _ => Ok STANDINGS_105789).
End OffScale.

(** A conversation that starts with the user and alternates strictly. *)
Definition alternating (heap : Heap) (msgs : list ref) : Prop :=
  forall i r, msgs !! i = Some r ->
    ConversationMessage.role (heap r) = if Nat.even i then user else assistant.

(** ** What a turn reads and writes *)

(** The text fragment a raw event carries, and the fragments written to
    the client by a run. *)
Definition textOf (e : Agent.RawEvent) : option string :=
  match e with
  | Agent.content_block_delta (Agent.text_delta content) => Some content
  | _ => None
  end.

Definition textsWritten (t : list Agent.Effect) : list string :=
  omap (fun e => match e with
                 | Agent.Write (Agent.text content) => Some content
                 | _ => None
                 end) t.

(** The events of one complete tool-use block: its start, the fragments
    of its JSON input, its stop. *)
Definition toolBlockEvents (id name : string) (fragments : list string)
  : list Agent.RawEvent :=
  Agent.content_block_start (Agent.tool_use id name)
  :: map (fun f => Agent.content_block_delta (Agent.input_json_delta f)) fragments
  ++ [Agent.content_block_stop].

(** [fragments.join('')] *)
Definition joined (fragments : list string) : string :=
  foldr String.append EmptyString fragments.

(** The messages the loop appends to the conversation: assistant replies,
    each but possibly the last followed by a user message of tool results. *)
Fixpoint repliesAndResults (added : list Agent.MessageParam) : Prop :=
  match added with
  | [] => True
  | a :: rest =>
      Agent.MessageParam.role a = assistant
      /\ (exists content, Agent.MessageParam.content a = Agent.blocks content)
      /\ match rest with
         | [] => True
         | u :: rest' =>
             Agent.MessageParam.role u = user
             /\ (exists results, Agent.MessageParam.content u = Agent.toolResults results)
             /\ repliesAndResults rest'
         end
  end.

(** A model that asks for a tool the agent does not have. *)
Module Unicorns.
Import Agent.

Definition asks : Attempt :=
  {| events := toolBlockEvents "toolu_01" "get_unicorns" ["{"; "}"]
               ++ [message_delta (Some "tool_use")];
     failure := None |}.

Definition world : World :=
  {| stream := fun call _ => if (call =? 0)%nat then asks else Talk.answer;
     finalMessage := fun _ => Ok "reply";
     JSON_valid := fun _ => true;
     runTool := fun _ _ _ => Ok "[]" |}.

Definition start : AgentState :=
  {| anthropicMessages := [MessageParam.mk user (plain "question")];
     streamsOpened := 0; toolsRun := 0; trace := [] |}.
End Unicorns.

(** A model whose stream ends without a single event. *)
Module Silent.
Import Agent.

Definition nothing : Attempt := {| events := []; failure := None |}.

Definition world : World := Talk.world (fun _ => nothing).
End Silent.

(** ** The problem set trimmer: [trimProblems] *)

(** [CFProblem], [CFProblemStatistics] and [CFProblemsResponse] of
    [src/types.ts] with the fields [trimProblems] reads, and the object it
    returns for one problem. *)
Module Problemset.

Module Problem.
Record t := mk {
  contestId : option Z;
  index : string;
  name : string;
  rating : option Z;
  tags : option (list string);
}.
End Problem.

Module Statistics.
Record t := mk {
  contestId : option Z;
  index : string;
  solvedCount : Z;
}.
End Statistics.

Module Response.
Record t := mk {
  problems : option (list Problem.t);
  problemStatistics : option (list Statistics.t);
}.
End Response.

Module Trimmed.
Record t := mk {
  contestId : option Z;
  index : string;
  name : string;
  rating : option Z;
  tags : option (list string);
  solvedCount : option Z;
}.
End Trimmed.

(** [`${contestId}-${index}`]; an absent [contestId] reads ["undefined"]. *)
Definition statKey (contestId : option Z) (index : string) : string :=
  match contestId with
  | Some c => JS.num c
  | None => "undefined"
  end +:+ "-" +:+ index.

(** [statMap] is a plain object used as a map.  Every key written or read
    contains ["-"], so none names a property inherited from
    [Object.prototype], and a read yields what was last written under the
    key or [undefined]. *)
Definition statMapOf (problemStatistics : list Statistics.t) : gmap string Z :=
  foldl (fun statMap s =>
           <[statKey (Statistics.contestId s) (Statistics.index s)
               := Statistics.solvedCount s]> statMap)
        ∅ problemStatistics.

Definition trimProblems (data : Response.t) : list Trimmed.t :=
  let problems := default [] (Response.problems data) in
  let problemStatistics := default [] (Response.problemStatistics data) in
  let statMap := statMapOf problemStatistics in
  map (fun p =>
         Trimmed.mk (Problem.contestId p) (Problem.index p) (Problem.name p)
                    (Problem.rating p) (Problem.tags p)
                    (statMap !! statKey (Problem.contestId p) (Problem.index p)))
      (JS.slice0 problems 300).

End Problemset.

(** A decimal digit, a string of digits, a string without ["-"]. *)
Definition digit (c : ascii) : bool :=
  (48 <=? nat_of_ascii c)%nat && (nat_of_ascii c <=? 57)%nat.

Fixpoint digits (s : string) : Prop :=
  match s with
  | EmptyString => True
  | String c s' => digit c = true /\ digits s'
  end.

Fixpoint dashFree (s : string) : Prop :=
  match s with
  | EmptyString => True
  | String c s' => c <> "-"%char /\ dashFree s'
  end.

(** The statistics entry of a problem: same contest, same index. *)
Definition sameProblem (contestId : option Z) (index : string)
    (s : Problemset.Statistics.t) : bool :=
  bool_decide (Problemset.Statistics.contestId s = contestId)
  && String.eqb (Problemset.Statistics.index s) index.

Definition lastStat (contestId : option Z) (index : string)
    (stats : list Problemset.Statistics.t) : option Z :=
  Problemset.Statistics.solvedCount <$> last (List.filter (sameProblem contestId index) stats).

(** ** The chat endpoint of [server.js] *)

Module Server.

(** [req.body.messages] as the handler tells it apart: a falsy value
    (absent, [null], [false], [0], the empty string), some other value that
    is not an array, or an array of messages. *)
Inductive Messages :=
| falsy
| notArray
| array (messages : list ref).

(** What the handler does to [res], in order. *)
Inductive Response :=
| status (code : Z)
| json (error : string)
| setHeader (name value : string)
| flushHeaders
| agent (e : Agent.Effect)
| end_.

Definition headers : list Response :=
  [ setHeader "Content-Type" "text/event-stream";
    setHeader "Cache-Control" "no-cache";
    setHeader "Connection" "keep-alive";
    setHeader "X-Accel-Buffering" "no";
    flushHeaders ].

(** The handler of [POST /api/chat]: what it did to [res] and whether its
    promise resolves; [None] when the agent loop needs more than [fuel]
    iterations. *)
Definition chat (w : Agent.World) (heap : Heap) (messages : Messages)
    (model : option string) (fuel : nat) : option (list Response * Result unit) :=
  match messages with
  | falsy | notArray => Some ([status 400; json "messages array is required"], Ok tt)
  | array msgs =>
      match Agent.streamAgent w heap msgs model fuel with
      | None => None
      | Some (t, Ok _) => Some (headers ++ map agent t ++ [end_], Ok tt)
      | Some (t, Throw e) => Some (headers ++ map agent t, Throw e)
      end
  end.

End Server.

(** ** The request spacing of [src/codeforces.ts]: [rateLimit] *)

Module Client.

(** One call of [rateLimit()].  [now] and [later] are the two readings of
    [Date.now()]; the result is the timer waited for, if any, and the new
    [lastRequestTime]. *)
Definition rateLimit (lastRequestTime now later : Z) : option Z * Z :=
  let elapsed := now - lastRequestTime in
  (if elapsed <? 500 then Some (500 - elapsed) else None, later).

(** Calls made one after the other, each with its two clock readings. *)
Fixpoint rateLimits (lastRequestTime : Z) (clock : list (Z * Z)) : list (option Z * Z) :=
  match clock with
  | [] => []
  | (now, later) :: clock' =>
      let r := rateLimit lastRequestTime now later in
      r :: rateLimits (snd r) clock'
  end.

End Client.

(** The clock does not run backwards between two calls, and a timer does
    not fire early. *)
Fixpoint punctual (lastRequestTime : Z) (clock : list (Z * Z)) : Prop :=
  match clock with
  | [] => True
  | (now, later) :: clock' =>
      lastRequestTime <= now
      /\ now + default 0 (fst (Client.rateLimit lastRequestTime now later)) <= later
      /\ punctual later clock'
  end.

(** A model stream that delivers a tool block, fails with a rate-limit
    error, and delivers the block again when retried. *)
Module Flaky.
Import Agent.

Definition block : list RawEvent := toolBlockEvents "toolu_01" "get_user_rating" ["{"; "}"].

Definition world : World :=
  {| stream := fun call _ =>
       match call with
       | 0%nat => {| events := block; failure := Some Talk.rateLimited |}
       | 1%nat => {| events := block ++ [message_delta (Some "tool_use")];
                     failure := None |}
       | _ => Talk.answer
       end;
     finalMessage := fun _ => Ok "reply";
     JSON_valid := fun _ => true;
     runTool := fun _ _ _ => Ok "[]" |}.
End Flaky.

(** A conversation opened by the assistant: every message at an even
    position is the assistant's. *)
Definition assistantFirst (heap : Heap) (msgs : list ref) : Prop :=
  forall k r, msgs !! (2 * k)%nat = Some r ->
    ConversationMessage.role (heap r) = assistant.

Module Greeted.
Definition heap : Heap := fun r =>
  if Nat.even r then ConversationMessage.mk assistant "greeting"
  else ConversationMessage.mk user "question".

Definition messages : list ref := seq 0 6.
End Greeted.

(** * Properties *)

(** ** Replaying the test suite *)

Example toISOString_fixture :
  JS.toISOString (1771797960 * 1000) = Ok "2026-02-22T22:06:00.000Z".
Proof. vm_compute. reflexivity. Qed.

Example toISOString_samples :
  JS.toISOString 0 = Ok "1970-01-01T00:00:00.000Z" /\
  JS.toISOString (-1000) = Ok "1969-12-31T23:59:59.000Z" /\
  JS.toISOString (951868799 * 1000) = Ok "2000-02-29T23:59:59.000Z" /\
  JS.toISOString (-62135596800 * 1000) = Ok "0001-01-01T00:00:00.000Z" /\
  JS.toISOString (253402300799 * 1000) = Ok "9999-12-31T23:59:59.000Z" /\
  JS.toISOString 8640000000000000 = Ok "+275760-09-13T00:00:00.000Z" /\
  JS.toISOString (-8640000000000000) = Ok "-271821-04-20T00:00:00.000Z" /\
  JS.toISOString 8640000000000001 = Throw (RangeError "Invalid time value").
Proof. vm_compute. repeat split. Qed.

Example test_basic_result_shape :
  Resolver.getGymSimulations Fixtures.happyPath "automac" (Some 10) =
  Ok {| GymSimulationsResult.handle := "automac";
        GymSimulationsResult.gyms :=
          [ {| GymResult.name := "The 2025 ICPC Latin America Championship";
               GymResult.link := "https://codeforces.com/gym/105789/standings";
               GymResult.difficulty := Some "★★★☆☆";
               GymResult.durationHours := Some 5;
               GymResult.simulatedAt := "2026-02-22 22:06 UTC";
               GymResult.teamName := Some "Que bendición";
               GymResult.members := ["automac"; "elpepe123"; "juancs"];
               GymResult.rank := Some "177";
               GymResult.solved := Some "6/12" |} ] |}.
Proof. vm_compute. reflexivity. Qed.

Example test_null_rank_when_standings_throw :
  map (fun g => (GymResult.rank g, GymResult.solved g))
      (gymsOf (Resolver.getGymSimulations
                 (Fixtures.mock Fixtures.SUBS_ONE_SIM Fixtures.GYM_LIST
                    (fun _ => Throw (mkError None (Some "CF API error"))))
                 "automac" (Some 10)))
  = [(None, None)].
Proof. vm_compute. reflexivity. Qed.

Example test_no_submissions :
  Resolver.getGymSimulations
    (Fixtures.mock [] Fixtures.GYM_LIST (fun _ => Ok Fixtures.STANDINGS_105789))
    "nobody" (Some 10)
  = Ok {| GymSimulationsResult.handle := "nobody"; GymSimulationsResult.gyms := [] |}.
Proof. vm_compute. reflexivity. Qed.

Example test_newest_first :
  map (fun g => (GymResult.link g, GymResult.rank g))
      (gymsOf (Resolver.getGymSimulations Runs.twoSims "automac" (Some 10)))
  = [("https://codeforces.com/gym/105789/standings", Some "177");
     ("https://codeforces.com/gym/106193/standings", Some "183")].
Proof. vm_compute. reflexivity. Qed.

Example test_respects_limit :
  map GymResult.link
      (gymsOf (Resolver.getGymSimulations Runs.twoSims "automac" (Some 1)))
  = ["https://codeforces.com/gym/105789/standings"].
Proof. vm_compute. reflexivity. Qed.

Example test_gym_missing_from_list :
  map (fun g => (GymResult.name g, GymResult.difficulty g, GymResult.durationHours g))
      (gymsOf (Resolver.getGymSimulations
                 (Fixtures.mock Fixtures.SUBS_ONE_SIM []
                    (fun _ => Ok Fixtures.STANDINGS_105789))
                 "automac" (Some 10)))
  = [("Gym #105789", None, None)].
Proof. vm_compute. reflexivity. Qed.

Example test_difficulty_not_set :
  map GymResult.difficulty
      (gymsOf (Resolver.getGymSimulations
                 (Fixtures.mock Fixtures.SUBS_ONE_SIM
                    [CFContest.mk 105789 "Test Gym" 18000 None]
                    (fun _ => Ok Fixtures.STANDINGS_105789))
                 "automac" (Some 10)))
  = [None].
Proof. vm_compute. reflexivity. Qed.

Example test_handle_as_sole_member :
  map GymResult.members
      (gymsOf (Resolver.getGymSimulations Solo.solo "solo_user" (Some 10)))
  = [["solo_user"]].
Proof. vm_compute. reflexivity. Qed.

(** A difficulty off the 1-5 scale makes [repeat] raise, which nothing
    catches: the request is lost. *)
Example difficulty_off_scale_aborts :
  Resolver.getGymSimulations
    (Fixtures.mock Fixtures.SUBS_ONE_SIM
       [CFContest.mk 105789 "Test Gym" 18000 (Some 6)]
       (fun _ => Ok Fixtures.STANDINGS_105789))
    "automac" (Some 10)
  = Throw (RangeError "Invalid count value: -1").
Proof. vm_compute. reflexivity. Qed.

Example trimHistory_small :
  History.trimHistory Chat.heap [] = [None]
  /\ History.trimHistory Chat.heap [0%nat] = [Some 0%nat]
  /\ History.trimHistory Chat.heap [0; 1]%nat = [Some 0; Some 1]%nat
  /\ History.trimHistory Chat.heap [0; 1; 2]%nat = [Some 0; Some 1; Some 2]%nat
  /\ History.trimHistory Chat.heap [1; 0; 1; 0]%nat = [Some 0%nat].
Proof. repeat split. Qed.

(** ** Session keys determine the session's identity *)

Section Keys.

Lemma sepFree_app (a b : string) : sepFree a -> sepFree b -> sepFree (a +:+ b).
Proof. induction a; simpl; intuition. Qed.

Lemma pretty_N_char_sepFree (x : N) : pretty_N_char x <> "_"%char.
Proof. unfold pretty_N_char. repeat case_match; discriminate. Qed.

Lemma pretty_N_go_sepFree (x : N) (s : string) :
  sepFree s -> sepFree (pretty_N_go x s).
Proof.
  revert s. induction (N.lt_wf_0 x) as [x _ IH]; intros s Hs.
  destruct (decide (x = 0)%N) as [->|Hx].
  - by rewrite pretty_N_go_0.
  - rewrite pretty_N_go_step by lia. apply IH.
    + apply N.div_lt; lia.
    + split; [apply pretty_N_char_sepFree | done].
Qed.

Lemma pretty_N_sepFree (x : N) : sepFree (pretty x).
Proof.
  unfold pretty, pretty_N. case_decide; simpl.
  - split; [discriminate | done].
  - by apply pretty_N_go_sepFree.
Qed.

Lemma num_sepFree (z : Z) : sepFree (JS.num z).
Proof.
  unfold JS.num, pretty, pretty_Z. destruct z as [|p|p].
  - split; [discriminate | done].
  - apply pretty_N_sepFree.
  - simpl. split; [discriminate | apply pretty_N_sepFree].
Qed.

Lemma sep_split_inj (a c b d : string) :
  sepFree a -> sepFree c ->
  a +:+ "_" +:+ b = c +:+ "_" +:+ d -> a = c /\ b = d.
Proof.
  revert c. induction a as [|x a IH]; intros [|y c]; simpl; intros Ha Hc Heq.
  - by inversion Heq.
  - inversion Heq; subst. by destruct Hc as [[] _].
  - inversion Heq; subst. by destruct Ha as [[] _].
  - inversion Heq; subst. destruct Ha as [_ Ha], Hc as [_ Hc].
    destruct (IH c Ha Hc) as [-> ->]; done.
Qed.

Lemma sessionKey_inj (c1 t1 c2 t2 : Z) :
  Resolver.sessionKey c1 t1 = Resolver.sessionKey c2 t2 -> c1 = c2 /\ t1 = t2.
Proof.
  unfold Resolver.sessionKey. intros H.
  apply sep_split_inj in H as [Hc Ht]; try apply num_sepFree.
  split; [apply (inj pretty _ _ Hc) | apply (inj pretty _ _ Ht)].
Qed.

End Keys.

(** ** Facts about the built-ins *)

Section Builtins.
Context {A : Type}.

Lemma find_Some (p : A -> bool) (l : list A) (r : A) :
  JS.find p l = Some r <->
  exists pre post, l = pre ++ r :: post /\ p r = true /\ Forall (fun x => p x = false) pre.
Proof.
  induction l as [|x l IH]; simpl.
  - split; [discriminate | intros (pre & post & H & _)]. by destruct pre.
  - destruct (p x) eqn:Hx.
    + split.
      * intros [= ->]. exists [], l. by repeat split.
      * intros (pre & post & Hl & Hr & Hpre). destruct pre as [|y pre]; simpl in Hl.
        -- by inversion Hl.
        -- inversion Hl; subst. inversion Hpre; subst. congruence.
    + rewrite IH. split.
      * intros (pre & post & -> & Hr & Hpre). exists (x :: pre), post.
        repeat split; [done | by constructor].
      * intros (pre & post & Hl & Hr & Hpre). destruct pre as [|y pre]; simpl in Hl.
        -- inversion Hl; subst. congruence.
        -- inversion Hl; subst. inversion Hpre; subst. by exists pre, post.
Qed.

Lemma find_None (p : A -> bool) (l : list A) :
  JS.find p l = None <-> Forall (fun x => p x = false) l.
Proof.
  induction l as [|x l IH]; simpl.
  - split; [constructor | done].
  - destruct (p x) eqn:Hx.
    + split; [discriminate | intros H; inversion H; congruence].
    + rewrite IH. split; [by constructor | by inversion 1].
Qed.

Lemma find_app_None (p : A -> bool) (l l' : list A) :
  JS.find p l = None -> JS.find p (l ++ l') = JS.find p l'.
Proof.
  induction l as [|x l IH]; simpl; [done|]. destruct (p x); [discriminate | done].
Qed.

Lemma find_app_Some (p : A -> bool) (l l' : list A) (r : A) :
  JS.find p l = Some r -> JS.find p (l ++ l') = Some r.
Proof.
  induction l as [|x l IH]; simpl; [done|]. destruct (p x); done.
Qed.

Variable before : A -> A -> bool.

Lemma insertBy_Permutation (x : A) (l : list A) : JS.insertBy before x l ≡ₚ x :: l.
Proof.
  induction l as [|y l IH]; simpl; [done|].
  destruct (before x y); [done|]. rewrite IH. apply Permutation_swap.
Qed.

Lemma sortBy_Permutation (l : list A) : JS.sortBy before l ≡ₚ l.
Proof.
  induction l as [|x l IH]; simpl; [done|].
  rewrite insertBy_Permutation. by rewrite IH.
Qed.

Lemma sortBy_length (l : list A) : length (JS.sortBy before l) = length l.
Proof. apply Permutation_length, sortBy_Permutation. Qed.

Hypothesis before_total : forall x y, before x y = true \/ before y x = true.

Lemma insertBy_Sorted (x : A) (l : list A) :
  Sorted (fun a b => before a b = true) l ->
  Sorted (fun a b => before a b = true) (JS.insertBy before x l).
Proof.
  induction 1 as [|y l Hl IH Hhd]; simpl.
  - by repeat constructor.
  - destruct (before x y) eqn:Hxy.
    + constructor; [by constructor | by constructor].
    + constructor; [done|].
      destruct Hhd as [|z l' Hyz]; simpl.
      * constructor. destruct (before_total x y); congruence.
      * destruct (before x z); constructor; [|done].
        destruct (before_total x y); congruence.
Qed.

Lemma sortBy_Sorted (l : list A) :
  Sorted (fun a b => before a b = true) (JS.sortBy before l).
Proof.
  induction l as [|x l IH]; simpl; [constructor | by apply insertBy_Sorted].
Qed.

End Builtins.

Lemma Sorted_weaken {A} (R R' : A -> A -> Prop) (l : list A) :
  (forall a b, R a b -> R' a b) -> Sorted R l -> Sorted R' l.
Proof.
  intros HR. induction 1 as [|x l Hl IH Hhd]; constructor; [done|].
  destruct Hhd; constructor. by apply HR.
Qed.

Lemma slice0_length {A} (l : list A) (n : Z) :
  0 <= n -> Z.of_nat (length (JS.slice0 l n)) = Z.min n (Z.of_nat (length l)).
Proof.
  intros Hn. unfold JS.slice0.
  destruct (n <? 0) eqn:Hneg; [lia|]. rewrite length_take. lia.
Qed.

Lemma slice0_prefix {A} (l : list A) (n : Z) : JS.slice0 l n `prefix_of` l.
Proof. unfold JS.slice0. apply prefix_take. Qed.

Lemma mapR_Ok {A B} (f : A -> Result B) (l : list A) (ys : list B) :
  mapR f l = Ok ys <-> Forall2 (fun x y => f x = Ok y) l ys.
Proof.
  revert ys. induction l as [|x l IH]; intros ys; simpl.
  - split; [intros [= <-]; constructor | by inversion 1].
  - destruct (f x) as [y|e] eqn:Hx; simpl.
    + destruct (mapR f l) as [ys'|e] eqn:Hl; simpl.
      * split.
        -- intros [= <-]. constructor; [done | by apply IH].
        -- inversion 1; subst. apply IH in H4. congruence.
      * split; [discriminate|]. inversion 1; subst. apply IH in H4. discriminate.
    + split; [discriminate|]. inversion 1; congruence.
Qed.

(** ** The session map *)

Section SessionMap.
Context {V : Type}.
Implicit Types (m : JSMap.t V) (k : string) (v : V).

Lemma has_get k m : JSMap.has k m = bool_decide (is_Some (JSMap.get k m)).
Proof.
  unfold JSMap.get. induction m as [|[k' v'] m IH]; simpl; [done|].
  by destruct (String.eqb k' k).
Qed.

Lemma has_keys k m : JSMap.has k m = true <-> k ∈ JSMap.keys m.
Proof.
  unfold JSMap.keys. induction m as [|[k' v'] m IH]; simpl.
  - split; [discriminate | by intros ?%elem_of_nil].
  - rewrite elem_of_cons, <- IH. destruct (String.eqb_spec k' k); simpl.
    + split; [by left | done].
    + split; [by right | intros [?|?]; congruence].
Qed.

Lemma set_absent k v m : JSMap.has k m = false -> JSMap.set k v m = m ++ [(k, v)].
Proof.
  induction m as [|[k' v'] m IH]; simpl; [done|].
  destruct (String.eqb k' k); simpl; [discriminate|]. intros H. by rewrite IH.
Qed.

Lemma get_snoc k k' v m :
  JSMap.get k (m ++ [(k', v)]) =
  match JSMap.get k m with
  | Some v0 => Some v0
  | None => if String.eqb k' k then Some v else None
  end.
Proof.
  unfold JSMap.get. induction m as [|[k0 v0] m IH]; simpl.
  - by destruct (String.eqb k' k).
  - by destruct (String.eqb k0 k).
Qed.

Lemma get_elem_of k v m : NoDup (JSMap.keys m) -> (k, v) ∈ m -> JSMap.get k m = Some v.
Proof.
  unfold JSMap.get, JSMap.keys. induction m as [|[k0 v0] m IH]; simpl.
  - by intros _ ?%elem_of_nil.
  - intros [Hk0 Hnd]%NoDup_cons [Heq|Hin]%elem_of_cons.
    + inversion Heq; subst. by rewrite String.eqb_refl.
    + destruct (String.eqb_spec k0 k) as [->|_]; [|by apply IH].
      exfalso. apply Hk0. apply list_elem_of_fmap. by exists (k, v).
Qed.

Lemma get_Some_elem_of k v m : JSMap.get k m = Some v -> (k, v) ∈ m.
Proof.
  unfold JSMap.get. induction m as [|[k0 v0] m IH]; simpl; [done|].
  destruct (String.eqb_spec k0 k) as [->|_]; simpl.
  - intros [= ->]. by left.
  - intros H. right. by apply IH.
Qed.

End SessionMap.

(** ** Stages A and B: scanning submissions into sessions *)

Section Scan.
Implicit Types (sessions : JSMap.t SimSession) (s : CFSubmission) (k : string).

Lemma scanSubmission_eq sessions s :
  Resolver.scanSubmission sessions s =
  if candidate s && negb (JSMap.has (keyOf s) sessions)
  then sessions ++ [(keyOf s, Resolver.sessionOf s)]
  else sessions.
Proof.
  unfold Resolver.scanSubmission, candidate, keyOf.
  destruct (Resolver.isGym s), (Resolver.isVirtual s); simpl; try done.
  destruct (JSMap.has _ sessions) eqn:H; simpl; [done | by rewrite set_absent].
Qed.

Lemma keyOf_sessionOf s : keyOfSession (Resolver.sessionOf s) = keyOf s.
Proof. reflexivity. Qed.

Lemma scanSubmission_get k sessions s :
  JSMap.get k (Resolver.scanSubmission sessions s) =
  match JSMap.get k sessions with
  | Some v => Some v
  | None => if candidate s && String.eqb (keyOf s) k
            then Some (Resolver.sessionOf s) else None
  end.
Proof.
  rewrite scanSubmission_eq, has_get. destruct (candidate s); simpl.
  - destruct (JSMap.get (keyOf s) sessions) as [v|] eqn:Hget; simpl.
    + destruct (JSMap.get k sessions) eqn:Hk; [done|].
      destruct (String.eqb_spec (keyOf s) k) as [<-|_]; [congruence | done].
    + apply get_snoc.
  - by destruct (JSMap.get k sessions).
Qed.

Lemma scan_get k subs sessions :
  JSMap.get k (foldl Resolver.scanSubmission sessions subs) =
  match JSMap.get k sessions with
  | Some v => Some v
  | None => Resolver.sessionOf <$>
              JS.find (fun s => candidate s && String.eqb (keyOf s) k) subs
  end.
Proof.
  revert sessions. induction subs as [|s subs IH]; intros sessions; simpl.
  - by destruct (JSMap.get k sessions).
  - rewrite IH, scanSubmission_get.
    destruct (JSMap.get k sessions); [done|].
    by destruct (candidate s && String.eqb (keyOf s) k).
Qed.

Lemma scanSubmission_NoDup sessions s :
  NoDup (JSMap.keys sessions) -> NoDup (JSMap.keys (Resolver.scanSubmission sessions s)).
Proof.
  intros Hnd. rewrite scanSubmission_eq.
  destruct (candidate s); simpl; [|done].
  destruct (JSMap.has (keyOf s) sessions) eqn:Hhas; simpl; [done|].
  unfold JSMap.keys. rewrite map_app. simpl. apply NoDup_app. repeat split.
  - done.
  - intros k Hk ->%list_elem_of_singleton.
    apply has_keys in Hk. congruence.
  - apply NoDup_singleton.
Qed.

Lemma scan_NoDup subs sessions :
  NoDup (JSMap.keys sessions) ->
  NoDup (JSMap.keys (foldl Resolver.scanSubmission sessions subs)).
Proof.
  revert sessions. induction subs as [|s subs IH]; intros sessions H; simpl; [done|].
  by apply IH, scanSubmission_NoDup.
Qed.

Lemma scanSubmission_keyed sessions s :
  keyed sessions -> keyed (Resolver.scanSubmission sessions s).
Proof.
  intros Hk. rewrite scanSubmission_eq.
  destruct (candidate s && negb (JSMap.has (keyOf s) sessions)); [|done].
  apply Forall_app. split; [done|]. by repeat constructor.
Qed.

Lemma scan_keyed subs sessions :
  keyed sessions -> keyed (foldl Resolver.scanSubmission sessions subs).
Proof.
  revert sessions. induction subs as [|s subs IH]; intros sessions H; simpl; [done|].
  by apply IH, scanSubmission_keyed.
Qed.

(** Stored members are the sorted handles of the submission's party. *)
Lemma sessionOf_members_sorted s :
  Sorted (fun a b => String.leb a b = true) (SimSession.members (Resolver.sessionOf s)).
Proof. apply sortBy_Sorted, String.leb_total. Qed.

(** The paging loop feeds some list of submissions, page after page,
    through [scanSubmission]. *)
Lemma scanPages_fold cf handle limit pages from sessions out :
  Resolver.scanPages cf handle limit pages from sessions = Ok out ->
  exists subs, out = foldl Resolver.scanSubmission sessions subs.
Proof.
  revert from sessions. induction pages as [|pages IH]; intros from sessions; simpl.
  - intros [= <-]. by exists [].
  - destruct (getUserSubmissions cf handle Resolver.pageSize from) as [subs|e]; simpl;
      [|discriminate].
    destruct (length subs =? 0)%nat.
    { intros [= <-]. by exists []. }
    destruct (Z.of_nat (length subs) <? Resolver.pageSize).
    { intros [= <-]. by exists subs. }
    destruct (JSMap.size _ >=? limit * 3).
    { intros [= <-]. by exists subs. }
    intros H. apply IH in H as [subs' ->]. exists (subs ++ subs').
    by rewrite foldl_app.
Qed.

Lemma scanPages_NoDup cf handle limit out :
  Resolver.scanPages cf handle limit Resolver.maxPages 1 JSMap.empty = Ok out ->
  NoDup (JSMap.keys out) /\ keyed out.
Proof.
  intros [subs ->]%scanPages_fold. split.
  - apply scan_NoDup. constructor.
  - apply scan_keyed. constructor.
Qed.

End Scan.

(** ** Candidates, deduplication and the session start time *)

Section Sessions.
Implicit Types (sessions : JSMap.t SimSession) (s : CFSubmission) (k : string).

Lemma candidate_gymVirtual s : candidate s = true <-> gymVirtual s.
Proof.
  unfold candidate, gymVirtual, Resolver.isGym, Resolver.isVirtual.
  rewrite andb_true_iff. split.
  - intros [Hg Hv]. split.
    + destruct (CFSubmission.contestId s) as [c|]; simpl in Hg; [|lia].
      exists c. split; [done | lia].
    + destruct (CFSubmission.author s) as [a|]; [|done].
      exists a. split; [done|]. by destruct (CFParty.participantType a).
  - intros [(c & -> & Hc) (a & -> & ->)]. simpl. split; [lia | done].
Qed.

Lemma keyOf_eq s s' : keyOf s = keyOf s' <-> idOf s = idOf s'.
Proof.
  unfold keyOf, idOf. split.
  - intros [-> ->]%sessionKey_inj. done.
  - by intros [= -> ->].
Qed.

Lemma find_sameId s subs :
  JS.find (fun s' => candidate s' && String.eqb (keyOf s') (keyOf s)) subs =
  JS.find (sameId (idOf s)) subs.
Proof.
  induction subs as [|x subs IH]; simpl; [done|]. rewrite IH. unfold sameId.
  destruct (candidate x); simpl; [|done].
  destruct (String.eqb_spec (keyOf x) (keyOf s)) as [He|Hne].
  - apply keyOf_eq in He. by rewrite bool_decide_eq_true_2.
  - rewrite bool_decide_eq_false_2; [done|]. by rewrite <- keyOf_eq.
Qed.

Lemma scan_get_candidate subs s :
  s ∈ subs -> candidate s = true ->
  exists first,
    JS.find (sameId (idOf s)) subs = Some first /\
    JSMap.get (keyOf s) (foldl Resolver.scanSubmission JSMap.empty subs)
      = Some (Resolver.sessionOf first).
Proof.
  intros Hin Hc. rewrite scan_get. simpl. rewrite find_sameId.
  destruct (JS.find (sameId (idOf s)) subs) as [first|] eqn:Hf.
  - by exists first.
  - exfalso. rewrite find_None, Forall_forall in Hf. specialize (Hf s Hin).
    unfold sameId in Hf. rewrite Hc, bool_decide_eq_true_2 in Hf; done.
Qed.

Lemma keyed_keys sessions :
  keyed sessions -> JSMap.keys sessions = map keyOfSession (JSMap.values sessions).
Proof.
  unfold JSMap.keys, JSMap.values.
  induction 1 as [|[k v] m Hkv _ IH]; simpl; [done|]. simpl in Hkv. by rewrite IH, Hkv.
Qed.

Lemma scan_values_ids sessions :
  NoDup (JSMap.keys sessions) -> keyed sessions ->
  NoDup (map idOfSession (JSMap.values sessions)).
Proof.
  intros Hnd Hk.
  assert (JSMap.keys sessions =
          (fun id : Z * Z => Resolver.sessionKey (fst id) (snd id))
            <$> map idOfSession (JSMap.values sessions)) as Heq.
  { rewrite keyed_keys by done. unfold fmap, list_fmap.
    generalize (JSMap.values sessions). by induction l; simpl; [|f_equal]. }
  rewrite Heq in Hnd. by apply NoDup_fmap_1 in Hnd.
Qed.

Lemma scan_again subs sessions :
  (forall s, s ∈ subs -> candidate s = true -> JSMap.has (keyOf s) sessions = true) ->
  foldl Resolver.scanSubmission sessions subs = sessions.
Proof.
  induction subs as [|s subs IH]; intros H; simpl; [done|].
  assert (Resolver.scanSubmission sessions s = sessions) as ->.
  { rewrite scanSubmission_eq. destruct (candidate s) eqn:Hc; simpl; [|done].
    rewrite H; [done | by left | done]. }
  apply IH. intros s' Hs'. apply H. by right.
Qed.

End Sessions.

(** C5: a scanned submission becomes a session exactly when its contest id
    exceeds 100000 and its author's participation type is VIRTUAL; any other
    record (PRACTICE, or a contest id at or below 100000, or none) leaves the
    session map untouched whatever its other fields are, and the keys found
    by a scan are those of the gym-and-VIRTUAL submissions scanned. *)
Theorem candidate_iff_gym_and_virtual (s : CFSubmission) :
  (Resolver.scanSubmission JSMap.empty s = [(keyOf s, Resolver.sessionOf s)]
     <-> gymVirtual s)
  /\ (Resolver.scanSubmission JSMap.empty s = JSMap.empty <-> ~ gymVirtual s)
  /\ (forall sessions : JSMap.t SimSession,
        ~ gymVirtual s -> Resolver.scanSubmission sessions s = sessions)
  /\ (forall (sessions : JSMap.t SimSession) a,
        CFSubmission.author s = Some a -> CFParty.participantType a = PRACTICE ->
        Resolver.scanSubmission sessions s = sessions)
  /\ (forall (sessions : JSMap.t SimSession) c,
        CFSubmission.contestId s = Some c -> c <= 100000 ->
        Resolver.scanSubmission sessions s = sessions)
  /\ (forall (sessions : JSMap.t SimSession),
        gymVirtual s -> JSMap.has (keyOf s) (Resolver.scanSubmission sessions s) = true)
  /\ (forall (subs : list CFSubmission) (k : string),
        (k ∈ JSMap.keys (foldl Resolver.scanSubmission JSMap.empty subs)
         <-> exists s', s' ∈ subs /\ gymVirtual s' /\ keyOf s' = k)).
Proof.
  assert (forall sessions : JSMap.t SimSession,
            ~ gymVirtual s -> Resolver.scanSubmission sessions s = sessions) as Hskip.
  { intros sessions Hn. rewrite scanSubmission_eq.
    destruct (candidate s) eqn:Hc; [|done]. by apply candidate_gymVirtual in Hc. }
  split; [|split; [|split; [|split; [|split; [|split]]]]].
  - rewrite scanSubmission_eq. simpl. rewrite andb_true_r.
    destruct (candidate s) eqn:Hc.
    + split; [intros _; by apply candidate_gymVirtual | done].
    + split; [discriminate|]. intros H%candidate_gymVirtual. congruence.
  - rewrite scanSubmission_eq. simpl. rewrite andb_true_r.
    destruct (candidate s) eqn:Hc.
    + split; [discriminate|]. intros []. by apply candidate_gymVirtual.
    + split; [|done]. intros _ H%candidate_gymVirtual. congruence.
  - exact Hskip.
  - intros sessions a Ha Hp. apply Hskip. intros [_ (a' & Ha' & Hv)]. congruence.
  - intros sessions c Hc Hle. apply Hskip. intros [(c' & Hc' & Hgt) _].
    assert (c' = c) by congruence. lia.
  - intros sessions Hg%candidate_gymVirtual. rewrite has_get, scanSubmission_get.
    apply bool_decide_eq_true. destruct (JSMap.get (keyOf s) sessions); [by eexists|].
    rewrite Hg, String.eqb_refl. by eexists.
  - intros subs k. rewrite <- has_keys, has_get, bool_decide_eq_true, scan_get. simpl.
    split.
    + intros [v Hv]. destruct (JS.find _ subs) as [s'|] eqn:Hf; [|done].
      apply find_Some in Hf as (pre & post & -> & Hp & _).
      apply andb_true_iff in Hp as [Hc He]. exists s'. split; [|split].
      * apply elem_of_app. right. by left.
      * by apply candidate_gymVirtual.
      * by apply String.eqb_eq.
    + intros (s' & Hin & Hg & <-).
      destruct (JS.find _ subs) as [x|] eqn:Hf; [by eexists|].
      rewrite find_None, Forall_forall in Hf. specialize (Hf s' Hin).
      apply candidate_gymVirtual in Hg. by rewrite Hg, String.eqb_refl in Hf.
Qed.

(** C6: deduplication is first-seen-wins and idempotent.  After a scan no
    two sessions share a [(contestId, startTimeSeconds)] identity; every
    scanned candidate finds under its key the session built from the first
    scanned candidate with that identity, which supplies the team name and
    the member handles, stored sorted; a further record whose key is already
    present leaves the map unchanged, and so does scanning the same records
    again. *)
Theorem dedup_first_seen_wins (subs : list CFSubmission) :
  let sessions := foldl Resolver.scanSubmission JSMap.empty subs in
  NoDup (map idOfSession (JSMap.values sessions))
  /\ NoDup (JSMap.keys sessions)
  /\ (forall s, s ∈ subs -> candidate s = true ->
        exists first,
          JS.find (sameId (idOf s)) subs = Some first
          /\ idOf first = idOf s
          /\ JSMap.get (keyOf s) sessions = Some (Resolver.sessionOf first)
          /\ idOfSession (Resolver.sessionOf first) = idOf s
          /\ SimSession.teamName (Resolver.sessionOf first)
             = CFSubmission.author first ≫= CFParty.teamName
          /\ SimSession.members (Resolver.sessionOf first)
             ≡ₚ map CFMember.handle
                  (default [] (CFSubmission.author first ≫= CFParty.members))
          /\ Sorted (fun a b => String.leb a b = true)
                    (SimSession.members (Resolver.sessionOf first)))
  /\ (forall (m : JSMap.t SimSession) s,
        JSMap.has (keyOf s) m = true -> Resolver.scanSubmission m s = m)
  /\ (forall (m : JSMap.t SimSession) s,
        Resolver.scanSubmission (Resolver.scanSubmission m s) s
        = Resolver.scanSubmission m s)
  /\ foldl Resolver.scanSubmission sessions subs = sessions.
Proof.
  intros sessions.
  assert (NoDup (JSMap.keys sessions)) as Hnd by (apply scan_NoDup; constructor).
  assert (keyed sessions) as Hk by (apply scan_keyed; constructor).
  assert (forall (m : JSMap.t SimSession) s,
            JSMap.has (keyOf s) m = true -> Resolver.scanSubmission m s = m) as Hsame.
  { intros m s H. rewrite scanSubmission_eq, H. simpl. by rewrite andb_false_r. }
  split; [by apply scan_values_ids|]. split; [done|].
  split; [|split; [done|split]].
  - intros s Hin Hc. destruct (scan_get_candidate subs s Hin Hc) as (first & Hf & Hget).
    exists first. pose proof Hf as Hf'.
    apply find_Some in Hf' as (_ & _ & _ & Hp & _).
    apply andb_true_iff in Hp as [_ Hid%bool_decide_eq_true].
    split; [done|]. split; [done|]. split; [done|]. split; [done|]. split; [done|].
    split; [apply sortBy_Permutation | apply sessionOf_members_sorted].
  - intros m s. destruct (candidate s) eqn:Hc.
    + apply Hsame. rewrite has_get, scanSubmission_get. apply bool_decide_eq_true.
      destruct (JSMap.get (keyOf s) m); [by eexists|].
      rewrite Hc, String.eqb_refl. by eexists.
    + rewrite !scanSubmission_eq, Hc. done.
  - apply scan_again. intros s Hin Hc.
    destruct (scan_get_candidate subs s Hin Hc) as (first & _ & Hget).
    rewrite has_get. apply bool_decide_eq_true. by eexists.
Qed.

(** C10: the start time of a session is the author's [startTimeSeconds] when
    present and the submission's [creationTimeSeconds] otherwise; that value
    is both part of the key and the session's stored [startTimeSeconds].
    Hence two scanned candidates of one contest that both lack the author's
    start time and differ in creation time end up as two distinct sessions. *)
Theorem session_start_time_fallback :
  (forall s : CFSubmission,
     Resolver.startTime s =
     match CFSubmission.author s ≫= CFParty.startTimeSeconds with
     | Some t => t
     | None => CFSubmission.creationTimeSeconds s
     end)
  /\ (forall (s : CFSubmission) c, gymVirtual s -> CFSubmission.contestId s = Some c ->
        Resolver.scanSubmission JSMap.empty s
          = [(Resolver.sessionKey c (Resolver.startTime s), Resolver.sessionOf s)]
        /\ SimSession.startTimeSeconds (Resolver.sessionOf s) = Resolver.startTime s
        /\ SimSession.contestId (Resolver.sessionOf s) = c)
  /\ (forall (subs : list CFSubmission) (s1 s2 : CFSubmission),
        s1 ∈ subs -> s2 ∈ subs -> gymVirtual s1 -> gymVirtual s2 ->
        CFSubmission.contestId s1 = CFSubmission.contestId s2 ->
        CFSubmission.author s1 ≫= CFParty.startTimeSeconds = None ->
        CFSubmission.author s2 ≫= CFParty.startTimeSeconds = None ->
        CFSubmission.creationTimeSeconds s1 <> CFSubmission.creationTimeSeconds s2 ->
        let sessions := foldl Resolver.scanSubmission JSMap.empty subs in
        exists sim1 sim2,
          JSMap.get (keyOf s1) sessions = Some sim1
          /\ JSMap.get (keyOf s2) sessions = Some sim2
          /\ keyOf s1 <> keyOf s2
          /\ SimSession.startTimeSeconds sim1 = CFSubmission.creationTimeSeconds s1
          /\ SimSession.startTimeSeconds sim2 = CFSubmission.creationTimeSeconds s2
          /\ sim1 <> sim2).
Proof.
  assert (forall s : CFSubmission,
     Resolver.startTime s =
     match CFSubmission.author s ≫= CFParty.startTimeSeconds with
     | Some t => t
     | None => CFSubmission.creationTimeSeconds s
     end) as Hstart.
  { intros s. unfold Resolver.startTime.
    by destruct (CFSubmission.author s ≫= CFParty.startTimeSeconds). }
  split; [done|]. split.
  - intros s c Hg Hc. split; [|split].
    + apply candidate_gymVirtual in Hg. rewrite scanSubmission_eq, Hg. simpl.
      unfold keyOf. by rewrite Hc.
    + done.
    + simpl. by rewrite Hc.
  - intros subs s1 s2 Hin1 Hin2 Hg1%candidate_gymVirtual Hg2%candidate_gymVirtual
      Hcid Hno1 Hno2 Hne sessions.
    destruct (scan_get_candidate subs s1 Hin1 Hg1) as (f1 & Hf1 & Hget1).
    destruct (scan_get_candidate subs s2 Hin2 Hg2) as (f2 & Hf2 & Hget2).
    apply find_Some in Hf1 as (_ & _ & _ & Hp1 & _).
    apply find_Some in Hf2 as (_ & _ & _ & Hp2 & _).
    apply andb_true_iff in Hp1 as [_ Hid1%bool_decide_eq_true].
    apply andb_true_iff in Hp2 as [_ Hid2%bool_decide_eq_true].
    assert (Resolver.startTime s1 = CFSubmission.creationTimeSeconds s1) as Hs1
      by (by rewrite Hstart, Hno1).
    assert (Resolver.startTime s2 = CFSubmission.creationTimeSeconds s2) as Hs2
      by (by rewrite Hstart, Hno2).
    assert (SimSession.startTimeSeconds (Resolver.sessionOf f1)
            = CFSubmission.creationTimeSeconds s1) as Ht1.
    { simpl. injection Hid1 as _ Ht. congruence. }
    assert (SimSession.startTimeSeconds (Resolver.sessionOf f2)
            = CFSubmission.creationTimeSeconds s2) as Ht2.
    { simpl. injection Hid2 as _ Ht. congruence. }
    exists (Resolver.sessionOf f1), (Resolver.sessionOf f2).
    split; [done|]. split; [done|]. split; [|split; [done|split; [done|]]].
    + rewrite keyOf_eq. unfold idOf. intros [= _ Ht]. congruence.
    + intros Heq. rewrite Heq in Ht1. congruence.
Qed.

(** ** Stage E: the standings cache *)

Section Standings.
Implicit Types (sim : SimSession) (r : CFRanklistRow) (cache : gmap string StandingsEntry).

Lemma sameStart_iff sim r : Resolver.sameStart sim r = true <-> startsWith sim r.
Proof.
  unfold Resolver.sameStart, startsWith.
  destruct (CFRanklistRow.party r) as [p|]; simpl.
  - destruct (CFParty.startTimeSeconds p) as [t|] eqn:Hp; simpl.
    + rewrite Z.eqb_eq. split.
      * intros ->. by exists p.
      * intros (p' & [= <-] & Ht). congruence.
    + split; [done | intros (p' & [= <-] & Ht); congruence].
  - split; [done | by intros (p' & ? & _)].
Qed.

Lemma byMember_iff sim r : Resolver.byMember sim r = true <-> sharesMember sim r.
Proof.
  unfold Resolver.byMember, sharesMember.
  destruct (CFRanklistRow.party r) as [p|]; simpl.
  - destruct (CFParty.members p) as [ms|] eqn:Hp; simpl.
    + rewrite existsb_exists. split.
      * intros (m & Hm%list_elem_of_In & Hh%bool_decide_eq_true). by exists p, ms, m.
      * intros (p' & ms' & m & [= <-] & Hms & Hm & Hh).
        assert (ms' = ms) as -> by congruence.
        exists m. split; [by apply list_elem_of_In | by apply bool_decide_eq_true].
    + split; [done | intros (p' & ms' & m & [= <-] & Hms & _); congruence].
  - split; [done | by intros (p' & ms' & m & ? & _)].
Qed.

Lemma find_firstSuch {A} (p : A -> bool) (P : A -> Prop) (l : list A) (r : A) :
  (forall x, p x = true <-> P x) ->
  JS.find p l = Some r <-> firstSuch P l r.
Proof.
  intros Hp. rewrite find_Some. unfold firstSuch.
  split; intros (pre & post & -> & Hr & Hpre); exists pre, post;
    (split; [done|]); (split; [by apply Hp|]);
    eapply Forall_impl; try exact Hpre; intros x Hx; simpl in *.
  - rewrite <- Hp. congruence.
  - rewrite <- Hp in Hx. by destruct (p x).
Qed.

Lemma find_none_of {A} (p : A -> bool) (P : A -> Prop) (l : list A) :
  (forall x, p x = true <-> P x) ->
  JS.find p l = None <-> Forall (fun x => ~ P x) l.
Proof.
  intros Hp. rewrite find_None. apply Forall_iff. intros x.
  rewrite <- Hp. by destruct (p x).
Qed.

Lemma both_iff sim r :
  Resolver.sameStart sim r && Resolver.byMember sim r = true
  <-> startsWith sim r /\ sharesMember sim r.
Proof. by rewrite andb_true_iff, sameStart_iff, byMember_iff. Qed.

Lemma resolveStandings_eq cf call sim cache :
  Resolver.resolveStandings cf call sim cache =
  match standingsFor cf call sim with
  | Some e => <[keyOfSession sim := e]> cache
  | None => cache
  end.
Proof.
  unfold Resolver.resolveStandings, standingsFor.
  destruct (getContestStandings cf call _ _ _ _ _) as [data|e]; simpl; [|done].
  by destruct (Resolver.findTeamRow sim _).
Qed.

Lemma resolveAll_other cf call top cache k :
  k ∉ map keyOfSession top ->
  Resolver.resolveAll cf call top cache !! k = cache !! k.
Proof.
  revert call cache. induction top as [|sim top IH]; intros call cache Hk; simpl; [done|].
  simpl in Hk. apply not_elem_of_cons in Hk as [Hne Hk].
  rewrite IH by done. rewrite resolveStandings_eq.
  destruct (standingsFor cf call sim); [|done]. by rewrite lookup_insert_ne.
Qed.

Lemma resolveAll_lookup cf call top cache i sim :
  NoDup (map keyOfSession top) ->
  top !! i = Some sim ->
  Resolver.resolveAll cf call top cache !! keyOfSession sim =
  match standingsFor cf (call + i) sim with
  | Some e => Some e
  | None => cache !! keyOfSession sim
  end.
Proof.
  revert call cache i. induction top as [|x top IH]; intros call cache i Hnd Hi; [done|].
  simpl in Hnd. apply NoDup_cons in Hnd as [Hx Hnd]. destruct i as [|i]; simpl in *.
  - injection Hi as ->. rewrite Nat.add_0_r, resolveAll_other by done.
    rewrite resolveStandings_eq. destruct (standingsFor cf call sim); [|done].
    by rewrite lookup_insert_eq.
  - rewrite (IH (S call) _ i) by done.
    replace (S call + i)%nat with (call + S i)%nat by lia.
    destruct (standingsFor cf (call + S i) sim); [done|].
    rewrite resolveStandings_eq. destruct (standingsFor cf call x); [|done].
    rewrite lookup_insert_ne; [done|]. intros Heq. apply Hx. rewrite Heq.
    apply list_elem_of_fmap. exists sim. split; [done|].
    by eapply list_elem_of_lookup_2.
Qed.

End Standings.

(** ** Stages C, D and F: selection and shaping *)

Section Shaping.
Implicit Types (sim : SimSession) (g : GymResult) (cache : gmap string StandingsEntry).

Lemma shape_inv handle gymMap cache sim g :
  Resolver.shape handle gymMap cache sim = Ok g ->
  GymResult.rank g = rankOf (cache !! keyOfSession sim)
  /\ GymResult.solved g = solvedOf (cache !! keyOfSession sim)
  /\ GymResult.teamName g = SimSession.teamName sim
  /\ GymResult.members g =
     (if (length (SimSession.members sim) =? 0)%nat then [handle]
      else SimSession.members sim)
  /\ GymResult.link g =
     "https://codeforces.com/gym/" +:+ JS.num (SimSession.contestId sim) +:+ "/standings"
  /\ Resolver.formatSimulatedAt (SimSession.startTimeSeconds sim)
     = Ok (GymResult.simulatedAt g).
Proof.
  unfold Resolver.shape.
  destruct (Resolver.stars _) as [d|e]; simpl; [|discriminate].
  destruct (Resolver.formatSimulatedAt _) as [t|e]; simpl; [|discriminate].
  intros [= <-]. by repeat split.
Qed.

Lemma shape_cache handle gymMap cache cache' sim g :
  Resolver.shape handle gymMap cache sim = Ok g ->
  Resolver.shape handle gymMap cache' sim
    = Ok (withStandings (cache' !! keyOfSession sim) g).
Proof.
  unfold Resolver.shape.
  destruct (Resolver.stars _) as [d|e]; simpl; [|discriminate].
  destruct (Resolver.formatSimulatedAt _) as [t|e]; simpl; [|discriminate].
  by intros [= <-].
Qed.

Lemma withStandings_id handle gymMap cache sim g :
  Resolver.shape handle gymMap cache sim = Ok g ->
  withStandings (cache !! keyOfSession sim) g = g.
Proof.
  intros H. pose proof (shape_cache _ _ _ cache _ _ H) as H'. congruence.
Qed.

Lemma buildGymMap_fold (topIds : gset Z) gymList (m0 : gmap Z CFContest) k c :
  foldl (fun (gymMap : gmap Z CFContest) (gym : CFContest) =>
           if bool_decide (CFContest.id gym ∈ topIds)
           then <[CFContest.id gym := gym]> gymMap else gymMap) m0 gymList !! k = Some c ->
  c ∈ gymList \/ m0 !! k = Some c.
Proof.
  revert m0. induction gymList as [|x l IH]; intros m0; simpl; [by right|].
  intros [Hin|Hm]%IH; [left; by right|].
  destruct (bool_decide _); [|by right].
  destruct (decide (CFContest.id x = k)) as [<-|Hne].
  - rewrite lookup_insert_eq in Hm. injection Hm as ->. left. by left.
  - rewrite lookup_insert_ne in Hm by done. by right.
Qed.

Lemma buildGymMap_lookup topIds gymList k c :
  Resolver.buildGymMap topIds gymList !! k = Some c -> c ∈ gymList.
Proof. by intros [?|?]%buildGymMap_fold. Qed.

Lemma stars_total (diff : option Z) :
  match diff with Some d => 0 <= d <= 5 | None => True end ->
  exists o, Resolver.stars diff = Ok o.
Proof.
  destruct diff as [d|]; simpl; [|by eexists]. intros Hd.
  destruct (d =? 0); [by eexists|]. unfold JS.repeat.
  destruct (d <? 0) eqn:H1; [lia|]. simpl.
  destruct (5 - d <? 0) eqn:H2; [lia|]. simpl. by eexists.
Qed.

Lemma formatSimulatedAt_total (t : Z) :
  Z.abs (t * 1000) <= 8640000000000000 ->
  exists str, Resolver.formatSimulatedAt t = Ok str.
Proof.
  intros Ht. unfold Resolver.formatSimulatedAt, JS.toISOString.
  destruct (Z.abs (t * 1000) <=? 8640000000000000) eqn:H; [|lia].
  destruct (JS.civilFromDays _) as [[y m] d]. simpl. by eexists.
Qed.

Lemma shape_total handle topIds gymList cache sim :
  catalogOk gymList ->
  Z.abs (SimSession.startTimeSeconds sim * 1000) <= 8640000000000000 ->
  exists g, Resolver.shape handle (Resolver.buildGymMap topIds gymList) cache sim = Ok g.
Proof.
  intros Hcat Ht. unfold Resolver.shape.
  destruct (stars_total
              (Resolver.buildGymMap topIds gymList !! SimSession.contestId sim
                 ≫= CFContest.difficulty)) as [o ->].
  { destruct (Resolver.buildGymMap _ _ !! _) as [c|] eqn:Hc; simpl; [|done].
    apply buildGymMap_lookup in Hc. unfold catalogOk in Hcat.
    rewrite Forall_forall in Hcat. apply (Hcat c Hc). }
  destruct (formatSimulatedAt_total _ Ht) as [str ->]. simpl. by eexists.
Qed.

Lemma mapR_total {A B} (f : A -> Result B) (l : list A) :
  Forall (fun x => exists y, f x = Ok y) l -> exists ys, mapR f l = Ok ys.
Proof.
  induction 1 as [|x l [y Hy] _ [ys Hys]]; simpl; [by eexists|].
  rewrite Hy, Hys. simpl. by eexists.
Qed.

Lemma selectTop_NoDup (sessions : JSMap.t SimSession) limit :
  NoDup (JSMap.keys sessions) -> keyed sessions ->
  NoDup (map keyOfSession (Resolver.selectTop sessions limit)).
Proof.
  intros Hnd Hk. unfold Resolver.selectTop.
  destruct (slice0_prefix (JS.sortBy Resolver.newerFirst (JSMap.values sessions)) limit)
    as [rest Hrest].
  assert (NoDup (map keyOfSession (JS.sortBy Resolver.newerFirst (JSMap.values sessions))))
    as Hs.
  { rewrite sortBy_Permutation.
    by rewrite <- keyed_keys. }
  rewrite Hrest, map_app in Hs. by apply NoDup_app in Hs as [? _].
Qed.

Lemma selectTop_sorted (sessions : JSMap.t SimSession) limit :
  StronglySorted
    (fun a b => SimSession.startTimeSeconds b <= SimSession.startTimeSeconds a)
    (Resolver.selectTop sessions limit).
Proof.
  unfold Resolver.selectTop.
  destruct (slice0_prefix (JS.sortBy Resolver.newerFirst (JSMap.values sessions)) limit)
    as [rest Hrest].
  assert (StronglySorted
            (fun a b => SimSession.startTimeSeconds b <= SimSession.startTimeSeconds a)
            (JS.sortBy Resolver.newerFirst (JSMap.values sessions))) as Hs.
  { apply Sorted_StronglySorted; [intros a b c; lia|].
    eapply Sorted_weaken; [|apply (sortBy_Sorted Resolver.newerFirst)].
    - intros a b. unfold Resolver.newerFirst. lia.
    - intros a b. unfold Resolver.newerFirst. lia. }
  rewrite Hrest in Hs. by apply StronglySorted_app_1_l in Hs.
Qed.

Lemma selectTop_length (sessions : JSMap.t SimSession) limit :
  0 <= limit ->
  Z.of_nat (length (Resolver.selectTop sessions limit))
  = Z.min limit (JSMap.size sessions).
Proof.
  intros H. unfold Resolver.selectTop. rewrite slice0_length by done.
  unfold JSMap.size, JSMap.values. by rewrite sortBy_length, length_map.
Qed.

End Shaping.

(** ** The whole request *)

Section Request.
Variables (cf : CFApi) (handle : string) (limit : Z).
Implicit Types (sessions : JSMap.t SimSession) (res : GymSimulationsResult).

Local Abbreviation scan := (Resolver.scanPages cf handle limit Resolver.maxPages 1 JSMap.empty).
Local Abbreviation top sessions := (Resolver.selectTop sessions limit).
Local Abbreviation gymMapOf sessions gymList :=
  (Resolver.buildGymMap (list_to_set (map SimSession.contestId (top sessions))) gymList).

Lemma getGymSimulations_eq sessions :
  scan = Ok sessions ->
  Resolver.getGymSimulations cf handle (Some limit) =
  if JSMap.size sessions =? 0
  then Ok (GymSimulationsResult.mk handle [])
  else
    let* gymList := getContestList cf true in
    let* gyms := mapR (Resolver.shape handle (gymMapOf sessions gymList)
                         (Resolver.resolveAll cf 0 (top sessions) ∅))
                      (top sessions) in
    Ok (GymSimulationsResult.mk handle gyms).
Proof.
  intros H. unfold Resolver.getGymSimulations. cbv zeta.
  change (default 10 (Some limit)) with limit. by rewrite H.
Qed.

Lemma getGymSimulations_scanned res :
  Resolver.getGymSimulations cf handle (Some limit) = Ok res ->
  exists sessions, scan = Ok sessions.
Proof.
  unfold Resolver.getGymSimulations. cbv zeta.
  change (default 10 (Some limit)) with limit.
  destruct scan as [sessions|e]; [by eexists | discriminate].
Qed.

Lemma top_empty sessions : JSMap.size sessions = 0 -> top sessions = [].
Proof.
  unfold JSMap.size. destruct sessions; simpl; [|lia]. intros _.
  unfold Resolver.selectTop, JS.slice0. simpl. by rewrite take_nil.
Qed.

Lemma cache_lookup sessions i sim :
  scan = Ok sessions -> top sessions !! i = Some sim ->
  Resolver.resolveAll cf 0 (top sessions) ∅ !! keyOfSession sim = standingsFor cf i sim.
Proof.
  intros [Hnd Hk]%scanPages_NoDup Hi.
  rewrite (resolveAll_lookup cf 0 _ ∅ i sim); [|by apply selectTop_NoDup | done].
  simpl. by destruct (standingsFor cf i sim).
Qed.

(** The shape of every returned result: the [j]-th result is the [j]-th
    selected session, shaped without standings, with the [rank] and
    [solved] that the [j]-th standings request yields. *)
Lemma gyms_spec sessions res :
  scan = Ok sessions ->
  Resolver.getGymSimulations cf handle (Some limit) = Ok res ->
  GymSimulationsResult.handle res = handle /\
  length (GymSimulationsResult.gyms res) = length (top sessions) /\
  forall j sim, top sessions !! j = Some sim ->
    exists gymList g0,
      getContestList cf true = Ok gymList /\
      Resolver.shape handle (gymMapOf sessions gymList) ∅ sim = Ok g0 /\
      GymSimulationsResult.gyms res !! j
        = Some (withStandings (standingsFor cf j sim) g0).
Proof.
  intros Hscan. rewrite (getGymSimulations_eq _ Hscan).
  destruct (JSMap.size sessions =? 0) eqn:Hsz.
  - intros [= <-]. simpl. rewrite top_empty by lia. by repeat split.
  - destruct (getContestList cf true) as [gymList|e]; simpl; [|discriminate].
    destruct (mapR _ _) as [gyms|e] eqn:Hmap; simpl; [|discriminate].
    intros [= <-]. simpl. apply mapR_Ok in Hmap.
    split; [done|]. split; [symmetry; by eapply Forall2_length|].
    intros j sim Hj.
    destruct (Forall2_lookup_l _ _ _ _ _ Hmap Hj) as (g & Hg & Hshape).
    exists gymList,
      (withStandings ((∅ : gmap string StandingsEntry) !! keyOfSession sim) g).
    split; [done|]. split; [by eapply shape_cache|].
    rewrite Hg. f_equal.
    rewrite <- (withStandings_id _ _ _ _ _ Hshape) at 1.
    by rewrite (cache_lookup _ _ _ Hscan Hj).
Qed.

(** The request returns as soon as the submissions and the catalogue can
    be fetched and shaping does not raise: no standings outcome matters. *)
Lemma getGymSimulations_total sessions gymList :
  scan = Ok sessions ->
  getContestList cf true = Ok gymList ->
  catalogOk gymList ->
  timesOk (top sessions) ->
  exists res, Resolver.getGymSimulations cf handle (Some limit) = Ok res.
Proof.
  intros Hscan Hlist Hcat Htimes. rewrite (getGymSimulations_eq _ Hscan), Hlist. simpl.
  destruct (JSMap.size sessions =? 0); [by eexists|].
  destruct (mapR_total
              (Resolver.shape handle (gymMapOf sessions gymList)
                 (Resolver.resolveAll cf 0 (top sessions) ∅))
              (top sessions)) as [gyms ->]; [|by eexists].
  eapply Forall_impl; [exact Htimes|]. intros sim Hsim. by apply shape_total.
Qed.

End Request.

Lemma getGymSimulations_default (cf : CFApi) (handle : string) :
  Resolver.getGymSimulations cf handle None = Resolver.getGymSimulations cf handle (Some 10).
Proof. reflexivity. Qed.

Lemma scanPages_ext (cf cf' : CFApi) handle limit pages from sessions :
  (forall h c f, getUserSubmissions cf' h c f = getUserSubmissions cf h c f) ->
  Resolver.scanPages cf' handle limit pages from sessions
  = Resolver.scanPages cf handle limit pages from sessions.
Proof.
  intros Hext. revert from sessions.
  induction pages as [|pages IH]; intros from sessions; simpl; [done|].
  rewrite Hext. destruct (getUserSubmissions cf handle Resolver.pageSize from); simpl; [|done].
  by rewrite IH.
Qed.

Lemma standingsFor_failingAt (cf : CFApi) (i j : nat) (e : JsError) (sim : SimSession) :
  standingsFor (failingAt cf i e) j sim
  = if (j =? i)%nat then None else standingsFor cf j sim.
Proof. unfold standingsFor, failingAt. simpl. by destruct (j =? i)%nat. Qed.

Lemma findTeamRow_spec (sim : SimSession) (rows : list CFRanklistRow) :
  (forall r, firstSuch (fun x => startsWith sim x /\ sharesMember sim x) rows r ->
             Resolver.findTeamRow sim rows = Some r)
  /\ (Forall (fun x => ~ (startsWith sim x /\ sharesMember sim x)) rows ->
      forall r, firstSuch (sharesMember sim) rows r ->
                Resolver.findTeamRow sim rows = Some r)
  /\ (Forall (fun x => ~ sharesMember sim x) rows -> Resolver.findTeamRow sim rows = None)
  /\ (forall r, Resolver.findTeamRow sim rows = Some r -> sharesMember sim r).
Proof.
  unfold Resolver.findTeamRow. split; [|split; [|split]].
  - intros r Hr. apply (find_firstSuch _ _ _ _ (both_iff sim)) in Hr. by rewrite Hr.
  - intros Hnone r Hr. apply (find_none_of _ _ _ (both_iff sim)) in Hnone.
    apply (find_firstSuch _ _ _ _ (byMember_iff sim)) in Hr. by rewrite Hnone.
  - intros Hnone.
    assert (Forall (fun x => ~ (startsWith sim x /\ sharesMember sim x)) rows) as Hnone2.
    { eapply Forall_impl; [exact Hnone|]. simpl. tauto. }
    apply (find_none_of _ _ _ (both_iff sim)) in Hnone2.
    apply (find_none_of _ _ _ (byMember_iff sim)) in Hnone. by rewrite Hnone2, Hnone.
  - intros r.
    destruct (JS.find (fun r0 => Resolver.sameStart sim r0 && Resolver.byMember sim r0) rows)
      as [r'|] eqn:Hboth; simpl.
    + intros [= <-]. apply find_Some in Hboth as (_ & _ & _ & Hp & _).
      by apply both_iff in Hp as [_ ?].
    + intros Hr. apply find_Some in Hr as (_ & _ & _ & Hp & _). by apply byMember_iff.
Qed.

(** ** Standings resolution *)

(** C1: for every selected session the standings row used for its result is
    the first row whose party started when the session did and shares a
    member handle with it; without such a row it is the first row sharing a
    member handle; a row that shares no member is never used, whatever its
    start time and position; and when no row shares a member, or the
    standings request fails, the session is still returned, with [rank] and
    [solved] null.  The request itself returns whenever the submissions and
    the catalogue are fetched and shaping raises nothing. *)
Theorem standings_row_is_first_two_key_match
    (cf : CFApi) (handle : string) (limit : Z)
    (sessions : JSMap.t SimSession) (gymList : list CFContest) :
  Resolver.scanPages cf handle limit Resolver.maxPages 1 JSMap.empty = Ok sessions ->
  getContestList cf true = Ok gymList ->
  catalogOk gymList ->
  timesOk (Resolver.selectTop sessions limit) ->
  exists res,
    Resolver.getGymSimulations cf handle (Some limit) = Ok res /\
    forall i sim, Resolver.selectTop sessions limit !! i = Some sim ->
      exists g, GymSimulationsResult.gyms res !! i = Some g /\
        match getContestStandings cf i (SimSession.contestId sim) 1 Resolver.CAP [] true with
        | Throw _ => GymResult.rank g = None /\ GymResult.solved g = None
        | Ok data =>
            let rows := default [] (CFStandingsResponse.rows data) in
            let twoKey r := startsWith sim r /\ sharesMember sim r in
            let reports r :=
              Resolver.findTeamRow sim rows = Some r /\
              GymResult.rank g = Some (JS.num (CFRanklistRow.rank r)) /\
              GymResult.solved g =
                Some (JS.num (Resolver.countSolved r) +:+ "/" +:+
                      JS.num (Z.of_nat (length (default [] (CFStandingsResponse.problems data))))) in
            (forall r, firstSuch twoKey rows r -> reports r)
            /\ (Forall (fun x => ~ twoKey x) rows ->
                forall r, firstSuch (sharesMember sim) rows r -> reports r)
            /\ (Forall (fun x => ~ sharesMember sim x) rows ->
                Resolver.findTeamRow sim rows = None /\
                GymResult.rank g = None /\ GymResult.solved g = None)
            /\ (forall r, Resolver.findTeamRow sim rows = Some r -> sharesMember sim r)
        end.
Proof.
  intros Hscan Hlist Hcat Htimes.
  destruct (getGymSimulations_total cf handle limit sessions gymList Hscan Hlist Hcat Htimes)
    as [res Hres].
  exists res. split; [done|]. intros i sim Hi.
  destruct (gyms_spec cf handle limit sessions res Hscan Hres) as (_ & _ & Hgyms).
  destruct (Hgyms i sim Hi) as (gymList' & g0 & _ & _ & Hg).
  eexists. split; [exact Hg|]. unfold standingsFor.
  destruct (getContestStandings cf i _ _ _ _ _) as [data|e]; [|done].
  destruct (findTeamRow_spec sim (default [] (CFStandingsResponse.rows data)))
    as (Hfirst & Hfallback & Hnone & Hmember).
  cbv zeta. split; [|split; [|split]].
  - intros r Hr. rewrite (Hfirst r Hr). by repeat split.
  - intros Hno r Hr. rewrite (Hfallback Hno r Hr). by repeat split.
  - intros Hno. rewrite (Hnone Hno). by repeat split.
  - exact Hmember.
Qed.

Lemma standings_row_is_first_two_key_match_witness :
  exists res,
    Resolver.getGymSimulations Fixtures.happyPath "automac" (Some 10) = Ok res /\
    exists g, GymSimulationsResult.gyms res !! 0%nat = Some g /\
              GymResult.rank g = Some "177" /\ GymResult.solved g = Some "6/12".
Proof.
  destruct (standings_row_is_first_two_key_match
              Fixtures.happyPath "automac" 10 Runs.oneSession Fixtures.GYM_LIST)
    as (res & Hres & Hall).
  - vm_compute. reflexivity.
  - reflexivity.
  - repeat constructor; simpl; lia.
  - repeat constructor. vm_compute. discriminate.
  - exists res. split; [exact Hres|].
    destruct (Hall 0%nat (Runs.ourSession 105789 Fixtures.T1)) as (g & Hg & Hrow).
    + vm_compute. reflexivity.
    + exists g. split; [exact Hg|]. simpl in Hrow.
      destruct Hrow as (Hfirst & _).
      destruct (Hfirst (Fixtures.row 177 Fixtures.T1 ["automac"; "elpepe123"; "juancs"]
                          (Fixtures.solvedFirst 6))) as (_ & Hrank & Hsolved).
      * exists [Fixtures.row 120 Fixtures.T1 ["user_x"; "user_y"] (Fixtures.solvedFirst 7)],
               [Fixtures.row 350 (Fixtures.T1 - 999) ["last_team"] (Some [])].
        split; [reflexivity|]. split.
        -- apply both_iff. vm_compute. reflexivity.
        -- constructor; [|constructor]. intros H%both_iff. vm_compute in H. discriminate.
      * split; [exact Hrank | exact Hsolved].
Defined.

(** ** Ordering and truncation of the result *)

(** C4, amended: for a non-negative [limit], the results follow the selected
    sessions, which are in descending order of [startTimeSeconds] (sessions
    of different gyms may share a start time, so the order is not strict),
    and there are exactly [min(limit, number of sessions found)] of them,
    the sessions found having pairwise distinct identities; a scan that
    finds no session returns the empty list, whatever the catalogue and
    standings requests would do. *)
Theorem gyms_newest_first_and_truncated
    (cf : CFApi) (handle : string) (limit : Z) (sessions : JSMap.t SimSession) :
  0 <= limit ->
  Resolver.scanPages cf handle limit Resolver.maxPages 1 JSMap.empty = Ok sessions ->
  (JSMap.size sessions = 0 ->
   Resolver.getGymSimulations cf handle (Some limit)
   = Ok (GymSimulationsResult.mk handle []))
  /\ forall res, Resolver.getGymSimulations cf handle (Some limit) = Ok res ->
       NoDup (map idOfSession (JSMap.values sessions))
       /\ Z.of_nat (length (GymSimulationsResult.gyms res))
          = Z.min limit (JSMap.size sessions)
       /\ StronglySorted
            (fun a b => SimSession.startTimeSeconds b <= SimSession.startTimeSeconds a)
            (Resolver.selectTop sessions limit)
       /\ forall j sim, Resolver.selectTop sessions limit !! j = Some sim ->
            exists g, GymSimulationsResult.gyms res !! j = Some g
              /\ GymResult.link g =
                 "https://codeforces.com/gym/" +:+ JS.num (SimSession.contestId sim)
                   +:+ "/standings"
              /\ Resolver.formatSimulatedAt (SimSession.startTimeSeconds sim)
                 = Ok (GymResult.simulatedAt g).
Proof.
  intros Hlimit Hscan. split.
  - intros Hsz. rewrite (getGymSimulations_eq _ _ _ _ Hscan), Hsz. done.
  - intros res Hres.
    destruct (scanPages_NoDup _ _ _ _ Hscan) as [Hnd Hk].
    destruct (gyms_spec cf handle limit sessions res Hscan Hres) as (_ & Hlen & Hgyms).
    split; [by apply scan_values_ids|]. split; [|split].
    + rewrite Hlen. by apply selectTop_length.
    + apply selectTop_sorted.
    + intros j sim Hj. destruct (Hgyms j sim Hj) as (gymList & g0 & _ & Hshape & Hg).
      eexists. split; [exact Hg|].
      apply shape_inv in Hshape as (_ & _ & _ & _ & Hlink & Hat). by split.
Qed.

Lemma gyms_newest_first_and_truncated_witness :
  exists res,
    Resolver.getGymSimulations Runs.twoSims "automac" (Some 1) = Ok res /\
    Z.of_nat (length (GymSimulationsResult.gyms res)) = 1.
Proof.
  destruct (gyms_newest_first_and_truncated Runs.twoSims "automac" 1 Runs.twoSessions)
    as [_ Hres].
  - lia.
  - vm_compute. reflexivity.
  - eexists. split; [vm_compute; reflexivity|].
    eapply Hres. vm_compute. reflexivity.
Defined.

(** C4 as stated fails twice.  Two sessions of different gyms started in the
    same second are both returned, so the order is not strictly descending;
    and a negative [limit] drops sessions from the end of the list instead
    of bounding its length by [limit]. *)
Lemma strictly_descending_min_limit_fails :
  (Resolver.scanPages Runs.tied "automac" 10 Resolver.maxPages 1 JSMap.empty
     = Ok Runs.tiedSessions
   /\ Resolver.selectTop Runs.tiedSessions 10
      = [Runs.ourSession 105789 Fixtures.T1; Runs.ourSession 106193 Fixtures.T1]
   /\ (exists res, Resolver.getGymSimulations Runs.tied "automac" (Some 10) = Ok res
                   /\ length (GymSimulationsResult.gyms res) = 2%nat)
   /\ ~ StronglySorted
          (fun a b => SimSession.startTimeSeconds b < SimSession.startTimeSeconds a)
          (Resolver.selectTop Runs.tiedSessions 10))
  /\ (Resolver.scanPages Runs.twoSims "automac" (-1) Resolver.maxPages 1 JSMap.empty
        = Ok Runs.twoSessions
      /\ (exists res, Resolver.getGymSimulations Runs.twoSims "automac" (Some (-1)) = Ok res
                      /\ Z.of_nat (length (GymSimulationsResult.gyms res)) = 1)
      /\ Z.min (-1) (JSMap.size Runs.twoSessions) = -1).
Proof.
  split; [split; [|split; [|split]] | split; [|split]].
  - vm_compute. reflexivity.
  - vm_compute. reflexivity.
  - eexists. split; vm_compute; reflexivity.
  - replace (Resolver.selectTop Runs.tiedSessions 10)
      with [Runs.ourSession 105789 Fixtures.T1; Runs.ourSession 106193 Fixtures.T1]
      by (vm_compute; reflexivity).
    intros H. apply StronglySorted_inv in H as [_ H].
    apply Forall_inv in H. simpl in H. lia.
  - vm_compute. reflexivity.
  - eexists. split; vm_compute; reflexivity.
  - reflexivity.
Qed.

(** ** Failure isolation and the members fallback *)

(** C8: let the standings request of the [i]-th selected session reject.
    Whenever the submissions and the catalogue are fetched and shaping
    raises nothing, the request still returns, with one result for every
    selected session, in order: the result of the [i]-th session is that
    session's, with [rank] and [solved] null, and the result of every other
    session carries the rank and solved count its own standings give.
    Compared with a run in which that request does not reject, there are as
    many results as before, every other result is unchanged, and the
    [i]-th result is the same one with [rank] and [solved] null. *)
Theorem standings_failure_is_isolated
    (cf : CFApi) (handle : string) (limit : Z) (i : nat) (e : JsError)
    (sessions : JSMap.t SimSession) :
  Resolver.scanPages cf handle limit Resolver.maxPages 1 JSMap.empty = Ok sessions ->
  let top := Resolver.selectTop sessions limit in
  let failing := failingAt cf i e in
  (forall gymList,
     getContestList cf true = Ok gymList -> catalogOk gymList -> timesOk top ->
     exists res',
       Resolver.getGymSimulations failing handle (Some limit) = Ok res'
       /\ length (GymSimulationsResult.gyms res') = length top
       /\ forall j sim, top !! j = Some sim ->
            exists g', GymSimulationsResult.gyms res' !! j = Some g'
              /\ GymResult.link g'
                 = "https://codeforces.com/gym/" +:+ JS.num (SimSession.contestId sim)
                   +:+ "/standings"
              /\ Resolver.formatSimulatedAt (SimSession.startTimeSeconds sim)
                 = Ok (GymResult.simulatedAt g')
              /\ GymResult.teamName g' = SimSession.teamName sim
              /\ (j = i -> GymResult.rank g' = None /\ GymResult.solved g' = None)
              /\ (j <> i ->
                  GymResult.rank g' = rankOf (standingsFor cf j sim)
                  /\ GymResult.solved g' = solvedOf (standingsFor cf j sim)))
  /\ (forall res,
        Resolver.getGymSimulations cf handle (Some limit) = Ok res ->
        exists res',
          Resolver.getGymSimulations failing handle (Some limit) = Ok res'
          /\ GymSimulationsResult.handle res' = GymSimulationsResult.handle res
          /\ length (GymSimulationsResult.gyms res) = length top
          /\ length (GymSimulationsResult.gyms res') = length top
          /\ (forall j, j <> i ->
                GymSimulationsResult.gyms res' !! j = GymSimulationsResult.gyms res !! j)
          /\ (forall sim, top !! i = Some sim ->
                exists g g',
                  GymSimulationsResult.gyms res !! i = Some g
                  /\ GymSimulationsResult.gyms res' !! i = Some g'
                  /\ g' = withStandings None g
                  /\ GymResult.rank g' = None /\ GymResult.solved g' = None)).
Proof.
  intros Hscan top failing. subst top failing.
  assert (Resolver.scanPages (failingAt cf i e) handle limit Resolver.maxPages 1 JSMap.empty
          = Ok sessions) as Hscan'.
  { rewrite <- Hscan. by apply scanPages_ext. }
  split.
  - intros gymList Hlist Hcat Htimes.
    destruct (getGymSimulations_total (failingAt cf i e) handle limit sessions gymList
                Hscan' Hlist Hcat Htimes) as [res' Hres'].
    exists res'. split; [done|].
    destruct (gyms_spec (failingAt cf i e) handle limit sessions res' Hscan' Hres')
      as (_ & Hlen' & Hgyms').
    split; [exact Hlen'|]. intros j sim Hj.
    destruct (Hgyms' j sim Hj) as (gymList' & g0 & _ & Hshape & Hg).
    eexists. split; [exact Hg|]. rewrite standingsFor_failingAt.
    apply shape_inv in Hshape as (_ & _ & Hteam & _ & Hlink & Hat).
    cbn [withStandings GymResult.link GymResult.simulatedAt GymResult.teamName
         GymResult.rank GymResult.solved].
    split; [exact Hlink|]. split; [exact Hat|]. split; [exact Hteam|].
    destruct (Nat.eqb_spec j i) as [Heq|Hne]; split; intros ?; done.
  - intros res Hres.
    destruct (gyms_spec cf handle limit sessions res Hscan Hres) as (Hh & Hlen & Hgyms).
    assert (exists res', Resolver.getGymSimulations (failingAt cf i e) handle (Some limit) = Ok res')
      as [res' Hres'].
    { rewrite (getGymSimulations_eq _ _ _ _ Hscan').
      pose proof Hres as Hrun. rewrite (getGymSimulations_eq _ _ _ _ Hscan) in Hrun.
      destruct (JSMap.size sessions =? 0); [by eexists|].
      change (getContestList (failingAt cf i e) true) with (getContestList cf true).
      destruct (getContestList cf true) as [gymList|err]; simpl in *; [|discriminate].
      destruct (mapR _ (Resolver.selectTop sessions limit)) as [gyms|err] eqn:Hmap in Hrun;
        simpl in Hrun; [|discriminate].
      apply mapR_Ok in Hmap.
      edestruct (mapR_total
        (Resolver.shape handle
           (Resolver.buildGymMap
              (list_to_set (map SimSession.contestId (Resolver.selectTop sessions limit)))
              gymList)
           (Resolver.resolveAll (failingAt cf i e) 0 (Resolver.selectTop sessions limit) ∅))
        (Resolver.selectTop sessions limit)) as [gyms' Hgyms'].
      - apply Forall_lookup. intros j sim Hj.
        destruct (Forall2_lookup_l _ _ _ _ _ Hmap Hj) as (g & _ & Hshape).
        eexists. by eapply shape_cache.
      - rewrite Hgyms'. simpl. by eexists. }
    exists res'. split; [done|].
    destruct (gyms_spec (failingAt cf i e) handle limit sessions res' Hscan' Hres')
      as (Hh' & Hlen' & Hgyms').
    split; [congruence|]. split; [exact Hlen|]. split; [exact Hlen'|].
    assert (forall j sim,
              Resolver.selectTop sessions limit !! j = Some sim ->
              exists g,
                GymSimulationsResult.gyms res !! j = Some g
                /\ GymSimulationsResult.gyms res' !! j
                   = Some (withStandings
                             (if (j =? i)%nat then None else standingsFor cf j sim) g))
      as Hat.
    { intros j sim Hj.
      destruct (Hgyms j sim Hj) as (gymList & g0 & Hlist & Hshape & Hg0).
      destruct (Hgyms' j sim Hj) as (gymList' & g0' & Hlist' & Hshape' & Hg0').
      change (getContestList (failingAt cf i e) true) with (getContestList cf true) in Hlist'.
      assert (gymList' = gymList) as -> by congruence.
      assert (g0' = g0) as -> by congruence.
      eexists. split; [exact Hg0|]. by rewrite Hg0', standingsFor_failingAt. }
    split.
    + intros j Hji.
      destruct (Resolver.selectTop sessions limit !! j) as [sim|] eqn:Hj.
      * destruct (Hat j sim Hj) as (g & Hg & Hg').
        destruct (Hgyms j sim Hj) as (gymList & g0 & _ & _ & Hg0).
        rewrite Hg', Hg. destruct (Nat.eqb_spec j i) as [?|_]; [done|].
        assert (g = withStandings (standingsFor cf j sim) g0) as -> by congruence. done.
      * apply lookup_ge_None in Hj.
        rewrite (proj2 (lookup_ge_None _ _)) by lia.
        by rewrite (proj2 (lookup_ge_None _ _)) by lia.
    + intros sim Hi. destruct (Hat i sim Hi) as (g & Hg & Hg').
      rewrite Nat.eqb_refl in Hg'. by exists g, (withStandings None g).
Qed.

Lemma standings_failure_is_isolated_witness :
  exists res',
    Resolver.getGymSimulations
      (failingAt Runs.twoSims 0 (mkError None (Some "CF API error")))
      "automac" (Some 10) = Ok res'
    /\ length (GymSimulationsResult.gyms res') = 2%nat
    /\ (exists failed,
          GymSimulationsResult.gyms res' !! 0%nat = Some failed
          /\ GymResult.link failed = "https://codeforces.com/gym/105789/standings"
          /\ GymResult.rank failed = None /\ GymResult.solved failed = None)
    /\ (exists other,
          GymSimulationsResult.gyms res' !! 1%nat = Some other
          /\ GymResult.link other = "https://codeforces.com/gym/106193/standings"
          /\ GymResult.rank other
             = rankOf (standingsFor Runs.twoSims 1
                         (Runs.ourSession 106193 Fixtures.T2))).
Proof.
  destruct (proj1 (standings_failure_is_isolated
                     Runs.twoSims "automac" 10 0 (mkError None (Some "CF API error"))
                     Runs.twoSessions eq_refl)
              Fixtures.GYM_LIST eq_refl)
    as (res' & Hres' & Hlen & Hall).
  - repeat constructor; simpl; lia.
  - repeat constructor; vm_compute; discriminate.
  - exists res'. split; [exact Hres'|]. split; [exact Hlen|]. split.
    + destruct (Hall 0%nat (Runs.ourSession 105789 Fixtures.T1) eq_refl)
        as (g' & Hg' & Hlink & _ & _ & Hnull & _).
      exists g'. destruct (Hnull eq_refl) as [Hrank Hsolved]. by repeat split.
    + destruct (Hall 1%nat (Runs.ourSession 106193 Fixtures.T2) eq_refl)
        as (g' & Hg' & Hlink & _ & _ & _ & Hkeeps).
      exists g'. destruct Hkeeps as [Hrank _]; [lia|]. by repeat split.
Defined.

(** C9: every returned result has a non-empty [members] list; the result of
    a session without member handles lists the requesting handle alone, and
    otherwise the session's members. *)
Theorem members_never_empty
    (cf : CFApi) (handle : string) (limit : Z) (res : GymSimulationsResult) :
  Resolver.getGymSimulations cf handle (Some limit) = Ok res ->
  Forall (fun g => GymResult.members g <> []) (GymSimulationsResult.gyms res)
  /\ exists sessions,
       Resolver.scanPages cf handle limit Resolver.maxPages 1 JSMap.empty = Ok sessions
       /\ length (GymSimulationsResult.gyms res)
          = length (Resolver.selectTop sessions limit)
       /\ forall j sim, Resolver.selectTop sessions limit !! j = Some sim ->
            exists g, GymSimulationsResult.gyms res !! j = Some g
              /\ (SimSession.members sim = [] -> GymResult.members g = [handle])
              /\ (SimSession.members sim <> [] ->
                  GymResult.members g = SimSession.members sim).
Proof.
  intros Hres.
  destruct (getGymSimulations_scanned _ _ _ _ Hres) as [sessions Hscan].
  destruct (gyms_spec cf handle limit sessions res Hscan Hres) as (_ & Hlen & Hgyms).
  assert (forall j sim, Resolver.selectTop sessions limit !! j = Some sim ->
            exists g, GymSimulationsResult.gyms res !! j = Some g
              /\ (SimSession.members sim = [] -> GymResult.members g = [handle])
              /\ (SimSession.members sim <> [] ->
                  GymResult.members g = SimSession.members sim)) as Hat.
  { intros j sim Hj. destruct (Hgyms j sim Hj) as (gymList & g0 & _ & Hshape & Hg).
    eexists. split; [exact Hg|].
    apply shape_inv in Hshape as (_ & _ & _ & Hm & _). simpl. rewrite Hm.
    destruct (SimSession.members sim); simpl; split; done. }
  split; [|by exists sessions].
  apply Forall_lookup. intros j g Hg.
  destruct (Resolver.selectTop sessions limit !! j) as [sim|] eqn:Hj.
  - destruct (Hat j sim Hj) as (g' & Hg' & Hnil & Hcons).
    assert (g' = g) as -> by congruence.
    destruct (SimSession.members sim) as [|m ms] eqn:Hms.
    + by rewrite Hnil.
    + by rewrite Hcons.
  - apply lookup_ge_None in Hj. apply lookup_lt_Some in Hg. lia.
Qed.

Lemma members_never_empty_witness :
  exists res,
    Resolver.getGymSimulations Solo.solo "solo_user" (Some 10) = Ok res /\
    Forall (fun g => GymResult.members g <> []) (GymSimulationsResult.gyms res) /\
    (GymResult.members <$> GymSimulationsResult.gyms res !! 0%nat) = Some ["solo_user"].
Proof.
  eexists.
  edestruct (members_never_empty Solo.solo "solo_user" 10) as (Hall & sessions & Hscan & _ & Hat).
  - vm_compute. reflexivity.
  - split; [reflexivity|]. split; [exact Hall|]. vm_compute. reflexivity.
Defined.

(** ** History trimming *)

Section Trim.
Variable heap : Heap.
Implicit Types (msgs : list ref).

Lemma pairs_ind (P : list ref -> Prop) :
  P [] -> (forall x, P [x]) -> (forall x y l, P l -> P (x :: y :: l)) ->
  forall l, P l.
Proof.
  intros H0 H1 H2 l. cut (P l /\ forall x, P (x :: l)); [tauto|].
  induction l as [|y l [IH1 IH2]]; split; auto.
Qed.



Lemma flat_length (pairs : list (ref * ref)) :
  length (History.flat pairs) = (2 * length pairs)%nat.
Proof. unfold History.flat. induction pairs; simpl; lia. Qed.


Lemma trimHistory_eq msgs :
  exists tail,
    History.trimHistory heap msgs
    = map Some (History.flat (JS.sliceLast History.MAX_HISTORY_TURNS
                                           (History.pairsOf heap msgs))) ++ tail
    /\ (tail = [] \/ tail = [last msgs])
    /\ last (History.trimHistory heap msgs) = Some (last msgs).
Proof.
  unfold History.trimHistory. cbv zeta.
  destruct (_ || _) eqn:Hcond.
  - exists [last msgs]. split; [done|]. split; [by right|]. by rewrite last_snoc.
  - exists []. split; [by rewrite app_nil_r|]. split; [by left|].
    apply orb_false_iff in Hcond as [_ Hlast].
    apply negb_false_iff, bool_decide_eq_true in Hlast. done.
Qed.

Lemma last_defined msgs : msgs <> [] -> exists r, last msgs = Some r.
Proof.
  intros H. destruct (last msgs) as [r|] eqn:Hl; [by eexists|].
  by apply last_None in Hl.
Qed.

Lemma trimHistory_defined msgs :
  msgs <> [] -> Forall is_Some (History.trimHistory heap msgs).
Proof.
  intros [r Hr]%last_defined.
  destruct (trimHistory_eq msgs) as (tail & -> & Htail & _).
  apply Forall_app. split.
  - apply Forall_forall. intros x Hx. apply list_elem_of_In in Hx.
    apply in_map_iff in Hx as (y & <- & _). by eexists.
  - destruct Htail as [->| ->]; [constructor|]. rewrite Hr. by repeat constructor.
Qed.

End Trim.



(** ** The retry wrapper *)

Section Retry.
Variable open : nat -> Agent.Attempt.

Lemma append_cons (c : ascii) (s t : string) : String c s +:+ t = String c (s +:+ t).
Proof. reflexivity. Qed.

Lemma prefix_spec (p s : string) :
  String.prefix p s = true <-> exists post, s = p +:+ post.
Proof.
  revert s. induction p as [|c p IH]; intros s; simpl.
  - destruct s; split; eauto.
  - destruct s as [|d s]; simpl.
    + split; [discriminate | by intros [post ?]].
    + destruct (Ascii.ascii_dec c d) as [->|Hne].
      * rewrite IH.
        split; intros [post Hp]; exists post; rewrite append_cons in *; congruence.
      * split; [discriminate | intros [post Hp]; rewrite append_cons in Hp; congruence].
Qed.

Lemma includes_spec (needle s : string) :
  JS.includes needle s = true <-> exists pre post, s = pre +:+ needle +:+ post.
Proof.
  assert (forall t, JS.includes needle t
                    = String.prefix needle t
                      || match t with
                         | EmptyString => false
                         | String _ t' => JS.includes needle t'
                         end) as Hunfold by (by intros []).
  induction s as [|c s IH]; rewrite Hunfold.
  - rewrite orb_false_r, prefix_spec. split.
    + intros [post Hp]. by exists EmptyString, post.
    + intros (pre & post & Hp). destruct pre; [by exists post|discriminate].
  - rewrite orb_true_iff, prefix_spec, IH. split.
    + intros [[post Hp]|(pre & post & ->)].
      * by exists EmptyString, post.
      * by exists (String c pre), post.
    + intros (pre & post & Hp). destruct pre as [|d pre].
      * left. by exists post.
      * right. rewrite append_cons in Hp. injection Hp as -> ->. by exists pre, post.
Qed.

Lemma is429_spec (e : JsError) :
  Agent.is429 e = true <->
  status e = Some 429
  \/ exists m pre post, message e = Some m /\ m = pre +:+ "rate_limit" +:+ post.
Proof.
  unfold Agent.is429. rewrite orb_true_iff. split.
  - intros [Hs|Hm].
    + left. destruct (status e) as [s|]; [|done]. apply Z.eqb_eq in Hs. by subst.
    + right. destruct (message e) as [m|]; [|done].
      apply includes_spec in Hm as (pre & post & ->). by eexists _, pre, post.
  - intros [Hs|(m & pre & post & Hm & ->)].
    + left. by rewrite Hs.
    + right. rewrite Hm. apply includes_spec. by exists pre, post.
Qed.

Lemma attemptSteps_first call attempt n :
  (1 <= n)%nat ->
  attemptSteps open call attempt (S n) 0 =
  map (fun e => Agent.Yield e call) (Agent.events (open call))
  ++ [Agent.Emit (Agent.Write (Agent.retrying (Agent.waitSecondsFor attempt)));
      Agent.Emit (Agent.Sleep (Agent.waitSecondsFor attempt * 1000))].
Proof.
  intros Hn. unfold attemptSteps. rewrite !Nat.add_0_r.
  by destruct (Nat.ltb_spec 1 (S n)) as [_|?]; [|lia].
Qed.

Lemma attemptSteps_next call attempt n k :
  attemptSteps open call attempt (S n) (S k)
  = attemptSteps open (S call) (S attempt) n k.
Proof.
  unfold attemptSteps.
  replace (call + S k)%nat with (S call + k)%nat by lia.
  replace (attempt + S k)%nat with (S attempt + k)%nat by lia.
  done.
Qed.

(** The loop, attempt by attempt. *)
Lemma retryLoop_spec maxRetries remaining attempt call :
  (attempt + remaining = S maxRetries)%nat ->
  let run := Agent.retryLoop open maxRetries remaining attempt call in
  let n := Agent.opened run in
  (remaining <> 0%nat -> 1 <= n <= remaining)%nat
  /\ Agent.steps run = concat (map (attemptSteps open call attempt n) (seq 0 n))
  /\ (forall k, (S k < n)%nat ->
        exists err, Agent.failure (open (call + k)%nat) = Some err
                    /\ Agent.is429 err = true)
  /\ (remaining <> 0%nat ->
      match Agent.failure (open (call + (n - 1))%nat) with
      | None => Agent.outcome run = Ok tt
      | Some err =>
          Agent.outcome run = Throw err
          /\ (Agent.is429 err = false \/ (attempt + n = S maxRetries)%nat)
      end).
Proof.
  revert attempt call. induction remaining as [|r IH]; intros attempt call Hsum.
  - simpl. repeat split; try done. intros k Hk. lia.
  - cbn [Agent.retryLoop]. cbv zeta.
    destruct (Agent.failure (open call)) as [err|] eqn:Hfail.
    + destruct (Agent.is429 err && (attempt <? maxRetries)%nat) eqn:Hretry.
      * apply andb_true_iff in Hretry as [H429 Hlt%Nat.ltb_lt].
        destruct (IH (S attempt) (S call)) as (Hn & Hsteps & Hprev & Hlast); [lia|].
        cbn [Agent.steps Agent.outcome Agent.opened].
        set (rest := Agent.retryLoop open maxRetries r (S attempt) (S call)) in *.
        assert (1 <= Agent.opened rest <= r)%nat as Hn' by (apply Hn; lia).
        split; [lia|]. split; [|split].
        -- rewrite Hsteps. cbn [seq map concat].
           rewrite attemptSteps_first by lia.
           rewrite <- seq_shift, map_map, <- app_assoc. do 3 f_equal.
           apply map_ext. intros k. symmetry. apply attemptSteps_next.
        -- intros [|k] Hk.
           ++ rewrite Nat.add_0_r. by exists err.
           ++ destruct (Hprev k) as (err' & Herr' & H'); [lia|].
              exists err'. split; [|done].
              by replace (call + S k)%nat with (S call + k)%nat by lia.
        -- intros _.
           replace (call + (S (Agent.opened rest) - 1))%nat
             with (S call + (Agent.opened rest - 1))%nat by lia.
           specialize (Hlast ltac:(lia)). revert Hlast.
           destruct (Agent.failure (open (S call + (Agent.opened rest - 1))))
             as [err'|]; [|done].
           intros [Hout [Hno|Hend]]; (split; [done|]); [by left | right; lia].
      * cbn [Agent.steps Agent.outcome Agent.opened]. split; [lia|]. split; [|split].
        -- cbn [seq map concat]. unfold attemptSteps. simpl.
           by rewrite Nat.add_0_r, !app_nil_r.
        -- intros k Hk. lia.
        -- intros _. simpl. rewrite Nat.add_0_r, Hfail. split; [done|].
           apply andb_false_iff in Hretry as [?|Hge%Nat.ltb_ge]; [by left | right; lia].
    + cbn [Agent.steps Agent.outcome Agent.opened]. split; [lia|]. split; [|split].
      * cbn [seq map concat]. unfold attemptSteps. simpl.
        by rewrite Nat.add_0_r, !app_nil_r.
      * intros k Hk. lia.
      * intros _. simpl. by rewrite Nat.add_0_r, Hfail.
Qed.

End Retry.

(** C3: [streamEventsWithRetry] opens at least one and at most
    [maxRetries + 1] streams (3 + 1 by default); every attempt but the last
    failed with a rate-limit error (status 429, or a message containing
    ["rate_limit"]); a failure that is not a rate-limit error ends the run
    at once and is re-thrown, as is a rate-limit failure of the attempt with
    index [maxRetries]; a rate-limit failure of an earlier attempt is
    followed by another attempt; and between attempt [k] and the next the
    generator writes [retrying] with [waitSeconds = min(60, 15 * (k + 1))]
    and then waits [waitSeconds * 1000] milliseconds, and does nothing
    else of its own. *)
Theorem retry_only_on_rate_limit (open : nat -> Agent.Attempt) (first maxRetries : nat) :
  let run := Agent.streamEventsWithRetry open first (Some maxRetries) in
  let n := Agent.opened run in
  (1 <= n <= maxRetries + 1)%nat
  /\ Agent.streamEventsWithRetry open first None
     = Agent.streamEventsWithRetry open first (Some 3%nat)
  /\ (forall k, (S k < n)%nat ->
        exists err, Agent.failure (open (first + k)%nat) = Some err
                    /\ Agent.is429 err = true)
  /\ (forall k err, (k < n)%nat ->
        Agent.failure (open (first + k)%nat) = Some err -> Agent.is429 err = false ->
        S k = n /\ Agent.outcome run = Throw err)
  /\ (forall k err, (k < n)%nat ->
        Agent.failure (open (first + k)%nat) = Some err -> Agent.is429 err = true ->
        (k < maxRetries)%nat -> (S k < n)%nat)
  /\ (forall err, n = S maxRetries ->
        Agent.failure (open (first + maxRetries)%nat) = Some err ->
        Agent.outcome run = Throw err)
  /\ (forall k, (k < n)%nat -> Agent.failure (open (first + k)%nat) = None ->
        S k = n /\ Agent.outcome run = Ok tt)
  /\ Agent.steps run =
     concat (map (fun k =>
                    map (fun e => Agent.Yield e (first + k)%nat)
                        (Agent.events (open (first + k)%nat))
                    ++ (if (S k <? n)%nat
                        then [Agent.Emit (Agent.Write
                                (Agent.retrying (Z.min 60 (15 * (Z.of_nat k + 1)))));
                              Agent.Emit (Agent.Sleep
                                (Z.min 60 (15 * (Z.of_nat k + 1)) * 1000))]
                        else []))
                 (seq 0 n))
  /\ (forall e, Agent.is429 e = true <->
        status e = Some 429
        \/ exists m pre post, message e = Some m /\ m = pre +:+ "rate_limit" +:+ post).
Proof.
  intros run n.
  assert (run = Agent.retryLoop open maxRetries (S maxRetries) 0 first) as Hrun
    by reflexivity.
  destruct (retryLoop_spec open maxRetries (S maxRetries) 0 first eq_refl)
    as (Hn & Hsteps & Hprev & Hlast).
  rewrite <- Hrun in Hn, Hsteps, Hprev, Hlast. clear Hrun. subst n.
  specialize (Hn ltac:(done)). specialize (Hlast ltac:(done)).
  assert (forall n k, (k < n)%nat -> ~ (S k < n)%nat -> k = (n - 1)%nat) as Hend by lia.
  split; [lia|]. split; [done|]. split; [done|].
  split; [|split; [|split; [|split; [|split]]]].
  - intros k err Hk Hfail Hno.
    destruct (decide (S k < Agent.opened run)%nat) as [Hlt|Hge].
    { destruct (Hprev k Hlt) as (err' & Hfail' & H429). congruence. }
    rewrite <- (Hend _ k Hk Hge), Hfail in Hlast. split; [lia | by destruct Hlast].
  - intros k err Hk Hfail H429 Hlt.
    destruct (decide (S k < Agent.opened run)%nat) as [?|Hge]; [done|]. exfalso.
    rewrite <- (Hend _ k Hk Hge), Hfail in Hlast. destruct Hlast as [_ [?|?]]; [congruence|lia].
  - intros err Hn' Hfail.
    replace (first + (Agent.opened run - 1))%nat with (first + maxRetries)%nat
      in Hlast by lia.
    rewrite Hfail in Hlast. by destruct Hlast.
  - intros k Hk Hok.
    destruct (decide (S k < Agent.opened run)%nat) as [Hlt|Hge].
    { destruct (Hprev k Hlt) as (err' & Hfail' & _). congruence. }
    rewrite <- (Hend _ k Hk Hge), Hok in Hlast. split; [lia | done].
  - rewrite Hsteps. done.
  - apply is429_spec.
Qed.

(** ** The agent loop *)

Section Loop.
Variables (w : Agent.World) (model : string).

Lemma retryLoop_quiet open maxRetries remaining attempt call :
  Forall quietStep (Agent.steps (Agent.retryLoop open maxRetries remaining attempt call)).
Proof.
  revert attempt call. induction remaining as [|r IH]; intros attempt call; simpl.
  - constructor.
  - assert (Forall quietStep
              (map (fun e => Agent.Yield e call) (Agent.events (open call)))) as Hy.
    { apply Forall_forall. intros x Hx%list_elem_of_In.
      by apply in_map_iff in Hx as (e & <- & _). }
    destruct (Agent.failure (open call)) as [err|]; [|done].
    destruct (_ && _); [|done]. simpl.
    apply Forall_app. split; [done|]. repeat constructor. apply IH.
Qed.

Lemma onYield_quiet ts event s : Forall nonTerminal (snd (Agent.onYield w ts event s)).
Proof.
  destruct event as [[id name|]|[content|partial|]| |stop|]; simpl;
    try destruct (Agent.currentToolUse ts); simpl; by repeat constructor.
Qed.

Lemma consume_quiet ts steps :
  Forall quietStep steps -> Forall nonTerminal (snd (Agent.consume w ts steps)).
Proof.
  intros H. revert ts. induction H as [|[event s|e] steps Hq _ IH]; intros ts; simpl.
  - constructor.
  - pose proof (onYield_quiet ts event s) as Hy.
    destruct (Agent.onYield w ts event s) as [ts1 out].
    specialize (IH ts1). destruct (Agent.consume w ts1 steps) as [ts2 out'].
    simpl in *. by apply Forall_app.
  - specialize (IH ts). destruct (Agent.consume w ts steps) as [ts2 out'].
    simpl in *. by constructor.
Qed.

Lemma runTools_quiet n tools : Forall nonTerminal (fst (Agent.runTools w n tools)).
Proof.
  revert n. induction tools as [|tool tools IH]; intros n; simpl; [constructor|].
  specialize (IH (S n)). destruct (Agent.runTools w (S n) tools) as [out results].
  destruct (Agent.executeTool w n _ _); simpl in *; by constructor.
Qed.

Lemma turn_trace st :
  exists extra, Agent.trace (fst (Agent.turn w model st)) = Agent.trace st ++ extra
                /\ Forall nonTerminal extra.
Proof.
  unfold Agent.turn. cbv zeta.
  pose proof (consume_quiet Agent.turnStart _
    (retryLoop_quiet
       (fun call => Agent.stream w call
                      (Agent.Params.mk model 4096 (Agent.anthropicMessages st)))
       3 4 0 (Agent.streamsOpened st))) as Hq.
  unfold Agent.streamEventsWithRetry. simpl default.
  destruct (Agent.consume w Agent.turnStart _) as [ts out]. simpl in Hq.
  destruct (Agent.outcome _); [|by exists out].
  destruct (Agent.lastStream ts) as [s|]; [|by exists out].
  destruct (Agent.finalMessage w s); [|by exists out].
  destruct (_ && _); [|by exists out].
  pose proof (runTools_quiet (Agent.toolsRun st) (Agent.toolUseBlocks ts)) as Ht.
  destruct (Agent.runTools w _ _) as [out' results]. simpl in *.
  exists (out ++ out'). split; [done|]. by apply Forall_app.
Qed.

Lemma agentLoop_trace fuel st st' r :
  Agent.agentLoop w model fuel st = Some (st', r) ->
  exists extra, Agent.trace st' = Agent.trace st ++ extra /\ Forall nonTerminal extra.
Proof.
  revert st. induction fuel as [|fuel IH]; intros st; simpl; [discriminate|].
  destruct (turn_trace st) as (extra & Htrace & Hq).
  destruct (Agent.turn w model st) as [st1 [[]|e]]; simpl in *.
  - intros (extra' & Htrace' & Hq')%IH. exists (extra ++ extra').
    split; [by rewrite Htrace', Htrace, app_assoc | by apply Forall_app].
  - intros [= <- <-]. by exists extra.
  - intros [= <- <-]. by exists extra.
Qed.

Lemma agentLoop_more fuel st r :
  Agent.agentLoop w model fuel st = Some r ->
  Agent.agentLoop w model (S fuel) st = Some r.
Proof.
  revert st. induction fuel as [|fuel IH]; intros st; [discriminate|].
  cbn [Agent.agentLoop]. destruct (Agent.turn w model st) as [st1 [[]|e]]; [|done|done].
  apply IH.
Qed.

End Loop.

Section Terminal.
Variables (w : Agent.World) (heap : Heap).

Lemma toAnthropic_defined (l : list (option ref)) :
  Forall is_Some l -> exists ms, mapR (Agent.toAnthropic heap) l = Ok ms.
Proof.
  intros H. apply mapR_total. eapply Forall_impl; [exact H|].
  intros x [r ->]. by eexists.
Qed.

Lemma written_app (t t' : list Agent.Effect) :
  Agent.written (t ++ t') = Agent.written t ++ Agent.written t'.
Proof. unfold Agent.written. apply omap_app. Qed.

Lemma written_quiet (t : list Agent.Effect) :
  Forall nonTerminal t ->
  Forall (fun ev => ev <> Agent.done /\ forall m, ev <> Agent.error m) (Agent.written t).
Proof.
  induction 1 as [|e t He _ IH]; simpl; [constructor|].
  destruct e as [ev| |]; simpl; try done.
  constructor; [|done]. by destruct ev.
Qed.

(** With at least one message in the history, a run of [streamAgent] that
    ends resolves, and [done] is the last event it wrote and the only
    [done]; a failure inside the loop puts [error] right before it. *)
Lemma streamAgent_done_last (messages : list ref) model fuel t r :
  messages <> [] ->
  Agent.streamAgent w heap messages model fuel = Some (t, r) ->
  r = Ok tt
  /\ exists before,
       Forall (fun ev => ev <> Agent.done /\ forall m, ev <> Agent.error m) before
       /\ (Agent.written t = before ++ [Agent.done]
           \/ exists m, Agent.written t = before ++ [Agent.error m; Agent.done]).
Proof.
  intros Hne. unfold Agent.streamAgent. cbv zeta.
  destruct (toAnthropic_defined _ (trimHistory_defined heap messages Hne)) as [ms ->].
  destruct (Agent.agentLoop w _ fuel _) as [[st [[]|e]]|] eqn:Hloop; [| |discriminate].
  - intros [= <- <-]. split; [done|].
    apply agentLoop_trace in Hloop as (extra & -> & Hq). simpl.
    exists (Agent.written extra). split; [by apply written_quiet|].
    left. by rewrite written_app.
  - intros [= <- <-]. split; [done|].
    apply agentLoop_trace in Hloop as (extra & -> & Hq). simpl.
    exists (Agent.written extra). split; [by apply written_quiet|].
    right. exists (message e). by rewrite written_app.
Qed.

(** A run that ends within [fuel] iterations ends the same way with more. *)
Lemma streamAgent_more (messages : list ref) model fuel r :
  Agent.streamAgent w heap messages model fuel = Some r ->
  Agent.streamAgent w heap messages model (S fuel) = Some r.
Proof.
  unfold Agent.streamAgent. cbv zeta.
  destruct (mapR _ _) as [ms|e]; [|done].
  destruct (Agent.agentLoop w _ fuel _) as [[st o]|] eqn:Hloop; [|discriminate].
  by rewrite (agentLoop_more _ _ _ _ _ Hloop).
Qed.

End Terminal.

Example streamAgent_answers :
  Agent.streamAgent (Talk.world (fun _ => Talk.answer)) Chat.heap [0%nat] None 1
  = Some ([Agent.Write (Agent.text "hi"); Agent.Write Agent.done], Ok tt).
Proof. reflexivity. Qed.

Example streamAgent_retries_then_answers :
  Agent.streamAgent (Talk.world Talk.busyTwice) Chat.heap [0%nat] None 1
  = Some ([Agent.Write (Agent.retrying 15); Agent.Sleep 15000;
           Agent.Write (Agent.retrying 30); Agent.Sleep 30000;
           Agent.Write (Agent.text "hi"); Agent.Write Agent.done], Ok tt).
Proof. reflexivity. Qed.

Example streamAgent_gives_up :
  Agent.streamAgent (Talk.world (fun _ => Talk.busy)) Chat.heap [0%nat] None 1
  = Some ([Agent.Write (Agent.retrying 15); Agent.Sleep 15000;
           Agent.Write (Agent.retrying 30); Agent.Sleep 30000;
           Agent.Write (Agent.retrying 45); Agent.Sleep 45000;
           Agent.ConsoleError Talk.rateLimited;
           Agent.Write (Agent.error (Some "rate_limit_error"));
           Agent.Write Agent.done], Ok tt).
Proof. reflexivity. Qed.

(** C2 fails on an empty history.  [trimHistory([])] is [[undefined]];
    mapping it reads [undefined.role] before the [try] block is entered, so
    the promise rejects and nothing at all is written: no [error] and no
    [done]. *)
Theorem empty_history_rejects_without_done
    (w : Agent.World) (heap : Heap) (model : option string) (fuel : nat) :
  History.trimHistory heap [] = [None]
  /\ exists e,
       Agent.streamAgent w heap [] model fuel = Some ([], Throw e)
       /\ Agent.written [] = []
       /\ Agent.done ∉ Agent.written [].
Proof.
  split; [reflexivity|]. eexists. split; [reflexivity|]. split; [reflexivity|].
  apply not_elem_of_nil.
Qed.

(** * Further properties of the resolver *)

(** ** Keys and the session map *)

(** X1: the key [`${contestId}_${startTime}`] identifies the pair: two keys
    are equal exactly when both the contest ids and the start times are. *)
Theorem session_key_identifies_session (c1 t1 c2 t2 : Z) :
  Resolver.sessionKey c1 t1 = Resolver.sessionKey c2 t2 <-> c1 = c2 /\ t1 = t2.
Proof.
  split.
  - apply sessionKey_inj.
  - by intros [-> ->].
Qed.

(** X2: every session a scan has stored is found again, unchanged, under
    the key built from its own [contestId] and [startTimeSeconds] - the key
    the standings cache is written and read with. *)
Theorem stored_session_found_under_own_key
    (subs : list CFSubmission) (sim : SimSession) :
  sim ∈ JSMap.values (foldl Resolver.scanSubmission JSMap.empty subs) ->
  JSMap.get (Resolver.sessionKey (SimSession.contestId sim)
                                 (SimSession.startTimeSeconds sim))
            (foldl Resolver.scanSubmission JSMap.empty subs)
  = Some sim.
Proof.
  intros Hin.
  assert (NoDup (JSMap.keys (foldl Resolver.scanSubmission JSMap.empty subs))) as Hnd
    by (apply scan_NoDup; constructor).
  assert (keyed (foldl Resolver.scanSubmission JSMap.empty subs)) as Hk
    by (apply scan_keyed; constructor).
  unfold JSMap.values in Hin. apply list_elem_of_In, in_map_iff in Hin as ([k v] & Hv & Hkv).
  simpl in Hv. subst v. apply list_elem_of_In in Hkv.
  unfold keyed in Hk. rewrite Forall_forall in Hk. pose proof (Hk _ Hkv) as Hkey.
  simpl in Hkey. subst k. by apply get_elem_of.
Qed.

Lemma stored_session_found_under_own_key_witness :
  JSMap.get "105789_1771797960"
            (foldl Resolver.scanSubmission JSMap.empty Fixtures.SUBS_ONE_SIM)
  = Some (Runs.ourSession 105789 Fixtures.T1).
Proof.
  apply (stored_session_found_under_own_key Fixtures.SUBS_ONE_SIM
           (Runs.ourSession 105789 Fixtures.T1)).
  vm_compute. left.
Defined.

(** ** How far the scan reads *)

Section Paging.
Variables (cf : CFApi) (handle : string) (limit : Z).

Lemma scanPages_pages n from sessions (pages : list (list CFSubmission)) lastPage :
  (length pages < n)%nat ->
  (forall k subs, pages !! k = Some subs ->
     getUserSubmissions cf handle Resolver.pageSize (from + 100 * Z.of_nat k) = Ok subs
     /\ (100 <= length subs)%nat
     /\ JSMap.size (foldl Resolver.scanSubmission sessions (concat (take (S k) pages)))
        < limit * 3) ->
  getUserSubmissions cf handle Resolver.pageSize (from + 100 * Z.of_nat (length pages))
    = Ok lastPage ->
  ((length lastPage < 100)%nat
   \/ limit * 3 <= JSMap.size (foldl Resolver.scanSubmission sessions
                                     (concat pages ++ lastPage))) ->
  Resolver.scanPages cf handle limit n from sessions
  = Ok (foldl Resolver.scanSubmission sessions (concat pages ++ lastPage)).
Proof.
  revert n from sessions.
  induction pages as [|p ps IH]; intros n from sessions Hn Hfull Hlast Hstop.
  - destruct n as [|n]; [simpl in Hn; lia|]. cbn [Resolver.scanPages].
    simpl in Hlast. rewrite Z.add_0_r in Hlast. rewrite Hlast. simpl.
    destruct (Nat.eqb_spec (length lastPage) 0) as [H0|H0].
    { by apply nil_length_inv in H0 as ->. }
    destruct (Z.ltb_spec (Z.of_nat (length lastPage)) Resolver.pageSize) as [|Hge]; [done|].
    unfold Resolver.pageSize in Hge. destruct Hstop as [?|Hstop]; [lia|].
    simpl in Hstop.
    destruct (Z.geb_spec (JSMap.size (foldl Resolver.scanSubmission sessions lastPage))
                         (limit * 3)) as [|?]; [done|lia].
  - destruct n as [|n]; [simpl in Hn; lia|]. cbn [Resolver.scanPages].
    destruct (Hfull 0%nat p eq_refl) as (Hp & Hlen & Hsize).
    simpl in Hp. rewrite Z.add_0_r in Hp. rewrite Hp. simpl.
    destruct (Nat.eqb_spec (length p) 0) as [H0|_]; [lia|].
    destruct (Z.ltb_spec (Z.of_nat (length p)) Resolver.pageSize) as [Hlt|_].
    { unfold Resolver.pageSize in Hlt. lia. }
    cbn [take concat] in Hsize. rewrite take_0, app_nil_r in Hsize.
    destruct (Z.geb_spec (JSMap.size (foldl Resolver.scanSubmission sessions p))
                         (limit * 3)) as [?|_]; [lia|].
    rewrite (IH n (from + Resolver.pageSize) (foldl Resolver.scanSubmission sessions p)).
    + cbn [concat]. by rewrite <- app_assoc, (foldl_app _ p).
    + simpl in Hn. lia.
    + intros k subs Hk. destruct (Hfull (S k) subs Hk) as (Hf & Hl & Hs).
      split; [|split; [done|]].
      * rewrite <- Hf. f_equal. unfold Resolver.pageSize. lia.
      * cbn [take concat] in Hs. by rewrite foldl_app in Hs.
    + rewrite <- Hlast. f_equal. unfold Resolver.pageSize. simpl length. lia.
    + destruct Hstop as [?|Hstop]; [by left|]. right.
      cbn [concat] in Hstop. by rewrite <- app_assoc, foldl_app in Hstop.
Qed.

Lemma scanPages_page_fails n from sessions (pages : list (list CFSubmission)) e :
  (length pages < n)%nat ->
  (forall k subs, pages !! k = Some subs ->
     getUserSubmissions cf handle Resolver.pageSize (from + 100 * Z.of_nat k) = Ok subs
     /\ (100 <= length subs)%nat
     /\ JSMap.size (foldl Resolver.scanSubmission sessions (concat (take (S k) pages)))
        < limit * 3) ->
  getUserSubmissions cf handle Resolver.pageSize (from + 100 * Z.of_nat (length pages))
    = Throw e ->
  Resolver.scanPages cf handle limit n from sessions = Throw e.
Proof.
  revert n from sessions.
  induction pages as [|p ps IH]; intros n from sessions Hn Hfull Hlast.
  - destruct n as [|n]; [simpl in Hn; lia|]. cbn [Resolver.scanPages].
    simpl in Hlast. rewrite Z.add_0_r in Hlast. by rewrite Hlast.
  - destruct n as [|n]; [simpl in Hn; lia|]. cbn [Resolver.scanPages].
    destruct (Hfull 0%nat p eq_refl) as (Hp & Hlen & Hsize).
    simpl in Hp. rewrite Z.add_0_r in Hp. rewrite Hp. simpl.
    destruct (Nat.eqb_spec (length p) 0) as [H0|_]; [lia|].
    destruct (Z.ltb_spec (Z.of_nat (length p)) Resolver.pageSize) as [Hlt|_].
    { unfold Resolver.pageSize in Hlt. lia. }
    cbn [take concat] in Hsize. rewrite take_0, app_nil_r in Hsize.
    destruct (Z.geb_spec (JSMap.size (foldl Resolver.scanSubmission sessions p))
                         (limit * 3)) as [?|_]; [lia|].
    apply (IH n (from + Resolver.pageSize) (foldl Resolver.scanSubmission sessions p)).
    + simpl in Hn. lia.
    + intros k subs Hk. destruct (Hfull (S k) subs Hk) as (Hf & Hl & Hs).
      split; [|split; [done|]].
      * rewrite <- Hf. f_equal. unfold Resolver.pageSize. lia.
      * cbn [take concat] in Hs. by rewrite foldl_app in Hs.
    + rewrite <- Hlast. f_equal. unfold Resolver.pageSize. simpl length. lia.
Qed.

End Paging.

Lemma scanPages_agree (cf cf' : CFApi) handle limit n from sessions :
  (forall k, (k < n)%nat ->
     getUserSubmissions cf' handle Resolver.pageSize (from + 100 * Z.of_nat k)
     = getUserSubmissions cf handle Resolver.pageSize (from + 100 * Z.of_nat k)) ->
  Resolver.scanPages cf' handle limit n from sessions
  = Resolver.scanPages cf handle limit n from sessions.
Proof.
  revert from sessions. induction n as [|n IH]; intros from sessions Hagree; [done|].
  cbn [Resolver.scanPages].
  pose proof (Hagree 0%nat ltac:(lia)) as H0. simpl in H0. rewrite Z.add_0_r in H0.
  rewrite H0. destruct (getUserSubmissions cf handle Resolver.pageSize from); [|done].
  simpl. rewrite IH; [done|]. intros k Hk.
  replace (from + Resolver.pageSize + 100 * Z.of_nat k)
    with (from + 100 * Z.of_nat (S k)) by (unfold Resolver.pageSize; lia).
  apply Hagree. lia.
Qed.

Lemma resolveAll_agree (cf cf' : CFApi) call top cache :
  (forall c contestId from count handles showUnofficial,
     getContestStandings cf' c contestId from count handles showUnofficial
     = getContestStandings cf c contestId from count handles showUnofficial) ->
  Resolver.resolveAll cf' call top cache = Resolver.resolveAll cf call top cache.
Proof.
  intros Hagree. revert call cache.
  induction top as [|sim top IH]; intros call cache; [done|].
  cbn [Resolver.resolveAll]. rewrite IH. f_equal.
  unfold Resolver.resolveStandings. by rewrite Hagree.
Qed.

(** X3: the scan reads page after page of 100 submissions, starting at
    [from = 1], and stops at the first page that is short (fewer than 100
    records, possibly none) or after which at least [3 * limit] sessions
    are banked; the sessions it returns are those of exactly the pages read
    so far, in order. *)
Theorem scan_stops_at_short_page_or_enough_sessions
    (cf : CFApi) (handle : string) (limit : Z)
    (pages : list (list CFSubmission)) (lastPage : list CFSubmission) :
  (length pages < 20)%nat ->
  (forall k subs, pages !! k = Some subs ->
     getUserSubmissions cf handle 100 (1 + 100 * Z.of_nat k) = Ok subs
     /\ (100 <= length subs)%nat
     /\ JSMap.size (foldl Resolver.scanSubmission JSMap.empty (concat (take (S k) pages)))
        < limit * 3) ->
  getUserSubmissions cf handle 100 (1 + 100 * Z.of_nat (length pages)) = Ok lastPage ->
  ((length lastPage < 100)%nat
   \/ limit * 3 <= JSMap.size (foldl Resolver.scanSubmission JSMap.empty
                                     (concat pages ++ lastPage))) ->
  Resolver.scanPages cf handle limit Resolver.maxPages 1 JSMap.empty
  = Ok (foldl Resolver.scanSubmission JSMap.empty (concat pages ++ lastPage)).
Proof.
  intros Hn Hfull Hlast Hstop.
  by apply scanPages_pages.
Qed.

Lemma scan_stops_at_short_page_or_enough_sessions_witness :
  Resolver.scanPages Fixtures.happyPath "automac" 10 Resolver.maxPages 1 JSMap.empty
  = Ok Runs.oneSession.
Proof.
  refine (scan_stops_at_short_page_or_enough_sessions
            Fixtures.happyPath "automac" 10 [] Fixtures.SUBS_ONE_SIM _ _ _ _).
  - simpl. lia.
  - intros k subs Hk. discriminate.
  - reflexivity.
  - left. simpl. lia.
Defined.

(** X4: a rejected submissions request is not isolated.  When the scan
    reaches a page whose request rejects, [getGymSimulations] rejects with
    that error, whatever was banked from the pages before. *)
Theorem submissions_failure_aborts_request
    (cf : CFApi) (handle : string) (limit : Z)
    (pages : list (list CFSubmission)) (e : JsError) :
  (length pages < 20)%nat ->
  (forall k subs, pages !! k = Some subs ->
     getUserSubmissions cf handle 100 (1 + 100 * Z.of_nat k) = Ok subs
     /\ (100 <= length subs)%nat
     /\ JSMap.size (foldl Resolver.scanSubmission JSMap.empty (concat (take (S k) pages)))
        < limit * 3) ->
  getUserSubmissions cf handle 100 (1 + 100 * Z.of_nat (length pages)) = Throw e ->
  Resolver.getGymSimulations cf handle (Some limit) = Throw e.
Proof.
  intros Hn Hfull Hlast.
  unfold Resolver.getGymSimulations. cbv zeta.
  change (default 10 (Some limit)) with limit.
  by rewrite (scanPages_page_fails cf handle limit Resolver.maxPages 1 JSMap.empty pages e).
Qed.

Lemma submissions_failure_aborts_request_witness :
  Resolver.getGymSimulations Pages.failsOnSecondPage "automac" (Some 10)
  = Throw (mkError None (Some "Codeforces API error: Call limit exceeded")).
Proof.
  refine (submissions_failure_aborts_request
            Pages.failsOnSecondPage "automac" 10 [Pages.fullPage] _ _ _ _).
  - simpl. lia.
  - intros [|k] subs Hk; [|discriminate]. injection Hk as <-.
    split; [reflexivity|]. split; [simpl; lia|]. vm_compute. reflexivity.
  - reflexivity.
Defined.

(** X5: the scan never asks for more than the twenty pages
    [from = 1, 101, ..., 1901]: two data clients that agree on those
    requests, on the catalogue and on the standings give the same answer,
    however they differ on later pages. *)
Theorem scan_reads_at_most_twenty_pages
    (cf cf' : CFApi) (handle : string) (limit : Z) :
  (forall k, (k < 20)%nat ->
     getUserSubmissions cf' handle 100 (1 + 100 * Z.of_nat k)
     = getUserSubmissions cf handle 100 (1 + 100 * Z.of_nat k)) ->
  getContestList cf' true = getContestList cf true ->
  (forall c contestId from count handles showUnofficial,
     getContestStandings cf' c contestId from count handles showUnofficial
     = getContestStandings cf c contestId from count handles showUnofficial) ->
  Resolver.getGymSimulations cf' handle (Some limit)
  = Resolver.getGymSimulations cf handle (Some limit).
Proof.
  intros Hpages Hlist Hst.
  unfold Resolver.getGymSimulations. cbv zeta.
  change (default 10 (Some limit)) with limit.
  rewrite (scanPages_agree cf cf' handle limit Resolver.maxPages 1 JSMap.empty Hpages).
  destruct (Resolver.scanPages cf handle limit Resolver.maxPages 1 JSMap.empty)
    as [sessions|e]; [|done].
  cbn [bindR]. rewrite Hlist.
  by rewrite (resolveAll_agree cf cf' 0 _ _ Hst).
Qed.

Lemma scan_reads_at_most_twenty_pages_witness :
  Resolver.getGymSimulations Pages.failsLate "automac" (Some 10)
  = Resolver.getGymSimulations Fixtures.happyPath "automac" (Some 10).
Proof.
  apply (scan_reads_at_most_twenty_pages Fixtures.happyPath Pages.failsLate "automac" 10).
  - intros k Hk. simpl.
    destruct (Z.ltb_spec (1 + 100 * Z.of_nat k) 2000) as [_|?]; [reflexivity|lia].
  - reflexivity.
  - reflexivity.
Defined.

(** X6: a rejected catalogue request is not isolated either: once the scan
    has found a session, [getGymSimulations] rejects with the catalogue's
    error. *)
Theorem catalogue_failure_aborts_request
    (cf : CFApi) (handle : string) (limit : Z)
    (sessions : JSMap.t SimSession) (e : JsError) :
  Resolver.scanPages cf handle limit Resolver.maxPages 1 JSMap.empty = Ok sessions ->
  JSMap.size sessions <> 0 ->
  getContestList cf true = Throw e ->
  Resolver.getGymSimulations cf handle (Some limit) = Throw e.
Proof.
  intros Hscan Hsz Hlist. rewrite (getGymSimulations_eq _ _ _ _ Hscan), Hlist.
  by destruct (Z.eqb_spec (JSMap.size sessions) 0).
Qed.

Lemma catalogue_failure_aborts_request_witness :
  Resolver.getGymSimulations Pages.noCatalogue "automac" (Some 10)
  = Throw (mkError None (Some "Codeforces API error: Call limit exceeded")).
Proof.
  apply (catalogue_failure_aborts_request Pages.noCatalogue "automac" 10 Runs.oneSession).
  - vm_compute. reflexivity.
  - discriminate.
  - reflexivity.
Defined.

(** ** Selection *)

(** X7: selection keeps the newest sessions: every selected session is one
    of the sessions found, and no session left out started later than a
    selected one. *)
Theorem selection_keeps_the_newest
    (sessions : JSMap.t SimSession) (limit : Z) (kept dropped : SimSession) :
  kept ∈ Resolver.selectTop sessions limit ->
  dropped ∈ JSMap.values sessions ->
  dropped ∉ Resolver.selectTop sessions limit ->
  kept ∈ JSMap.values sessions
  /\ SimSession.startTimeSeconds dropped <= SimSession.startTimeSeconds kept.
Proof.
  intros Hkept Hin Hout. unfold Resolver.selectTop in *.
  destruct (slice0_prefix (JS.sortBy Resolver.newerFirst (JSMap.values sessions)) limit)
    as [rest Hrest].
  pose proof (sortBy_Permutation Resolver.newerFirst (JSMap.values sessions)) as Hperm.
  assert (StronglySorted
            (fun a b => SimSession.startTimeSeconds b <= SimSession.startTimeSeconds a)
            (JS.sortBy Resolver.newerFirst (JSMap.values sessions))) as Hs.
  { apply Sorted_StronglySorted; [intros a b c; lia|].
    eapply Sorted_weaken; [|apply (sortBy_Sorted Resolver.newerFirst)].
    - intros a b. unfold Resolver.newerFirst. lia.
    - intros a b. unfold Resolver.newerFirst. lia. }
  split.
  - rewrite <- Hperm, Hrest. apply elem_of_app. by left.
  - rewrite <- Hperm, Hrest in Hin. apply elem_of_app in Hin as [?|Hin]; [done|].
    rewrite Hrest in Hs. by apply (StronglySorted_app_1_elem_of _ _ _ _ _ Hs).
Qed.

Lemma selection_keeps_the_newest_witness :
  SimSession.startTimeSeconds (Runs.ourSession 106193 Fixtures.T2)
  <= SimSession.startTimeSeconds (Runs.ourSession 105789 Fixtures.T1).
Proof.
  refine (proj2 (selection_keeps_the_newest Runs.twoSessions 1
                   (Runs.ourSession 105789 Fixtures.T1)
                   (Runs.ourSession 106193 Fixtures.T2) _ _ _)).
  - vm_compute. left.
  - vm_compute. right. left.
  - vm_compute. intros H. apply list_elem_of_In in H. simpl in H.
    destruct H as [H|[]]. discriminate.
Defined.

(** ** The catalogue *)

Section Catalogue.
Implicit Types (topIds : gset Z) (gymList : list CFContest).

Lemma buildGymMap_fold_last topIds gymList (m0 : gmap Z CFContest) k :
  foldl (fun (gymMap : gmap Z CFContest) (gym : CFContest) =>
           if bool_decide (CFContest.id gym ∈ topIds)
           then <[CFContest.id gym := gym]> gymMap else gymMap) m0 gymList !! k
  = match (if bool_decide (k ∈ topIds) then lastEntry k gymList else None) with
    | Some g => Some g
    | None => m0 !! k
    end.
Proof.
  unfold lastEntry. revert m0. induction gymList as [|x l IH]; intros m0; simpl.
  - by destruct (bool_decide (k ∈ topIds)).
  - rewrite IH. destruct (Z.eqb_spec (CFContest.id x) k) as [Heq|Hne].
    + rewrite Heq. destruct (bool_decide (k ∈ topIds)) eqn:Hk.
      * rewrite last_cons. destruct (last _); [done|]. by rewrite lookup_insert_eq.
      * done.
    + destruct (bool_decide (CFContest.id x ∈ topIds)).
      * destruct (if bool_decide (k ∈ topIds) then _ else None); [done|].
        by rewrite lookup_insert_ne.
      * done.
Qed.

Lemma buildGymMap_last topIds gymList k :
  Resolver.buildGymMap topIds gymList !! k
  = if bool_decide (k ∈ topIds) then lastEntry k gymList else None.
Proof.
  unfold Resolver.buildGymMap. rewrite buildGymMap_fold_last, lookup_empty.
  by destruct (if bool_decide (k ∈ topIds) then _ else None).
Qed.

Lemma lastEntry_id k gymList c : lastEntry k gymList = Some c -> CFContest.id c = k /\ c ∈ gymList.
Proof.
  unfold lastEntry. intros H%last_Some_elem_of.
  apply list_elem_of_In, filter_In in H as [Hin Hid].
  split; [by apply Z.eqb_eq | by apply list_elem_of_In].
Qed.

Lemma shape_meta handle (gymMap : gmap Z CFContest) cache sim g :
  Resolver.shape handle gymMap cache sim = Ok g ->
  GymResult.name g
  = default ("Gym #" +:+ JS.num (SimSession.contestId sim))
            (CFContest.name <$> gymMap !! SimSession.contestId sim)
  /\ GymResult.durationHours g = Resolver.hours (gymMap !! SimSession.contestId sim)
  /\ Resolver.stars (gymMap !! SimSession.contestId sim ≫= CFContest.difficulty)
     = Ok (GymResult.difficulty g).
Proof.
  unfold Resolver.shape.
  destruct (Resolver.stars _) as [d|e]; simpl; [|discriminate].
  destruct (Resolver.formatSimulatedAt _) as [t|e]; simpl; [|discriminate].
  by intros [= <-].
Qed.

Lemma mapR_Throw {A B} (f : A -> Result B) (l : list A) (x : A) (e : JsError) :
  x ∈ l -> f x = Throw e -> exists e', mapR f l = Throw e'.
Proof.
  intros Hin Hx. induction l as [|y l IH]; [by apply elem_of_nil in Hin|].
  simpl. destruct (f y) as [b|e0] eqn:Hy; simpl; [|by eexists].
  apply elem_of_cons in Hin as [->|Hin]; [congruence|].
  destruct (IH Hin) as [e' ->]. simpl. by eexists.
Qed.

Lemma stars_off_scale (d : Z) :
  d < 0 \/ 5 < d -> exists e, Resolver.stars (Some d) = Throw e.
Proof.
  intros Hd. unfold Resolver.stars, JS.repeat.
  destruct (Z.eqb_spec d 0) as [?|_]; [lia|].
  destruct (Z.ltb_spec d 0) as [?|?]; simpl; [by eexists|].
  destruct (Z.ltb_spec (5 - d) 0) as [?|?]; simpl; [by eexists|lia].
Qed.

End Catalogue.

(** X8: the metadata lookup holds an entry exactly for the contest ids of
    the selected sessions that occur in the catalogue; the entry is the last
    catalogue record with that id, and any other catalogue record is
    ignored. *)
Theorem gym_map_holds_last_record_of_selected_ids
    (topIds : gset Z) (gymList : list CFContest) (k : Z) :
  (Resolver.buildGymMap topIds gymList !! k
   = if bool_decide (k ∈ topIds) then lastEntry k gymList else None)
  /\ (forall c, Resolver.buildGymMap topIds gymList !! k = Some c ->
        k ∈ topIds /\ CFContest.id c = k /\ c ∈ gymList)
  /\ (Resolver.buildGymMap topIds gymList !! k = None <->
        k ∉ topIds \/ Forall (fun g => CFContest.id g <> k) gymList).
Proof.
  rewrite buildGymMap_last. split; [done|]. split.
  - intros c. destruct (bool_decide (k ∈ topIds)) eqn:Hk; [|discriminate].
    apply bool_decide_eq_true in Hk. intros [? ?]%lastEntry_id. done.
  - destruct (bool_decide (k ∈ topIds)) eqn:Hk.
    + apply bool_decide_eq_true in Hk. unfold lastEntry. rewrite last_None. split.
      * intros Hnil. right. apply Forall_forall. intros g Hg Hid.
        assert (g ∈ List.filter (fun g => CFContest.id g =? k) gymList) as Hin.
        { apply list_elem_of_In, filter_In. split; [by apply list_elem_of_In|].
          by apply Z.eqb_eq. }
        rewrite Hnil in Hin. by apply elem_of_nil in Hin.
      * intros [?|Hall]; [done|].
        destruct (List.filter _ gymList) as [|g l] eqn:Hf; [done|]. exfalso.
        assert (In g (List.filter (fun g => CFContest.id g =? k) gymList)) as Hin
          by (rewrite Hf; by left).
        apply filter_In in Hin as [Hin Hid]. rewrite Forall_forall in Hall.
        apply (Hall g); [by apply list_elem_of_In | by apply Z.eqb_eq].
    + apply bool_decide_eq_false in Hk. split; [by left | done].
Qed.

(** X9: a returned result takes its name and duration from the last
    catalogue record of the session's contest, and its difficulty from that
    record's rating; a session whose contest the catalogue does not list is
    still returned, named ["Gym #<id>"], with difficulty and duration null. *)
Theorem result_metadata_from_catalogue_or_fallback
    (cf : CFApi) (handle : string) (limit : Z)
    (sessions : JSMap.t SimSession) (gymList : list CFContest)
    (res : GymSimulationsResult) (j : nat) (sim : SimSession) :
  Resolver.scanPages cf handle limit Resolver.maxPages 1 JSMap.empty = Ok sessions ->
  getContestList cf true = Ok gymList ->
  Resolver.getGymSimulations cf handle (Some limit) = Ok res ->
  Resolver.selectTop sessions limit !! j = Some sim ->
  exists g, GymSimulationsResult.gyms res !! j = Some g /\
    match lastEntry (SimSession.contestId sim) gymList with
    | Some c =>
        GymResult.name g = CFContest.name c
        /\ GymResult.durationHours g
           = (if CFContest.durationSeconds c =? 0 then None
              else Some (JS.roundDiv (CFContest.durationSeconds c) 3600))
        /\ Resolver.stars (CFContest.difficulty c) = Ok (GymResult.difficulty g)
    | None =>
        GymResult.name g = "Gym #" +:+ JS.num (SimSession.contestId sim)
        /\ GymResult.durationHours g = None
        /\ GymResult.difficulty g = None
    end.
Proof.
  intros Hscan Hlist Hres Hj.
  destruct (gyms_spec cf handle limit sessions res Hscan Hres) as (_ & _ & Hgyms).
  destruct (Hgyms j sim Hj) as (gymList' & g0 & Hlist' & Hshape & Hg).
  assert (gymList' = gymList) as -> by congruence.
  eexists. split; [exact Hg|].
  apply shape_meta in Hshape as (Hname & Hdur & Hstars).
  rewrite buildGymMap_last in Hname, Hdur, Hstars.
  assert (bool_decide (SimSession.contestId sim ∈
            (list_to_set (map SimSession.contestId (Resolver.selectTop sessions limit))
               : gset Z)) = true) as Hin.
  { apply bool_decide_eq_true, elem_of_list_to_set, list_elem_of_fmap.
    exists sim. split; [done|]. by eapply list_elem_of_lookup_2. }
  rewrite Hin in Hname, Hdur, Hstars. simpl.
  destruct (lastEntry (SimSession.contestId sim) gymList) as [c|]; simpl in *.
  - done.
  - split; [done|]. split; [done|]. by injection Hstars.
Qed.

Lemma result_metadata_from_catalogue_or_fallback_witness :
  exists g,
    gymsOf (Resolver.getGymSimulations
              (Fixtures.mock Fixtures.SUBS_ONE_SIM [] (fun _ => Ok Fixtures.STANDINGS_105789))
              "automac" (Some 10)) !! 0%nat = Some g
    /\ GymResult.name g = "Gym #105789".
Proof.
  destruct (Resolver.getGymSimulations
              (Fixtures.mock Fixtures.SUBS_ONE_SIM [] (fun _ => Ok Fixtures.STANDINGS_105789))
              "automac" (Some 10)) as [res|e] eqn:Hres;
    [|vm_compute in Hres; discriminate].
  destruct (result_metadata_from_catalogue_or_fallback
              (Fixtures.mock Fixtures.SUBS_ONE_SIM []
                 (fun _ => Ok Fixtures.STANDINGS_105789))
              "automac" 10 Runs.oneSession [] res 0 (Runs.ourSession 105789 Fixtures.T1))
    as (g & Hg & Hname & _).
  - vm_compute. reflexivity.
  - reflexivity.
  - exact Hres.
  - vm_compute. reflexivity.
  - exists g. split; [exact Hg | exact Hname].
Defined.

(** X10: shaping raises [RangeError] outside any [try]: if the catalogue
    record of one selected session carries a difficulty below 0 or above 5,
    or one selected session starts at a time a [Date] cannot hold, the whole
    request rejects and no result is returned for any session. *)
Theorem shaping_range_error_aborts_request
    (cf : CFApi) (handle : string) (limit : Z)
    (sessions : JSMap.t SimSession) (gymList : list CFContest)
    (j : nat) (sim : SimSession) :
  Resolver.scanPages cf handle limit Resolver.maxPages 1 JSMap.empty = Ok sessions ->
  getContestList cf true = Ok gymList ->
  Resolver.selectTop sessions limit !! j = Some sim ->
  (exists c d, lastEntry (SimSession.contestId sim) gymList = Some c
               /\ CFContest.difficulty c = Some d /\ (d < 0 \/ 5 < d))
  \/ 8640000000000000 < Z.abs (SimSession.startTimeSeconds sim * 1000) ->
  exists e, Resolver.getGymSimulations cf handle (Some limit) = Throw e.
Proof.
  intros Hscan Hlist Hj Hbad.
  rewrite (getGymSimulations_eq _ _ _ _ Hscan), Hlist.
  destruct (Z.eqb_spec (JSMap.size sessions) 0) as [Hsz|_].
  { rewrite (top_empty limit sessions Hsz) in Hj. discriminate. }
  cbn [bindR].
  assert (exists e,
    Resolver.shape handle
      (Resolver.buildGymMap
         (list_to_set (map SimSession.contestId (Resolver.selectTop sessions limit)))
         gymList)
      (Resolver.resolveAll cf 0 (Resolver.selectTop sessions limit) ∅) sim = Throw e)
    as [e He].
  { unfold Resolver.shape. cbv zeta. rewrite buildGymMap_last.
    assert (bool_decide (SimSession.contestId sim ∈
              (list_to_set (map SimSession.contestId (Resolver.selectTop sessions limit))
                 : gset Z)) = true) as ->.
    { apply bool_decide_eq_true, elem_of_list_to_set, list_elem_of_fmap.
      exists sim. split; [done|]. by eapply list_elem_of_lookup_2. }
    destruct Hbad as [(c & d & -> & Hd & Hoff)|Htime].
    - simpl. rewrite Hd. destruct (stars_off_scale d Hoff) as [e ->]. simpl. by eexists.
    - destruct (Resolver.stars _); simpl; [|by eexists].
      unfold Resolver.formatSimulatedAt, JS.toISOString.
      destruct (Z.leb_spec (Z.abs (SimSession.startTimeSeconds sim * 1000))
                           8640000000000000) as [?|_]; [lia|].
      simpl. by eexists. }
  destruct (mapR_Throw _ _ sim e (list_elem_of_lookup_2 _ _ _ Hj) He) as [e' ->].
  simpl. by eexists.
Qed.

Lemma shaping_range_error_aborts_request_witness :
  exists e, Resolver.getGymSimulations OffScale.client "automac" (Some 10) = Throw e.
Proof.
  apply (shaping_range_error_aborts_request OffScale.client "automac" 10
           Runs.oneSession OffScale.catalogue 0 (Runs.ourSession 105789 Fixtures.T1)).
  - vm_compute. reflexivity.
  - reflexivity.
  - vm_compute. reflexivity.
  - left. eexists _, 6. split; [reflexivity|]. split; [reflexivity|]. lia.
Defined.

(** X11: [durationHours] is the duration rounded to the nearest hour, half
    hours upwards, and is null exactly for a contest missing from the
    catalogue or of duration 0. *)
Theorem duration_rounds_to_nearest_hour (gym : option CFContest) (h : Z) :
  (Resolver.hours gym = Some h <->
     exists c, gym = Some c /\ CFContest.durationSeconds c <> 0
               /\ 3600 * h - 1800 <= CFContest.durationSeconds c < 3600 * h + 1800)
  /\ (Resolver.hours gym = None <->
        gym = None \/ exists c, gym = Some c /\ CFContest.durationSeconds c = 0).
Proof.
  unfold Resolver.hours, JS.roundDiv. destruct gym as [c|].
  - destruct (Z.eqb_spec (CFContest.durationSeconds c) 0) as [H0|H0]; split.
    + split; [discriminate|]. intros (c' & [= <-] & ? & _). done.
    + split; [intros _; right; by exists c | done].
    + split.
      * intros [= <-]. exists c. split; [done|]. split; [done|].
        pose proof (Z.div_mod (2 * CFContest.durationSeconds c + 3600) (2 * 3600)
                      ltac:(lia)).
        pose proof (Z.mod_pos_bound (2 * CFContest.durationSeconds c + 3600) (2 * 3600)
                      ltac:(lia)).
        lia.
      * intros (c' & [= <-] & _ & Hlo & Hhi). f_equal. symmetry.
        apply (Z.div_unique _ _ _ (2 * CFContest.durationSeconds c + 3600 - 7200 * h)); lia.
    + split; [discriminate|]. intros [?|(c' & [= <-] & ?)]; done.
  - split.
    + split; [discriminate | by intros (c & ? & _)].
    + split; [by left | done].
Qed.

(** ** The rendered start time *)

Section Rendering.

Lemma str_length_app (a b : string) :
  String.length (a +:+ b) = (String.length a + String.length b)%nat.
Proof. induction a as [|c a IH]; [done|]. rewrite append_cons. simpl. by rewrite IH. Qed.

Lemma repeatN_length (s : string) (n : nat) :
  String.length (JS.repeatN s n) = (n * String.length s)%nat.
Proof. induction n as [|n IH]; [done|]. simpl. rewrite str_length_app, IH. lia. Qed.

Lemma pad0_length (w : nat) (n : Z) : (w <= String.length (JS.pad0 w n))%nat.
Proof.
  unfold JS.pad0. cbv zeta. rewrite str_length_app, repeatN_length. simpl. lia.
Qed.

Lemma isoYear_length (y : Z) : (4 <= String.length (JS.isoYear y))%nat.
Proof.
  unfold JS.isoYear. destruct (_ && _).
  - apply pad0_length.
  - rewrite str_length_app. pose proof (pad0_length 6 (Z.abs y)). lia.
Qed.

(** Cutting a string after [n] characters does not look further. *)
Lemma substring_app_agree (n : nat) (a x y : string) :
  String.substring 0 (n - String.length a) x = String.substring 0 (n - String.length a) y ->
  String.substring 0 n (a +:+ x) = String.substring 0 n (a +:+ y).
Proof.
  revert n. induction a as [|c a IH]; intros n H.
  - simpl in H. by rewrite Nat.sub_0_r in H.
  - rewrite !append_cons. destruct n as [|n]; [done|]. simpl. f_equal.
    apply IH. exact H.
Qed.

Lemma substring_0_0 (x : string) : String.substring 0 0 x = EmptyString.
Proof. by destruct x. Qed.

Lemma toISOString_minute (ms1 ms2 : Z) :
  Z.abs ms1 <= 8640000000000000 -> Z.abs ms2 <= 8640000000000000 ->
  ms1 / 60000 = ms2 / 60000 ->
  exists iso1 iso2,
    JS.toISOString ms1 = Ok iso1 /\ JS.toISOString ms2 = Ok iso2
    /\ String.substring 0 16 iso1 = String.substring 0 16 iso2.
Proof.
  intros H1 H2 Hmin. unfold JS.toISOString.
  destruct (Z.leb_spec (Z.abs ms1) 8640000000000000) as [_|?]; [|lia].
  destruct (Z.leb_spec (Z.abs ms2) 8640000000000000) as [_|?]; [|lia].
  assert (ms1 / 86400000 = ms2 / 86400000) as Hday
    by (revert Hmin; clear; intros; Z.div_mod_to_equations; lia).
  assert (ms1 mod 86400000 / 3600000 = ms2 mod 86400000 / 3600000) as Hhour
    by (revert Hmin; clear; intros; Z.div_mod_to_equations; lia).
  assert (ms1 mod 86400000 mod 3600000 / 60000 = ms2 mod 86400000 mod 3600000 / 60000)
    as Hminute by (revert Hmin; clear; intros; Z.div_mod_to_equations; lia).
  rewrite Hday. destruct (JS.civilFromDays (ms2 / 86400000)) as [[y m] d].
  cbv zeta. rewrite Hhour, Hminute.
  eexists _, _. split; [reflexivity|]. split; [reflexivity|].
  pose proof (isoYear_length y). pose proof (pad0_length 2 m). pose proof (pad0_length 2 d).
  pose proof (pad0_length 2 (ms2 mod 86400000 / 3600000)).
  pose proof (pad0_length 2 (ms2 mod 86400000 mod 3600000 / 60000)).
  repeat (apply substring_app_agree).
  match goal with
  | |- String.substring 0 ?n _ = String.substring 0 ?n _ =>
      replace n with 0%nat by (simpl String.length; lia)
  end.
  by rewrite !substring_0_0.
Qed.

End Rendering.

(** X12: [simulatedAt] has the resolution of a minute: two start times a
    [Date] can hold that fall in the same minute are rendered as the same
    text, their seconds being cut off. *)
Theorem simulatedAt_has_minute_resolution (t1 t2 : Z) :
  Z.abs (t1 * 1000) <= 8640000000000000 ->
  Z.abs (t2 * 1000) <= 8640000000000000 ->
  t1 / 60 = t2 / 60 ->
  exists text,
    Resolver.formatSimulatedAt t1 = Ok text /\ Resolver.formatSimulatedAt t2 = Ok text.
Proof.
  intros H1 H2 Hmin.
  destruct (toISOString_minute (t1 * 1000) (t2 * 1000) H1 H2) as (i1 & i2 & E1 & E2 & Hcut).
  { revert Hmin. clear. intros. Z.div_mod_to_equations. lia. }
  unfold Resolver.formatSimulatedAt. rewrite E1, E2. simpl. rewrite Hcut. by eexists.
Qed.

Lemma simulatedAt_has_minute_resolution_witness :
  Resolver.formatSimulatedAt 1771797960 = Ok "2026-02-22 22:06 UTC"
  /\ exists text,
       Resolver.formatSimulatedAt 1771797960 = Ok text
       /\ Resolver.formatSimulatedAt 1771798019 = Ok text.
Proof.
  split; [vm_compute; reflexivity|].
  apply (simulatedAt_has_minute_resolution 1771797960 1771798019).
  - vm_compute. discriminate.
  - vm_compute. discriminate.
  - reflexivity.
Defined.

(** * Further properties of the history trimmer *)

Section Alternating.
Variable heap : Heap.
Implicit Types (msgs : list ref).

Lemma alternating_tail x y msgs :
  alternating heap (x :: y :: msgs) ->
  ConversationMessage.role (heap x) = user
  /\ ConversationMessage.role (heap y) = assistant
  /\ alternating heap msgs.
Proof.
  intros H. split; [exact (H 0%nat x eq_refl)|]. split; [exact (H 1%nat y eq_refl)|].
  intros i r Hi. exact (H (S (S i)) r Hi).
Qed.

Lemma half_succ_succ (n : nat) : (S (S n) / 2 = S (n / 2))%nat.
Proof. replace (S (S n)) with (n + 1 * 2)%nat by lia. rewrite Nat.div_add by lia. lia. Qed.

Lemma pairsOf_alternating msgs :
  alternating heap msgs ->
  History.flat (History.pairsOf heap msgs) = take (2 * (length msgs / 2)) msgs.
Proof.
  induction msgs as [| x | x y l IH] using pairs_ind; intros Halt; try done.
  destruct (alternating_tail _ _ _ Halt) as (Hx & Hy & Hl).
  cbn [History.pairsOf]. rewrite Hx, Hy. cbn [Role_eqb andb].
  unfold History.flat in *. cbn [app map concat fst snd]. rewrite (IH Hl).
  cbn [length]. rewrite half_succ_succ.
  replace (2 * S (length l / 2))%nat with (S (S (2 * (length l / 2)))) by lia.
  done.
Qed.

Lemma flat_drop (k : nat) (pairs : list (ref * ref)) :
  History.flat (drop k pairs) = drop (2 * k) (History.flat pairs).
Proof.
  revert k. induction pairs as [|p pairs IH]; intros [|k]; try done.
  replace (2 * S k)%nat with (S (S (2 * k))) by lia. cbn [drop]. rewrite IH.
  unfold History.flat. done.
Qed.

Lemma last_map {A B} (f : A -> B) (l : list A) : last (map f l) = f <$> last l.
Proof.
  induction l as [|x l IH]; [done|]. cbn [map]. rewrite !last_cons, IH.
  by destruct (last l).
Qed.

Lemma last_drop {A} (k : nat) (l : list A) : (k < length l)%nat -> last (drop k l) = last l.
Proof.
  intros Hk. rewrite <- (take_drop k l) at 2. rewrite last_app.
  destruct (last (drop k l)) eqn:Hl; [done|].
  apply last_None in Hl. apply (f_equal length) in Hl. rewrite length_drop in Hl.
  simpl in Hl. lia.
Qed.

Lemma recent_flat msgs :
  alternating heap msgs ->
  History.flat (JS.sliceLast History.MAX_HISTORY_TURNS (History.pairsOf heap msgs))
  = drop (2 * (length msgs / 2 - 4)) (take (2 * (length msgs / 2)) msgs).
Proof.
  intros Halt. unfold JS.sliceLast, History.MAX_HISTORY_TURNS.
  rewrite flat_drop, (pairsOf_alternating _ Halt).
  assert (length (History.pairsOf heap msgs) = length msgs / 2)%nat as ->; [|done].
  pose proof (flat_length (History.pairsOf heap msgs)) as Hlen.
  rewrite (pairsOf_alternating _ Halt), length_take in Hlen.
  pose proof (Nat.Div0.mul_div_le (length msgs) 2). lia.
Qed.

Lemma trimHistory_alternating msgs :
  alternating heap msgs -> msgs <> [] ->
  History.trimHistory heap msgs
  = map Some (drop (length msgs - (if Nat.even (length msgs) then 8 else 9)) msgs).
Proof.
  intros Halt Hne. unfold History.trimHistory. cbv zeta. rewrite (recent_flat _ Halt).
  destruct (last_defined msgs Hne) as [final Hfinal]. rewrite Hfinal.
  destruct (Nat.even (length msgs)) eqn:Heven.
  - apply Nat.even_spec in Heven as [k Hk].
    assert (length msgs / 2 = k)%nat as Hhalf
      by (rewrite Hk, Nat.mul_comm; apply Nat.div_mul; lia).
    rewrite Hhalf. assert (k <> 0)%nat as Hk0 by (destruct msgs; simpl in *; [done|lia]).
    rewrite <- Hk, firstn_all.
    replace (2 * (k - 4))%nat with (length msgs - 8)%nat by lia.
    assert (last (map Some (drop (length msgs - 8) msgs)) = Some (Some final)) as Hlast.
    { rewrite last_map, last_drop by lia. by rewrite Hfinal. }
    rewrite Hlast, bool_decide_eq_true_2 by done. simpl negb. rewrite orb_false_r.
    destruct (Nat.eqb_spec (length (map Some (drop (length msgs - 8) msgs))) 0)
      as [H0|_]; [|done].
    rewrite length_map, length_drop in H0. lia.
  - assert (Nat.odd (length msgs) = true) as Hodd by (by rewrite <- Nat.negb_even, Heven).
    apply Nat.odd_spec in Hodd as [k Hk].
    assert (length msgs / 2 = k)%nat as Hhalf.
    { rewrite Hk, Nat.mul_comm, Nat.div_add_l by lia. simpl. lia. }
    rewrite Hhalf.
    assert (msgs = take (2 * k) msgs ++ [final]) as Hsplit.
    { apply last_Some in Hfinal as [l' ->]. rewrite length_app in Hk. simpl in Hk.
      rewrite take_app_length' by lia. done. }
    assert (drop (length msgs - 9) msgs
            = drop (2 * (k - 4)) (take (2 * k) msgs) ++ [final]) as Hdrop.
    { rewrite Hsplit at 2. rewrite drop_app_le.
      - f_equal. f_equal. lia.
      - rewrite length_take. lia. }
    rewrite Hdrop, map_app. cbn [map].
    assert ((length (map Some (drop (2 * (k - 4)) (take (2 * k) msgs))) =? 0)%nat
            || negb (bool_decide
                       (last (map Some (drop (2 * (k - 4)) (take (2 * k) msgs)))
                        = Some (Some final))) = true) as ->; [|done].
    apply orb_true_iff. right. apply negb_true_iff, bool_decide_eq_false.
    rewrite last_map. intros Hlast.
    destruct (last (drop (2 * (k - 4)) (take (2 * k) msgs))) as [r|] eqn:Hr; [|done].
    injection Hlast as ->.
    assert (k <> 0)%nat as Hk0.
    { intros ->. by simpl in Hr. }
    rewrite last_drop in Hr by (rewrite length_take; lia).
    rewrite last_lookup, length_take in Hr.
    rewrite lookup_take_lt in Hr by lia.
    rewrite last_lookup in Hfinal.
    rewrite Hk in Hfinal. replace (Init.Nat.pred (2 * k + 1)) with (2 * k)%nat in Hfinal by lia.
    pose proof (Halt _ _ Hr) as Hrole1. pose proof (Halt _ _ Hfinal) as Hrole2.
    destruct k as [|k]; [done|].
    match type of Hrole1 with context [Nat.even ?j] =>
      assert (j = S (2 * k)) as Ej by lia; rewrite Ej in Hrole1
    end.
    rewrite Nat.even_succ, <- Nat.negb_even, Nat.even_mul in Hrole1.
    rewrite Nat.even_mul in Hrole2. simpl in Hrole1, Hrole2. congruence.
Qed.

End Alternating.

Lemma chat_alternating (n : nat) : alternating Chat.heap (seq 0 n).
Proof.
  intros i r Hi. apply lookup_seq in Hi as [-> _]. simpl.
  unfold Chat.heap. by destruct (Nat.even i).
Qed.

(** X13 (src/agent.ts, [trimHistory]): on a conversation that starts with
    the user and alternates strictly, the trimmer returns the tail of the
    conversation itself: its last eight messages when the length is even,
    its last nine when it is odd (all of it when it is shorter). *)
Theorem alternating_history_keeps_last_turns (heap : Heap) (msgs : list ref) :
  alternating heap msgs -> msgs <> [] ->
  History.trimHistory heap msgs
  = map Some (drop (length msgs - (if Nat.even (length msgs) then 8 else 9)) msgs).
Proof. apply trimHistory_alternating. Qed.

Lemma alternating_history_keeps_last_turns_witness :
  History.trimHistory Chat.heap Chat.messages
  = map Some [2; 3; 4; 5; 6; 7; 8; 9; 10]%nat.
Proof.
  refine (alternating_history_keeps_last_turns Chat.heap Chat.messages _ _).
  - exact (chat_alternating 11).
  - discriminate.
Defined.

(** * Further properties of the agent loop *)

Section Turn.
Variable w : Agent.World.

Lemma consume_app ts steps1 steps2 :
  Agent.consume w ts (steps1 ++ steps2)
  = let '(ts1, out1) := Agent.consume w ts steps1 in
    let '(ts2, out2) := Agent.consume w ts1 steps2 in
    (ts2, out1 ++ out2).
Proof.
  revert ts. induction steps1 as [|[event s|e] steps1 IH]; intros ts;
    cbn [app Agent.consume].
  - by destruct (Agent.consume w ts steps2).
  - destruct (Agent.onYield w ts event s) as [ts1 out]. rewrite IH.
    destruct (Agent.consume w ts1 steps1) as [ts2 out1].
    destruct (Agent.consume w ts2 steps2) as [ts3 out2]. by rewrite app_assoc.
  - rewrite IH. destruct (Agent.consume w ts steps1) as [ts2 out1].
    by destruct (Agent.consume w ts2 steps2).
Qed.

Lemma string_app_assoc (a b c : string) : (a +:+ b) +:+ c = a +:+ (b +:+ c).
Proof. induction a as [|x a IH]; [done|]. by rewrite !append_cons, IH. Qed.

Lemma string_app_nil_r (a : string) : a +:+ EmptyString = a.
Proof. induction a as [|x a IH]; [done|]. by rewrite append_cons, IH. Qed.

Lemma consume_fragments ts s fragments :
  Agent.lastStream ts = Some s ->
  Agent.consume w ts
    (map (fun e => Agent.Yield e s)
         (map (fun f => Agent.content_block_delta (Agent.input_json_delta f)) fragments))
  = ({| Agent.toolUseBlocks := Agent.toolUseBlocks ts;
        Agent.currentToolUse := Agent.currentToolUse ts;
        Agent.inputJsonBuffer := Agent.inputJsonBuffer ts +:+ joined fragments;
        Agent.stopReason := Agent.stopReason ts;
        Agent.lastStream := Some s |}, []).
Proof.
  revert ts. induction fragments as [|f fragments IH]; intros ts Hs.
  - cbn [map Agent.consume joined foldr]. rewrite string_app_nil_r, <- Hs. by destruct ts.
  - cbn [map Agent.consume Agent.onYield]. rewrite IH by done.
    cbn [Agent.toolUseBlocks Agent.currentToolUse Agent.inputJsonBuffer Agent.stopReason
         joined foldr app].
    by rewrite string_app_assoc.
Qed.

Lemma consume_tool_block ts s id name fragments :
  Agent.consume w ts (map (fun e => Agent.Yield e s) (toolBlockEvents id name fragments))
  = ({| Agent.toolUseBlocks :=
          Agent.toolUseBlocks ts
          ++ [Agent.ToolUse.mk id name (Agent.parseInput w (joined fragments))];
        Agent.currentToolUse := None;
        Agent.inputJsonBuffer := EmptyString;
        Agent.stopReason := Agent.stopReason ts;
        Agent.lastStream := Some s |},
     [Agent.Write (Agent.tool_call name)]).
Proof.
  unfold toolBlockEvents. cbn [map Agent.consume Agent.onYield].
  rewrite map_app, consume_app, consume_fragments by done.
  cbn [map Agent.consume Agent.onYield Agent.toolUseBlocks Agent.currentToolUse
       Agent.inputJsonBuffer Agent.stopReason Agent.ToolUse.id Agent.ToolUse.name app].
  done.
Qed.

Lemma textsWritten_app (t t' : list Agent.Effect) :
  textsWritten (t ++ t') = textsWritten t ++ textsWritten t'.
Proof. apply omap_app. Qed.

Lemma onYield_texts ts event s :
  textsWritten (snd (Agent.onYield w ts event s))
  = match textOf event with Some content => [content] | None => [] end.
Proof.
  destruct event as [[id name|]|[content|partial|]| |stop|]; simpl;
    try destruct (Agent.currentToolUse ts); done.
Qed.

Lemma yields_texts ts s events :
  textsWritten (snd (Agent.consume w ts (map (fun e => Agent.Yield e s) events)))
  = omap textOf events.
Proof.
  revert ts. induction events as [|e events IH]; intros ts; [done|].
  cbn [map Agent.consume omap list_omap].
  pose proof (onYield_texts ts e s) as Hy.
  destruct (Agent.onYield w ts e s) as [ts1 out]. specialize (IH ts1).
  destruct (Agent.consume w ts1 _) as [ts2 out']. cbn [snd] in *.
  rewrite textsWritten_app, Hy, IH. by destruct (textOf e).
Qed.

Lemma texts_consume_app ts steps1 steps2 :
  textsWritten (snd (Agent.consume w ts (steps1 ++ steps2)))
  = textsWritten (snd (Agent.consume w ts steps1))
    ++ textsWritten (snd (Agent.consume w (fst (Agent.consume w ts steps1)) steps2)).
Proof.
  rewrite consume_app. destruct (Agent.consume w ts steps1) as [ts1 out1]. cbn [fst snd].
  destruct (Agent.consume w ts1 steps2) as [ts2 out2]. apply textsWritten_app.
Qed.

Lemma retryLoop_texts open maxRetries remaining attempt call ts :
  textsWritten (snd (Agent.consume w ts
    (Agent.steps (Agent.retryLoop open maxRetries remaining attempt call))))
  = concat (map (fun k => omap textOf (Agent.events (open (call + k)%nat)))
                (seq 0 (Agent.opened
                          (Agent.retryLoop open maxRetries remaining attempt call)))).
Proof.
  revert attempt call ts. induction remaining as [|r IH]; intros attempt call ts; [done|].
  cbn [Agent.retryLoop]. cbv zeta.
  destruct (Agent.failure (open call)) as [err|].
  - destruct (Agent.is429 err && (attempt <? maxRetries)%nat).
    + cbn [Agent.steps Agent.opened seq map concat].
      rewrite texts_consume_app, yields_texts, Nat.add_0_r. f_equal.
      cbn [app Agent.consume].
      specialize (IH (S attempt) (S call)
                     (fst (Agent.consume w ts
                        (map (fun e => Agent.Yield e call) (Agent.events (open call)))))).
      destruct (Agent.consume w _ (Agent.steps _)) as [ts2 out']. cbn [snd] in *.
      change (textsWritten (Agent.Write (Agent.retrying (Agent.waitSecondsFor attempt))
                            :: Agent.Sleep (Agent.waitSecondsFor attempt * 1000) :: out'))
        with (textsWritten out').
      rewrite IH, <- seq_shift, map_map. f_equal. apply map_ext. intros k.
      by rewrite Nat.add_succ_r.
    + cbn [Agent.steps Agent.opened seq map concat].
      by rewrite yields_texts, Nat.add_0_r, app_nil_r.
  - cbn [Agent.steps Agent.opened seq map concat].
    by rewrite yields_texts, Nat.add_0_r, app_nil_r.
Qed.

Lemma runTools_length n tools :
  length (fst (Agent.runTools w n tools)) = length tools
  /\ map Agent.ToolResultBlock.tool_use_id (snd (Agent.runTools w n tools))
     = map Agent.ToolUse.id tools.
Proof.
  revert n. induction tools as [|tool tools IH]; intros n; [done|].
  cbn [Agent.runTools]. destruct (IH (S n)) as [Hlen Hids].
  destruct (Agent.runTools w (S n) tools) as [out results].
  destruct (Agent.executeTool w n _ _); cbn [fst snd length map] in *;
    by rewrite Hlen, Hids.
Qed.

Lemma runTools_lookup n tools i tool :
  tools !! i = Some tool ->
  match Agent.executeTool w (n + i) (Agent.ToolUse.name tool) (Agent.ToolUse.input tool) with
  | Ok result =>
      fst (Agent.runTools w n tools) !! i
      = Some (Agent.Write (Agent.tool_result (Agent.ToolUse.name tool) true None))
      /\ snd (Agent.runTools w n tools) !! i
         = Some (Agent.ToolResultBlock.mk (Agent.ToolUse.id tool) result false)
  | Throw e =>
      fst (Agent.runTools w n tools) !! i
      = Some (Agent.Write (Agent.tool_result (Agent.ToolUse.name tool) false (message e)))
      /\ snd (Agent.runTools w n tools) !! i
         = Some (Agent.ToolResultBlock.mk (Agent.ToolUse.id tool)
                   ("Error: " +:+ default "undefined" (message e)) true)
  end.
Proof.
  revert n i. induction tools as [|t tools IH]; intros n i; [done|].
  destruct i as [|i]; cbn [Agent.runTools].
  - intros [= ->]. rewrite Nat.add_0_r.
    destruct (Agent.runTools w (S n) tools) as [out results].
    by destruct (Agent.executeTool w n _ _).
  - intros Hi. specialize (IH (S n) i Hi). rewrite Nat.add_succ_r.
    change (S (n + i)) with (S n + i)%nat.
    destruct (Agent.runTools w (S n) tools) as [out results].
    by destruct (Agent.executeTool w n (Agent.ToolUse.name t) _).
Qed.

End Turn.

(** X14 (src/agent.ts, the stream loop of [streamAgent]): the events of a
    complete tool-use block file one tool request, whatever was pending
    before: its input is parsed from the JSON fragments received between
    the block's start and stop, joined in order, and the only thing
    written to the client is the [tool_call] notice. *)
Theorem tool_block_is_assembled_from_fragments (w : Agent.World)
    (ts : Agent.TurnState) (s : nat) (id name : string) (fragments : list string) :
  Agent.consume w ts (map (fun e => Agent.Yield e s) (toolBlockEvents id name fragments))
  = ({| Agent.toolUseBlocks :=
          Agent.toolUseBlocks ts
          ++ [Agent.ToolUse.mk id name (Agent.parseInput w (joined fragments))];
        Agent.currentToolUse := None;
        Agent.inputJsonBuffer := EmptyString;
        Agent.stopReason := Agent.stopReason ts;
        Agent.lastStream := Some s |},
     [Agent.Write (Agent.tool_call name)]).
Proof. apply consume_tool_block. Qed.

(** X15 (src/agent.ts, [streamEventsWithRetry] and the stream loop): the
    text written to the client during a turn is the text of every stream
    opened in that turn, in order; what a rate-limited attempt had
    delivered before it failed stays written and the next attempt's text
    follows it. *)
Theorem texts_of_failed_attempts_stay_written (w : Agent.World)
    (open : nat -> Agent.Attempt) (first : nat) (maxRetries : option nat) :
  let run := Agent.streamEventsWithRetry open first maxRetries in
  textsWritten (snd (Agent.consume w Agent.turnStart (Agent.steps run)))
  = concat (map (fun k => omap textOf (Agent.events (open (first + k)%nat)))
                (seq 0 (Agent.opened run))).
Proof. intros run. apply retryLoop_texts. Qed.

(** X16 (src/agent.ts, the tool loop of [streamAgent]): every requested
    tool gets exactly one [tool_result] event and one result block with
    its own id, in request order; a tool that throws is reported as failed
    with the error's message and the tools after it still run. *)
Theorem every_tool_use_gets_its_result (w : Agent.World) (n : nat)
    (tools : list Agent.ToolUse) :
  length (fst (Agent.runTools w n tools)) = length tools
  /\ map Agent.ToolResultBlock.tool_use_id (snd (Agent.runTools w n tools))
     = map Agent.ToolUse.id tools
  /\ forall i tool, tools !! i = Some tool ->
       match Agent.executeTool w (n + i) (Agent.ToolUse.name tool)
                               (Agent.ToolUse.input tool) with
       | Ok result =>
           fst (Agent.runTools w n tools) !! i
           = Some (Agent.Write (Agent.tool_result (Agent.ToolUse.name tool) true None))
           /\ snd (Agent.runTools w n tools) !! i
              = Some (Agent.ToolResultBlock.mk (Agent.ToolUse.id tool) result false)
       | Throw e =>
           fst (Agent.runTools w n tools) !! i
           = Some (Agent.Write
                     (Agent.tool_result (Agent.ToolUse.name tool) false (message e)))
           /\ snd (Agent.runTools w n tools) !! i
              = Some (Agent.ToolResultBlock.mk (Agent.ToolUse.id tool)
                        ("Error: " +:+ default "undefined" (message e)) true)
       end.
Proof.
  destruct (runTools_length w n tools) as [Hlen Hids].
  split; [done|]. split; [done|]. intros i tool. apply runTools_lookup.
Qed.

Section Run.
Variables (w : Agent.World) (model : string).

Lemma turn_single_tool st id name fragments content :
  Agent.stream w (Agent.streamsOpened st)
    (Agent.Params.mk model 4096 (Agent.anthropicMessages st))
  = {| Agent.events := toolBlockEvents id name fragments
                       ++ [Agent.message_delta (Some "tool_use")];
       Agent.failure := None |} ->
  Agent.finalMessage w (Agent.streamsOpened st) = Ok content ->
  Agent.turn w model st
  = let tool := Agent.ToolUse.mk id name (Agent.parseInput w (joined fragments)) in
    let '(out, results) := Agent.runTools w (Agent.toolsRun st) [tool] in
    ({| Agent.anthropicMessages :=
          (Agent.anthropicMessages st
           ++ [Agent.MessageParam.mk assistant (Agent.blocks content)])
          ++ [Agent.MessageParam.mk user (Agent.toolResults results)];
        Agent.streamsOpened := (Agent.streamsOpened st + 1)%nat;
        Agent.toolsRun := (Agent.toolsRun st + 1)%nat;
        Agent.trace := Agent.trace st ++ [Agent.Write (Agent.tool_call name)] ++ out |},
     Ok true).
Proof.
  intros Hstream Hfinal. unfold Agent.turn. cbv zeta.
  change (Agent.streamEventsWithRetry ?o ?f None) with (Agent.retryLoop o 3 4 0 f).
  cbn [Agent.retryLoop]. cbv zeta. rewrite Hstream.
  cbn [Agent.failure Agent.events Agent.steps Agent.outcome Agent.opened].
  rewrite map_app, consume_app, consume_tool_block.
  cbn [map Agent.consume Agent.onYield Agent.toolUseBlocks Agent.currentToolUse
       Agent.inputJsonBuffer Agent.stopReason Agent.lastStream app].
  rewrite Hfinal. done.
Qed.

End Run.

Section Conversation.
Variables (w : Agent.World) (model : string).

Lemma turn_messages st :
  exists added,
    Agent.anthropicMessages (fst (Agent.turn w model st))
    = Agent.anthropicMessages st ++ added
    /\ match snd (Agent.turn w model st) with
       | Ok true =>
           exists content results,
             added = [Agent.MessageParam.mk assistant (Agent.blocks content);
                      Agent.MessageParam.mk user (Agent.toolResults results)]
       | Ok false =>
           exists content, added = [Agent.MessageParam.mk assistant (Agent.blocks content)]
       | Throw _ => added = []
       end.
Proof.
  unfold Agent.turn. cbv zeta.
  destruct (Agent.consume w Agent.turnStart _) as [ts out].
  destruct (Agent.outcome _); [|exists []; by rewrite app_nil_r].
  destruct (Agent.lastStream ts) as [s|]; [|exists []; by rewrite app_nil_r].
  destruct (Agent.finalMessage w s) as [content|e]; [|exists []; by rewrite app_nil_r].
  destruct (bool_decide _ && _).
  - destruct (Agent.runTools w _ _) as [out' results]. cbn [fst snd].
    eexists. split; [by rewrite <- app_assoc|]. by exists content, results.
  - cbn [fst snd]. eexists. split; [done|]. by exists content.
Qed.

Lemma agentLoop_messages fuel st st' r :
  Agent.agentLoop w model fuel st = Some (st', r) ->
  exists added,
    Agent.anthropicMessages st' = Agent.anthropicMessages st ++ added
    /\ repliesAndResults added
    /\ Nat.odd (length added) = match r with Ok _ => true | Throw _ => false end.
Proof.
  revert st. induction fuel as [|fuel IH]; intros st; [discriminate|].
  cbn [Agent.agentLoop]. destruct (turn_messages st) as (added & Hadd & Hshape).
  destruct (Agent.turn w model st) as [st1 [[]|e]]; cbn [fst snd] in *.
  - destruct Hshape as (content & results & ->).
    intros (added' & Hadd' & Hshape' & Hodd)%IH.
    exists ([Agent.MessageParam.mk assistant (Agent.blocks content);
             Agent.MessageParam.mk user (Agent.toolResults results)] ++ added').
    split; [by rewrite Hadd', Hadd, app_assoc|]. split.
    + cbn [app repliesAndResults Agent.MessageParam.role Agent.MessageParam.content].
      eauto 10.
    + by rewrite <- Hodd.
  - destruct Hshape as (content & ->). intros [= <- <-].
    eexists. split; [done|]. split; [|done]. cbn. eauto.
  - subst added. intros [= <- <-]. exists []. by rewrite Hadd.
Qed.

End Conversation.

(** X17 (src/agent.ts, [executeTool] and the tool loop of [streamAgent]):
    when the model asks for a tool the agent does not have, the turn does
    not fail: the client is told [tool_call] and then a failed
    [tool_result] with ["Unknown tool: <name>"], the model gets an error
    result block under the request's id, and the loop goes on to the next
    turn. *)
Theorem unknown_tool_is_reported_and_loop_continues (w : Agent.World) (model : string)
    (st : Agent.AgentState) (id name : string) (fragments : list string)
    (content : string) :
  name ∉ Agent.toolNames ->
  Agent.stream w (Agent.streamsOpened st)
    (Agent.Params.mk model 4096 (Agent.anthropicMessages st))
  = {| Agent.events := toolBlockEvents id name fragments
                       ++ [Agent.message_delta (Some "tool_use")];
       Agent.failure := None |} ->
  Agent.finalMessage w (Agent.streamsOpened st) = Ok content ->
  Agent.turn w model st
  = ({| Agent.anthropicMessages :=
          (Agent.anthropicMessages st
           ++ [Agent.MessageParam.mk assistant (Agent.blocks content)])
          ++ [Agent.MessageParam.mk user
                (Agent.toolResults
                   [Agent.ToolResultBlock.mk id ("Error: Unknown tool: " +:+ name) true])];
        Agent.streamsOpened := (Agent.streamsOpened st + 1)%nat;
        Agent.toolsRun := (Agent.toolsRun st + 1)%nat;
        Agent.trace :=
          Agent.trace st
          ++ [Agent.Write (Agent.tool_call name);
              Agent.Write (Agent.tool_result name false (Some ("Unknown tool: " +:+ name)))] |},
     Ok true).
Proof.
  intros Hname Hstream Hfinal.
  rewrite (turn_single_tool w model st id name fragments content Hstream Hfinal).
  cbv zeta. cbn [Agent.runTools Agent.ToolUse.name Agent.ToolUse.input Agent.ToolUse.id].
  unfold Agent.executeTool. rewrite bool_decide_eq_false_2 by done.
  cbn [message default from_option app]. done.
Qed.

Lemma unknown_tool_is_reported_and_loop_continues_witness :
  Agent.written (Agent.trace (fst (Agent.turn Unicorns.world "m" Unicorns.start)))
  = [Agent.tool_call "get_unicorns";
     Agent.tool_result "get_unicorns" false (Some "Unknown tool: get_unicorns")].
Proof.
  rewrite (unknown_tool_is_reported_and_loop_continues Unicorns.world "m" Unicorns.start
             "toolu_01" "get_unicorns" ["{"; "}"] "reply").
  - reflexivity.
  - apply (bool_decide_eq_false_1 ("get_unicorns" ∈ Agent.toolNames)). reflexivity.
  - reflexivity.
  - reflexivity.
Defined.

(** X18 (src/agent.ts, [streamAgent]): when the model API keeps answering
    with a rate-limit error, a run makes four attempts and gives up: it
    announces and waits 15, 30 and 45 seconds, then logs the error, writes
    [error] with its message and [done], and resolves. *)
Theorem persistent_rate_limit_ends_after_three_retries (w : Agent.World) (heap : Heap)
    (messages : list ref) (model : option string) (fuel : nat) (err : JsError) :
  messages <> [] ->
  Agent.is429 err = true ->
  (forall call params, (call < 4)%nat ->
     Agent.stream w call params = {| Agent.events := []; Agent.failure := Some err |}) ->
  Agent.streamAgent w heap messages model (S fuel)
  = Some ([Agent.Write (Agent.retrying 15); Agent.Sleep 15000;
           Agent.Write (Agent.retrying 30); Agent.Sleep 30000;
           Agent.Write (Agent.retrying 45); Agent.Sleep 45000;
           Agent.ConsoleError err; Agent.Write (Agent.error (message err));
           Agent.Write Agent.done], Ok tt).
Proof.
  intros Hne H429 Hbusy. unfold Agent.streamAgent. cbv zeta.
  destruct (toAnthropic_defined heap _ (trimHistory_defined heap messages Hne)) as [ms ->].
  cbn [Agent.agentLoop]. unfold Agent.turn. cbv zeta.
  change (Agent.streamEventsWithRetry ?o ?f None) with (Agent.retryLoop o 3 4 0 f).
  cbn [Agent.retryLoop Agent.anthropicMessages Agent.streamsOpened]. cbv zeta.
  rewrite !Hbusy by lia.
  cbn [Agent.failure Agent.events map app]. rewrite H429.
  done.
Qed.

Lemma persistent_rate_limit_ends_after_three_retries_witness :
  Agent.streamAgent (Talk.world (fun _ => Talk.busy)) Chat.heap [0%nat] None 1
  = Some ([Agent.Write (Agent.retrying 15); Agent.Sleep 15000;
           Agent.Write (Agent.retrying 30); Agent.Sleep 30000;
           Agent.Write (Agent.retrying 45); Agent.Sleep 45000;
           Agent.ConsoleError Talk.rateLimited;
           Agent.Write (Agent.error (Some "rate_limit_error"));
           Agent.Write Agent.done], Ok tt).
Proof.
  apply (persistent_rate_limit_ends_after_three_retries
           (Talk.world (fun _ => Talk.busy)) Chat.heap [0%nat] None 0 Talk.rateLimited).
  - discriminate.
  - reflexivity.
  - reflexivity.
Defined.

(** X19 (src/agent.ts, [streamAgent]): a model stream that completes
    without delivering any event leaves no stream to ask for the final
    message: reading [finalMessage] of [null] throws, and the run ends
    with an [error] event followed by [done]. *)
Theorem stream_without_events_is_an_error (w : Agent.World) (heap : Heap)
    (messages : list ref) (model : option string) (fuel : nat) :
  messages <> [] ->
  (forall params,
     Agent.stream w 0 params = {| Agent.events := []; Agent.failure := None |}) ->
  exists e,
    Agent.streamAgent w heap messages model (S fuel)
    = Some ([Agent.ConsoleError e; Agent.Write (Agent.error (message e));
             Agent.Write Agent.done], Ok tt)
    /\ e = TypeError "Cannot read properties of null (reading 'finalMessage')".
Proof.
  intros Hne Hsilent. eexists. split; [|reflexivity].
  unfold Agent.streamAgent. cbv zeta.
  destruct (toAnthropic_defined heap _ (trimHistory_defined heap messages Hne)) as [ms ->].
  cbn [Agent.agentLoop]. unfold Agent.turn. cbv zeta.
  change (Agent.streamEventsWithRetry ?o ?f None) with (Agent.retryLoop o 3 4 0 f).
  cbn [Agent.retryLoop Agent.anthropicMessages Agent.streamsOpened]. cbv zeta.
  rewrite Hsilent. done.
Qed.

Lemma stream_without_events_is_an_error_witness :
  exists e,
    Agent.streamAgent Silent.world Chat.heap [0%nat] None 1
    = Some ([Agent.ConsoleError e; Agent.Write (Agent.error (message e));
             Agent.Write Agent.done], Ok tt)
    /\ e = TypeError "Cannot read properties of null (reading 'finalMessage')".
Proof.
  apply (stream_without_events_is_an_error Silent.world Chat.heap [0%nat] None 0).
  - discriminate.
  - reflexivity.
Defined.

(** X20 (src/agent.ts, the [while] loop of [streamAgent]): a run that ends
    has only appended to the conversation: assistant replies, each but the
    last followed by one user message holding tool results.  The appended
    part ends with an assistant reply exactly when the loop ended without
    an exception. *)
Theorem conversation_grows_by_replies_and_results (w : Agent.World) (model : string)
    (fuel : nat) (st st' : Agent.AgentState) (r : Result unit) :
  Agent.agentLoop w model fuel st = Some (st', r) ->
  exists added,
    Agent.anthropicMessages st' = Agent.anthropicMessages st ++ added
    /\ repliesAndResults added
    /\ Nat.odd (length added) = match r with Ok _ => true | Throw _ => false end.
Proof. apply agentLoop_messages. Qed.

Lemma conversation_grows_by_replies_and_results_witness :
  exists st' added,
    Agent.agentLoop Unicorns.world "m" 2 Unicorns.start = Some (st', Ok tt)
    /\ Agent.anthropicMessages st' = Agent.anthropicMessages Unicorns.start ++ added
    /\ length added = 3%nat.
Proof.
  destruct (Agent.agentLoop Unicorns.world "m" 2 Unicorns.start)
    as [[st' [[]|e]]|] eqn:Hrun; try (vm_compute in Hrun; discriminate).
  destruct (conversation_grows_by_replies_and_results _ _ _ _ _ _ Hrun)
    as (added & Hadd & _ & _).
  exists st', added. split; [done|]. split; [done|].
  apply (f_equal length) in Hadd. rewrite length_app in Hadd.
  vm_compute in Hrun. injection Hrun as <-. simpl in Hadd. lia.
Defined.

(** X21 (src/agent.ts, [streamAgent]): with at least one message in the
    history, a run that ends resolves, and [done] is the last event
    written and the only [done]; a failure inside the loop puts the one
    [error] event right before it. *)
Theorem nonempty_history_ends_with_single_done (w : Agent.World) (heap : Heap)
    (messages : list ref) (model : option string) (fuel : nat)
    (t : list Agent.Effect) (r : Result unit) :
  messages <> [] ->
  Agent.streamAgent w heap messages model fuel = Some (t, r) ->
  r = Ok tt
  /\ exists before,
       Forall (fun ev => ev <> Agent.done /\ forall m, ev <> Agent.error m) before
       /\ (Agent.written t = before ++ [Agent.done]
           \/ exists m, Agent.written t = before ++ [Agent.error m; Agent.done]).
Proof. apply streamAgent_done_last. Qed.

Lemma nonempty_history_ends_with_single_done_witness :
  exists before,
    Forall (fun ev => ev <> Agent.done /\ forall m, ev <> Agent.error m) before
    /\ (Agent.written [Agent.Write (Agent.text "hi"); Agent.Write Agent.done]
        = before ++ [Agent.done]
        \/ exists m, Agent.written [Agent.Write (Agent.text "hi"); Agent.Write Agent.done]
                     = before ++ [Agent.error m; Agent.done]).
Proof.
  refine (proj2 (nonempty_history_ends_with_single_done
                   (Talk.world (fun _ => Talk.answer)) Chat.heap [0%nat] None 1
                   _ (Ok tt) _ _)).
  - discriminate.
  - reflexivity.
Defined.

(** * Further properties of the resolver's results *)

Lemma scan_values_sessionOf (subs : list CFSubmission) (sessions : JSMap.t SimSession)
    (sim : SimSession) :
  sim ∈ JSMap.values (foldl Resolver.scanSubmission sessions subs) ->
  sim ∈ JSMap.values sessions \/ exists s, s ∈ subs /\ sim = Resolver.sessionOf s.
Proof.
  revert sessions. induction subs as [|s subs IH]; intros sessions; simpl; [by left|].
  intros [Hin|(s' & Hs' & ->)]%IH.
  - rewrite scanSubmission_eq in Hin.
    destruct (candidate s && negb (JSMap.has (keyOf s) sessions)); [|by left].
    unfold JSMap.values in Hin. rewrite map_app in Hin.
    apply elem_of_app in Hin as [Hin|Hin]; [by left|].
    right. exists s. split; [by left|]. simpl in Hin. by apply list_elem_of_singleton in Hin.
  - right. exists s'. split; [by right | done].
Qed.

Lemma selectTop_subset (sessions : JSMap.t SimSession) (limit : Z) (sim : SimSession) :
  sim ∈ Resolver.selectTop sessions limit -> sim ∈ JSMap.values sessions.
Proof.
  unfold Resolver.selectTop. intros Hin.
  destruct (slice0_prefix (JS.sortBy Resolver.newerFirst (JSMap.values sessions)) limit)
    as [rest Hrest].
  rewrite <- (sortBy_Permutation Resolver.newerFirst (JSMap.values sessions)), Hrest.
  apply elem_of_app. by left.
Qed.

(** X22 (src/agent.ts, [getGymSimulations]): the members of every returned
    result are listed in ascending order: they are the handles sorted when
    the session was stored, or the requesting handle alone. *)
Theorem result_members_in_ascending_order
    (cf : CFApi) (handle : string) (limit : Z) (res : GymSimulationsResult) :
  Resolver.getGymSimulations cf handle (Some limit) = Ok res ->
  Forall (fun g => Sorted (fun a b => String.leb a b = true) (GymResult.members g))
         (GymSimulationsResult.gyms res).
Proof.
  intros Hres.
  destruct (getGymSimulations_scanned _ _ _ _ Hres) as [sessions Hscan].
  destruct (gyms_spec cf handle limit sessions res Hscan Hres) as (_ & Hlen & Hgyms).
  apply Forall_lookup. intros j g Hg.
  destruct (Resolver.selectTop sessions limit !! j) as [sim|] eqn:Hj.
  - destruct (Hgyms j sim Hj) as (gymList & g0 & _ & Hshape & Hg').
    assert (g = withStandings (standingsFor cf j sim) g0) as -> by congruence.
    apply shape_inv in Hshape as (_ & _ & _ & Hm & _). cbn [withStandings GymResult.members].
    rewrite Hm. destruct (length (SimSession.members sim) =? 0)%nat.
    { repeat constructor. }
    apply list_elem_of_lookup_2, selectTop_subset in Hj.
    apply scanPages_fold in Hscan as [subs ->].
    apply scan_values_sessionOf in Hj as [Hj|(s & _ & ->)].
    + by apply elem_of_nil in Hj.
    + apply sessionOf_members_sorted.
  - apply lookup_ge_None in Hj. apply lookup_lt_Some in Hg. lia.
Qed.

Lemma result_members_in_ascending_order_witness :
  Forall (fun g => Sorted (fun a b => String.leb a b = true) (GymResult.members g))
         (gymsOf (Resolver.getGymSimulations Fixtures.happyPath "automac" (Some 10))).
Proof.
  destruct (Resolver.getGymSimulations Fixtures.happyPath "automac" (Some 10))
    as [res|e] eqn:Hres; [|vm_compute in Hres; discriminate].
  exact (result_members_in_ascending_order Fixtures.happyPath "automac" 10 res Hres).
Defined.

(** * The problem set trimmer *)

Section StatKeys.

Lemma pretty_N_char_digit (x : N) : digit (pretty_N_char x) = true.
Proof. unfold pretty_N_char. by repeat case_match. Qed.

Lemma pretty_N_go_digits (x : N) (s : string) : digits s -> digits (pretty_N_go x s).
Proof.
  revert s. induction (N.lt_wf_0 x) as [x _ IH]; intros s Hs.
  destruct (decide (x = 0)%N) as [->|Hx].
  - by rewrite pretty_N_go_0.
  - rewrite pretty_N_go_step by lia. apply IH.
    + apply N.div_lt; lia.
    + split; [apply pretty_N_char_digit | done].
Qed.

Lemma pretty_N_go_nonempty (x : N) (s : string) :
  s <> EmptyString -> pretty_N_go x s <> EmptyString.
Proof.
  revert s. induction (N.lt_wf_0 x) as [x _ IH]; intros s Hs.
  destruct (decide (x = 0)%N) as [->|Hx].
  - by rewrite pretty_N_go_0.
  - rewrite pretty_N_go_step by lia. apply IH; [apply N.div_lt; lia | done].
Qed.

Lemma pretty_N_digits (x : N) : digits (pretty x) /\ pretty x <> EmptyString.
Proof.
  unfold pretty, pretty_N. case_decide; simpl; [done|]. split.
  - by apply pretty_N_go_digits.
  - rewrite pretty_N_go_step by lia. by apply pretty_N_go_nonempty.
Qed.

Lemma digits_dashFree (s : string) : digits s -> dashFree s.
Proof.
  induction s as [|c s IH]; [done|]. intros [Hc Hs]. split; [|by apply IH].
  by intros ->.
Qed.

Lemma dash_split_inj (a c b d : string) :
  dashFree a -> dashFree c ->
  a +:+ "-" +:+ b = c +:+ "-" +:+ d -> a = c /\ b = d.
Proof.
  revert c. induction a as [|x a IH]; intros [|y c]; simpl; intros Ha Hc Heq.
  - by inversion Heq.
  - inversion Heq; subst. by destruct Hc as [[] _].
  - inversion Heq; subst. by destruct Ha as [[] _].
  - inversion Heq; subst. destruct Ha as [_ Ha], Hc as [_ Hc].
    destruct (IH c Ha Hc) as [-> ->]; done.
Qed.

(** How a contest id reads in a key: digits, digits after a minus sign, or
    the word for an absent id. *)
Lemma rendered_id (contestId : option Z) :
  let text := match contestId with Some c => JS.num c | None => "undefined" end in
  (dashFree text /\ exists x rest, text = String x rest /\ x <> "-"%char)
  \/ (exists body, text = String "-" body /\ digits body).
Proof.
  destruct contestId as [[|p|p]|]; cbv zeta.
  - left. split; [by split|]. by exists "0"%char, EmptyString.
  - left. destruct (pretty_N_digits (N.pos p)) as [Hd Hne].
    change (JS.num (Z.pos p)) with (pretty (N.pos p)).
    split; [by apply digits_dashFree|].
    destruct (pretty (N.pos p)) as [|x rest]; [done|]. exists x, rest. split; [done|].
    destruct Hd as [Hx _]. by intros ->.
  - right. exists (pretty (N.pos p)). split; [done|]. apply pretty_N_digits.
  - left. split; [by repeat split|]. by exists "u"%char, "ndefined".
Qed.

Lemma rendered_id_inj (c1 c2 : option Z) :
  match c1 with Some c => JS.num c | None => "undefined" end
  = match c2 with Some c => JS.num c | None => "undefined" end ->
  c1 = c2.
Proof.
  destruct c1 as [z1|], c2 as [z2|]; intros H; [| | |done].
  - f_equal. by apply (inj pretty).
  - exfalso. destruct z1 as [|p|p]; [done| |done].
    destruct (pretty_N_digits (N.pos p)) as [Hd _].
    change (JS.num (Z.pos p)) with (pretty (N.pos p)) in H. rewrite H in Hd.
    by destruct Hd as [? _].
  - exfalso. destruct z2 as [|p|p]; [done| |done].
    destruct (pretty_N_digits (N.pos p)) as [Hd _].
    change (JS.num (Z.pos p)) with (pretty (N.pos p)) in H. rewrite <- H in Hd.
    by destruct Hd as [? _].
Qed.

Lemma statKey_inj (c1 c2 : option Z) (i1 i2 : string) :
  Problemset.statKey c1 i1 = Problemset.statKey c2 i2 -> c1 = c2 /\ i1 = i2.
Proof.
  unfold Problemset.statKey. intros H.
  cut (match c1 with Some c => JS.num c | None => "undefined" end
       = match c2 with Some c => JS.num c | None => "undefined" end /\ i1 = i2).
  { intros [Hc ->]. split; [by apply rendered_id_inj | done]. }
  destruct (rendered_id c1) as [[Hf1 (x1 & r1 & E1 & Hx1)]|(b1 & E1 & Hd1)],
           (rendered_id c2) as [[Hf2 (x2 & r2 & E2 & Hx2)]|(b2 & E2 & Hd2)].
  - by apply dash_split_inj.
  - rewrite E1, E2, !append_cons in H. by inversion H.
  - rewrite E1, E2, !append_cons in H. by inversion H.
  - rewrite E1, E2, !append_cons in *. inversion H as [H'].
    apply dash_split_inj in H' as [-> ->]; [done | by apply digits_dashFree..].
Qed.

Lemma statMapOf_lookup (stats : list Problemset.Statistics.t) (c : option Z) (i : string) :
  Problemset.statMapOf stats !! Problemset.statKey c i = lastStat c i stats.
Proof.
  unfold Problemset.statMapOf, lastStat.
  induction stats as [|s stats IH] using rev_ind; [done|].
  rewrite foldl_app, List.filter_app. cbn [foldl List.filter].
  unfold sameProblem at 2.
  destruct (decide (Problemset.Statistics.contestId s = c /\ Problemset.Statistics.index s = i))
    as [[Hc Hi]|Hne].
  - rewrite Hc, Hi, lookup_insert_eq, bool_decide_eq_true_2, String.eqb_refl by done.
    cbn [andb]. by rewrite last_snoc.
  - rewrite lookup_insert_ne by (by intros ?%statKey_inj). rewrite IH.
    destruct (bool_decide _ && _) eqn:Hb; [|by rewrite app_nil_r].
    apply andb_true_iff in Hb as [Hc%bool_decide_eq_true Hi%String.eqb_eq]. by destruct Hne.
Qed.

Lemma slice0_take {A} (l : list A) (n : Z) : 0 <= n -> JS.slice0 l n = take (Z.to_nat n) l.
Proof.
  intros Hn. unfold JS.slice0. cbv zeta.
  destruct (n <? 0) eqn:Hneg; [lia|].
  destruct (Z.le_gt_cases n (Z.of_nat (length l))).
  - by rewrite Z.min_l.
  - rewrite Z.min_r, Nat2Z.id, !take_ge by lia. done.
Qed.

End StatKeys.

(** X23 (src/agent.ts, [trimProblems]): at most the first 300 problems are
    returned, in order, and each is joined with the statistics on exactly
    its contest id and index: [solvedCount] is that of the last statistics
    entry with the same contest id (or likewise none) and the same index,
    and undefined when there is no such entry. *)
Theorem trimProblems_joins_on_contest_and_index (data : Problemset.Response.t) :
  let problems := default [] (Problemset.Response.problems data) in
  let stats := default [] (Problemset.Response.problemStatistics data) in
  Problemset.trimProblems data
  = map (fun p =>
           Problemset.Trimmed.mk
             (Problemset.Problem.contestId p) (Problemset.Problem.index p)
             (Problemset.Problem.name p) (Problemset.Problem.rating p)
             (Problemset.Problem.tags p)
             (lastStat (Problemset.Problem.contestId p) (Problemset.Problem.index p) stats))
        (take 300 problems).
Proof.
  intros problems stats. unfold Problemset.trimProblems. cbv zeta.
  fold problems. fold stats. rewrite slice0_take by lia.
  change (Z.to_nat 300) with 300%nat.
  apply map_ext. intros p. by rewrite statMapOf_lookup.
Qed.

(** * The turn after a retry *)

Section Retried.
Variables (w : Agent.World) (model : string).

Lemma turn_retried_tool st id name fragments err content :
  Agent.is429 err = true ->
  Agent.stream w (Agent.streamsOpened st)
    (Agent.Params.mk model 4096 (Agent.anthropicMessages st))
  = {| Agent.events := toolBlockEvents id name fragments; Agent.failure := Some err |} ->
  Agent.stream w (S (Agent.streamsOpened st))
    (Agent.Params.mk model 4096 (Agent.anthropicMessages st))
  = {| Agent.events := toolBlockEvents id name fragments
                       ++ [Agent.message_delta (Some "tool_use")];
       Agent.failure := None |} ->
  Agent.finalMessage w (S (Agent.streamsOpened st)) = Ok content ->
  Agent.turn w model st
  = let tool := Agent.ToolUse.mk id name (Agent.parseInput w (joined fragments)) in
    let '(out, results) := Agent.runTools w (Agent.toolsRun st) [tool; tool] in
    ({| Agent.anthropicMessages :=
          (Agent.anthropicMessages st
           ++ [Agent.MessageParam.mk assistant (Agent.blocks content)])
          ++ [Agent.MessageParam.mk user (Agent.toolResults results)];
        Agent.streamsOpened := (Agent.streamsOpened st + 2)%nat;
        Agent.toolsRun := (Agent.toolsRun st + 2)%nat;
        Agent.trace :=
          Agent.trace st
          ++ [Agent.Write (Agent.tool_call name); Agent.Write (Agent.retrying 15);
              Agent.Sleep 15000; Agent.Write (Agent.tool_call name)]
          ++ out |},
     Ok true).
Proof.
  intros H429 Hfirst Hsecond Hfinal. unfold Agent.turn. cbv zeta.
  change (Agent.streamEventsWithRetry ?o ?f None) with (Agent.retryLoop o 3 4 0 f).
  cbn [Agent.retryLoop]. cbv zeta. rewrite Hfirst, Hsecond.
  cbn [Agent.failure Agent.events]. rewrite H429.
  cbn [andb Nat.ltb Nat.leb Agent.steps Agent.outcome Agent.opened].
  rewrite consume_app, consume_tool_block. cbn [app Agent.consume].
  rewrite map_app, consume_app, consume_tool_block.
  cbn [map Agent.consume Agent.onYield Agent.toolUseBlocks Agent.currentToolUse
       Agent.inputJsonBuffer Agent.stopReason Agent.lastStream app].
  rewrite Hfinal. done.
Qed.

End Retried.

(** X24 (src/agent.ts, [streamEventsWithRetry] and the loops of
    [streamAgent]): a retry starts a new stream but not a new turn.  A tool
    block completed before the stream failed with a rate-limit error stays
    filed, so when the retried stream delivers the block again the tool is
    announced twice, run twice, and the model gets two result blocks under
    the same id. *)
Theorem tool_block_before_rate_limit_runs_twice (w : Agent.World) (model : string)
    (st : Agent.AgentState) (id name : string) (fragments : list string)
    (err : JsError) (content : string) :
  Agent.is429 err = true ->
  Agent.stream w (Agent.streamsOpened st)
    (Agent.Params.mk model 4096 (Agent.anthropicMessages st))
  = {| Agent.events := toolBlockEvents id name fragments; Agent.failure := Some err |} ->
  Agent.stream w (S (Agent.streamsOpened st))
    (Agent.Params.mk model 4096 (Agent.anthropicMessages st))
  = {| Agent.events := toolBlockEvents id name fragments
                       ++ [Agent.message_delta (Some "tool_use")];
       Agent.failure := None |} ->
  Agent.finalMessage w (S (Agent.streamsOpened st)) = Ok content ->
  exists st' first second,
    Agent.turn w model st = (st', Ok true)
    /\ Agent.toolsRun st' = (Agent.toolsRun st + 2)%nat
    /\ last (Agent.anthropicMessages st')
       = Some (Agent.MessageParam.mk user (Agent.toolResults [first; second]))
    /\ Agent.ToolResultBlock.tool_use_id first = id
    /\ Agent.ToolResultBlock.tool_use_id second = id
    /\ exists r1 r2,
         Agent.written (Agent.trace st')
         = Agent.written (Agent.trace st)
           ++ [Agent.tool_call name; Agent.retrying 15; Agent.tool_call name;
               Agent.tool_result name (fst r1) (snd r1);
               Agent.tool_result name (fst r2) (snd r2)].
Proof.
  intros H429 Hfirst Hsecond Hfinal.
  rewrite (turn_retried_tool w model st id name fragments err content
             H429 Hfirst Hsecond Hfinal).
  cbv zeta. cbn [Agent.runTools Agent.ToolUse.name Agent.ToolUse.input Agent.ToolUse.id].
  destruct (Agent.executeTool w (S (Agent.toolsRun st)) name _) as [res2|e2];
    destruct (Agent.executeTool w (Agent.toolsRun st) name _) as [res1|e1];
    do 3 eexists; (split; [reflexivity|]);
    cbn [Agent.toolsRun Agent.anthropicMessages Agent.trace];
    rewrite last_snoc, written_app;
    (split; [done|]); (split; [done|]); (split; [done|]); (split; [done|]).
  - by exists (true, None), (true, None).
  - by exists (false, message e1), (true, None).
  - by exists (true, None), (false, message e2).
  - by exists (false, message e1), (false, message e2).
Qed.

Lemma tool_block_before_rate_limit_runs_twice_witness :
  exists st',
    Agent.turn Flaky.world "m" Unicorns.start = (st', Ok true)
    /\ Agent.toolsRun st' = 2%nat.
Proof.
  destruct (tool_block_before_rate_limit_runs_twice Flaky.world "m" Unicorns.start
              "toolu_01" "get_user_rating" ["{"; "}"] Talk.rateLimited "reply")
    as (st' & first & second & Hturn & Hrun & _); try reflexivity.
  by exists st'.
Defined.

(** * The chat endpoint *)

Section Endpoint.
Variables (w : Agent.World) (heap : Heap).

Lemma streamAgent_trace (messages : list ref) model fuel t r :
  messages <> [] ->
  Agent.streamAgent w heap messages model fuel = Some (t, r) ->
  r = Ok tt
  /\ exists before, t = before ++ [Agent.Write Agent.done]
                    /\ Forall (fun e => e <> Agent.Write Agent.done) before.
Proof.
  intros Hne. unfold Agent.streamAgent. cbv zeta.
  destruct (toAnthropic_defined heap _ (trimHistory_defined heap messages Hne)) as [ms ->].
  destruct (Agent.agentLoop w _ fuel _) as [[st [[]|e]]|] eqn:Hloop; [| |discriminate].
  - intros [= <- <-]. split; [done|].
    apply agentLoop_trace in Hloop as (extra & -> & Hq). simpl.
    exists extra. split; [done|].
    eapply Forall_impl; [exact Hq|]. by intros x Hx ->.
  - intros [= <- <-]. split; [done|].
    apply agentLoop_trace in Hloop as (extra & -> & Hq). simpl.
    exists (extra ++ [Agent.ConsoleError e; Agent.Write (Agent.error (message e))]).
    split; [by rewrite <- app_assoc|].
    apply Forall_app. split.
    + eapply Forall_impl; [exact Hq|]. by intros x Hx ->.
    + by repeat constructor.
Qed.

Lemma streamAgent_empty model fuel :
  exists e, Agent.streamAgent w heap [] model fuel = Some ([], Throw e).
Proof. by eexists. Qed.

End Endpoint.

Lemma streamAgent_enough (w : Agent.World) (heap : Heap) (messages : list ref)
    model fuel more r :
  Agent.streamAgent w heap messages model fuel = Some r ->
  Agent.streamAgent w heap messages model (fuel + more) = Some r.
Proof.
  intros Hrun. induction more as [|more IH].
  - by rewrite Nat.add_0_r.
  - rewrite Nat.add_succ_r. by apply streamAgent_more.
Qed.

(** A model that answers every request with a request for a tool keeps
    the loop running. *)
Lemma agentLoop_asks_forever (w : Agent.World) (model : string)
    (id name : string) (fragments : list string) (content : string) :
  (forall call params,
     Agent.stream w call params
     = {| Agent.events := toolBlockEvents id name fragments
                          ++ [Agent.message_delta (Some "tool_use")];
          Agent.failure := None |}) ->
  (forall call, Agent.finalMessage w call = Ok content) ->
  forall fuel st, Agent.agentLoop w model fuel st = None.
Proof.
  intros Hstream Hfinal fuel. induction fuel as [|fuel IH]; intros st; [done|].
  cbn [Agent.agentLoop].
  rewrite (turn_single_tool w model st id name fragments content (Hstream _ _) (Hfinal _)).
  cbv zeta. destruct (Agent.runTools w _ _) as [out results]. apply IH.
Qed.

(** X25 (server.js, the handler of [POST /api/chat]; src/agent.ts,
    [streamAgent]): for an array of messages the handler sends the event
    stream headers first.  With an empty array it then rejects at once,
    without calling [res.end()].  With at least one message the handler
    ends the response exactly when the agent's run ends: as soon as the
    run has ended, the handler resolves after a response that closes with
    the [done] event followed directly by [res.end()], neither occurring
    earlier; while the run goes on, the handler goes on; and the run never
    ends when the model answers every request with a request for a tool. *)
Theorem chat_response_ends_after_done (w : Agent.World) (heap : Heap)
    (messages : list ref) (model : option string) (fuel : nat) :
  (Agent.streamAgent w heap messages model fuel = None ->
   Server.chat w heap (Server.array messages) model fuel = None)
  /\ (messages = [] ->
      exists e,
        Server.chat w heap (Server.array messages) model fuel
        = Some (Server.headers, Throw e))
  /\ (messages <> [] ->
      forall t r,
        Agent.streamAgent w heap messages model fuel = Some (t, r) ->
        exists events,
          (forall more,
             Server.chat w heap (Server.array messages) model (fuel + more)
             = Some (Server.headers ++ events
                     ++ [Server.agent (Agent.Write Agent.done); Server.end_], Ok tt))
          /\ map Server.agent t = events ++ [Server.agent (Agent.Write Agent.done)]
          /\ Forall (fun x => x <> Server.end_
                              /\ x <> Server.agent (Agent.Write Agent.done)) events)
  /\ (messages <> [] ->
      forall id name fragments content,
        (forall call params,
           Agent.stream w call params
           = {| Agent.events := toolBlockEvents id name fragments
                                ++ [Agent.message_delta (Some "tool_use")];
                Agent.failure := None |}) ->
        (forall call, Agent.finalMessage w call = Ok content) ->
        Server.chat w heap (Server.array messages) model fuel = None).
Proof.
  unfold Server.chat. split; [by intros ->|]. split; [|split].
  - intros ->. destruct (streamAgent_empty w heap model fuel) as [e ->]. by exists e.
  - intros Hne t r Hagent.
    destruct (streamAgent_trace w heap messages model fuel t r Hne Hagent)
      as (-> & before & -> & Hbefore).
    exists (map Server.agent before). split; [|split].
    + intros more. rewrite (streamAgent_enough w heap messages model fuel more _ Hagent).
      by rewrite map_app, <- !app_assoc.
    + by rewrite map_app.
    + apply Forall_forall. intros x Hx.
      apply list_elem_of_In, in_map_iff in Hx as (e & <- & He).
      apply list_elem_of_In in He. rewrite Forall_forall in Hbefore.
      split; [done|]. intros [= ->]. by apply (Hbefore _ He).
  - intros Hne id name fragments content Hstream Hfinal.
    unfold Agent.streamAgent. cbv zeta.
    destruct (toAnthropic_defined heap _ (trimHistory_defined heap messages Hne)) as [ms ->].
    by rewrite (agentLoop_asks_forever w _ id name fragments content Hstream Hfinal).
Qed.

Lemma chat_response_ends_after_done_witness :
  Server.chat (Talk.world (fun _ => Talk.answer)) Chat.heap (Server.array [0%nat]) None 1
  = Some (Server.headers
          ++ [Server.agent (Agent.Write (Agent.text "hi"))]
          ++ [Server.agent (Agent.Write Agent.done); Server.end_], Ok tt).
Proof.
  destruct (proj1 (proj2 (proj2 (chat_response_ends_after_done
                     (Talk.world (fun _ => Talk.answer)) Chat.heap [0%nat] None 1)))
              ltac:(discriminate)
              [Agent.Write (Agent.text "hi"); Agent.Write Agent.done] (Ok tt) eq_refl)
    as (events & Hchat & Hevents & _).
  refine (eq_trans (Hchat 0%nat) _).
  change (map Server.agent [Agent.Write (Agent.text "hi"); Agent.Write Agent.done])
    with ([Server.agent (Agent.Write (Agent.text "hi"))]
          ++ [Server.agent (Agent.Write Agent.done)]) in Hevents.
  apply app_inj_tail in Hevents as [<- _]. reflexivity.
Defined.

(** * Request spacing *)

(** X26 (src/codeforces.ts, [rateLimit]): as long as the clock does not
    run backwards and no timer fires early, calls made one after the other
    leave [lastRequestTime] at least 500 ms later than the call before
    left it, and never wait longer than the time still missing to 500 ms. *)
Theorem sequential_requests_are_spaced (lastRequestTime : Z) (clock : list (Z * Z)) :
  punctual lastRequestTime clock ->
  StronglySorted (fun t t' => t + 500 <= t')
                 (lastRequestTime :: map snd (Client.rateLimits lastRequestTime clock))
  /\ Forall (fun r => forall d, fst r = Some d -> 0 < d <= 500)
            (Client.rateLimits lastRequestTime clock).
Proof.
  revert lastRequestTime. induction clock as [|[now later] clock IH];
    intros lastRequestTime; cbn [punctual Client.rateLimits map snd].
  - intros _. split; by repeat constructor.
  - intros (Hmono & Htimer & Hrest). destruct (IH later Hrest) as [Hsorted Hwaits].
    unfold Client.rateLimit in *. cbv zeta in *. cbn [fst snd] in *.
    assert (lastRequestTime + 500 <= later) as Hgap.
    { destruct (now - lastRequestTime <? 500) eqn:Hlt; simpl in Htimer; lia. }
    split.
    + constructor; [exact Hsorted|]. constructor; [done|].
      apply StronglySorted_inv in Hsorted as [_ Hall].
      eapply Forall_impl; [exact Hall|]. intros t Ht. simpl in Ht. lia.
    + constructor; [|exact Hwaits]. intros d.
      destruct (now - lastRequestTime <? 500) eqn:Hlt; [|done].
      intros [= <-]. lia.
Qed.

Lemma sequential_requests_are_spaced_witness :
  StronglySorted (fun t t' => t + 500 <= t')
                 (0 :: map snd (Client.rateLimits 0 [(1000, 1000); (1100, 1500); (1500, 2001)])).
Proof.
  refine (proj1 (sequential_requests_are_spaced 0 [(1000, 1000); (1100, 1500); (1500, 2001)] _)).
  vm_compute. repeat split; discriminate.
Defined.

(** * The trimmer keeps order and depends on alignment *)

Section Subsequence.
Variable heap : Heap.
Implicit Types (msgs : list ref).

Lemma flat_pairsOf_sublist msgs : History.flat (History.pairsOf heap msgs) `sublist_of` msgs.
Proof.
  induction msgs as [| x | x y l IH] using pairs_ind; simpl.
  - constructor.
  - unfold History.flat. simpl. by apply sublist_nil_l.
  - destruct (_ && _); unfold History.flat in *; simpl.
    + by do 2 apply sublist_skip.
    + by do 2 apply sublist_cons.
Qed.

Lemma recent_sublist msgs :
  History.flat (JS.sliceLast History.MAX_HISTORY_TURNS (History.pairsOf heap msgs))
  `sublist_of` msgs.
Proof.
  unfold JS.sliceLast. rewrite flat_drop.
  etrans; [apply sublist_drop | apply flat_pairsOf_sublist].
Qed.

Lemma sublist_snoc_last (l m : list ref) (z : ref) :
  l `sublist_of` m ++ [z] -> last l <> Some z -> l `sublist_of` m.
Proof.
  intros (k1 & k2 & -> & H1 & H2)%sublist_app_r Hlast.
  destruct k2 as [|y k2].
  - by rewrite app_nil_r.
  - exfalso. apply sublist_cons_l in H2 as (pre & post & Heq & Hk2).
    destruct pre as [|? [|? ?]]; try done. injection Heq as <- <-.
    apply sublist_nil_r in Hk2 as ->. apply Hlast. by rewrite last_snoc.
Qed.

Lemma pairsOf_assistantFirst msgs : assistantFirst heap msgs -> History.pairsOf heap msgs = [].
Proof.
  induction msgs as [| x | x y l IH] using pairs_ind; intros Hfirst; try done.
  cbn [History.pairsOf]. rewrite (Hfirst 0%nat x eq_refl). cbn [Role_eqb andb app].
  apply IH. intros k r Hk. apply (Hfirst (S k)).
  replace (2 * S k)%nat with (S (S (2 * k))) by lia. done.
Qed.

End Subsequence.

(** X27 (src/agent.ts, [trimHistory]): what the trimmer returns for a
    non-empty conversation is a subsequence of it: messages of the
    conversation itself, in their original order, none of them repeated
    more often than it occurs. *)
Theorem trimHistory_is_a_subsequence (heap : Heap) (msgs : list ref) :
  msgs <> [] ->
  exists kept, History.trimHistory heap msgs = map Some kept /\ kept `sublist_of` msgs.
Proof.
  intros Hne. destruct (last_defined msgs Hne) as [final Hfinal].
  pose proof (recent_sublist heap msgs) as Hsub.
  unfold History.trimHistory. cbv zeta. rewrite Hfinal.
  set (recent := History.flat _) in *.
  destruct (_ || _) eqn:Hcond.
  - exists (recent ++ [final]). split; [by rewrite map_app|].
    apply last_Some in Hfinal as [m ->]. apply sublist_app; [|done].
    apply (sublist_snoc_last _ _ final Hsub).
    apply orb_true_iff in Hcond as [Hempty|Hlast].
    + apply Nat.eqb_eq in Hempty. rewrite length_map in Hempty.
      by destruct recent.
    + apply negb_true_iff, bool_decide_eq_false in Hlast.
      intros Heq. apply Hlast. by rewrite last_map, Heq.
  - exists recent. split; [done | exact Hsub].
Qed.

Lemma trimHistory_is_a_subsequence_witness :
  exists kept,
    History.trimHistory Chat.heap Chat.messages = map Some kept
    /\ kept `sublist_of` Chat.messages.
Proof.
  apply (trimHistory_is_a_subsequence Chat.heap Chat.messages). discriminate.
Defined.

(** X28 (src/agent.ts, [trimHistory]): turns are looked for at even
    positions only.  In a conversation whose even positions all hold
    assistant messages, as when the assistant spoke first, no turn is
    found and only the final message is kept. *)
Theorem assistant_first_history_keeps_only_final (heap : Heap) (msgs : list ref) :
  msgs <> [] ->
  assistantFirst heap msgs ->
  History.trimHistory heap msgs = [last msgs].
Proof.
  intros Hne Hfirst. unfold History.trimHistory. cbv zeta.
  by rewrite (pairsOf_assistantFirst heap msgs Hfirst).
Qed.

Lemma assistant_first_history_keeps_only_final_witness :
  History.trimHistory Greeted.heap Greeted.messages = [Some 5%nat].
Proof.
  apply (assistant_first_history_keeps_only_final Greeted.heap Greeted.messages).
  - discriminate.
  - intros k r Hk. apply lookup_seq in Hk as [-> _]. unfold Greeted.heap.
    change (0 + 2 * k)%nat with (2 * k)%nat. by rewrite Nat.even_mul.
Defined.
